(** * blp: link-prediction training script and Wikidata fetcher

    A shallow embedding of [train.py] (the ranking evaluator
    [eval_link_prediction], the summary loader [get_entity_summaries] and
    the alignment loop [train_linker]) and of
    [data/wikidata5m/fetch.py] ([get_retry], [get_extracts_from_pages],
    [retrieve_pages]), with the properties the design document states
    about them.

    Conventions.  Tensors of floats are lists of rationals ([Q]); the
    rounding of float arithmetic is modelled where a statement depends
    on it, in [TrainRounding].  Entity and relation
    identifiers are [nat].  Python dictionaries keyed by strings are
    [gmap string _].  Code that mutates ambient state (the autograd
    mode, the sacred run, the output files) threads an explicit state
    record. *)

From Stdlib Require Import Ascii QArith Qfield Lqa Qround Qpower.
From stdpp Require Import gmap strings list fin_maps.
From ITree Require Import ITree ITreeFacts Events.State Events.StateFacts Props.Leaf.
From Equations Require Import Equations.

Close Scope Q_scope.
Open Scope nat_scope.

(* ===================================================================== *)
(** * Rational sums *)
(* ===================================================================== *)

Definition Qnat (n : nat) : Q := inject_Z (Z.of_nat n).

Definition qsum (l : list Q) : Q := foldr Qplus 0%Q l.

(* ===================================================================== *)
(** * torch.utils.data.DataLoader: sequential batching *)
(* ===================================================================== *)

(** A [DataLoader(dataset, batch_size=n)] without [shuffle] and without
    [drop_last] yields the dataset in order, [n] items at a time, the last
    batch holding what is left.  The constructor refuses a batch size that
    is not positive, hence [positive]. *)
Equations? chunks {A : Type} (n : positive) (l : list A) : list (list A)
  by wf (length l) lt :=
  chunks n [] := [];
  chunks n (x :: l') :=
    take (Pos.to_nat n) (x :: l') :: chunks n (drop (Pos.to_nat n) (x :: l')).
Proof. rewrite length_drop. simpl. lia. Qed.

(* ===================================================================== *)
(** * utils.hit_at_k and utils.mrr *)
(* ===================================================================== *)

Module Utils.

(** Modelled from the spec: [utils.py] is not among the sources; the
    design document gives the rank of a true entity as one plus the
    number of candidates with strictly lower energy. *)
Definition rank (row : list Q) (true_ent : nat) : nat :=
  S (length (List.filter (fun x => negb (Qle_bool (nth true_ent row 0%Q) x)) row)).

(** Modelled from the spec: a true entity counts as a hit when its rank
    is at most [k]. *)
Definition hit (k : nat) (p : list Q * nat) : Q :=
  if rank p.1 p.2 <=? k then 1%Q else 0%Q.

(** Modelled from the spec: the 1/rank of a true entity. *)
Definition reciprocal_rank (p : list Q * nat) : Q :=
  (1 / Qnat (rank p.1 p.2))%Q.

(** Modelled from the spec: [utils.hit_at_k] is not among the sources;
    Hits@K is the fraction of true entities whose rank is at most K,
    here over the rows of one call. *)
Definition hit_at_k (predictions : list (list Q)) (ground_truth_idx : list nat)
    (k : nat) : Q :=
  (qsum (hit k <$> zip predictions ground_truth_idx) / Qnat (length predictions))%Q.

(** Modelled from the spec: [utils.mrr] is not among the sources; MRR is
    the mean of 1/rank, here over the rows of one call. *)
Definition mrr (predictions : list (list Q)) (ground_truth_idx : list nat) : Q :=
  (qsum (reciprocal_rank <$> zip predictions ground_truth_idx)
     / Qnat (length predictions))%Q.

End Utils.

(* ===================================================================== *)
(** * train.py *)
(* ===================================================================== *)

Module Train.

(** A row of a triples tensor: columns [head], [tail], [rel], in the
    order [torch.chunk(triples, chunks=3, dim=1)] returns them. *)
Record triple := Triple { head : nat; tail : nat; rel : nat }.

Definition Vec := list Q.

(** Exceptions an evaluation can end with.  [ZeroDivisionError] is
    Python's; [EmptyLoaderError] is the name the design document uses. *)
Inductive exn := ZeroDivisionError | EmptyLoaderError.

Inductive result (A : Type) :=
| Ok (a : A)
| Raise (e : exn).
Arguments Ok {A} a.
Arguments Raise {A} e.

(** Forward calls that autograd would record. *)
Inductive fwd :=
| FwdEntEmb (batch_ents : list nat)
| FwdEnergy (heads tails rels : list nat).

Section Evaluator.

(** Persistent model state: relation embeddings and encoder weights. *)
Variable Θ : Type.
(** A padded batch of token ids with its attention masks. *)
Variable Tok : Type.

(** [model.ent_emb(tokens, masks)]: row [j] of the returned batch. *)
Variable ent_emb_fwd : Θ -> Tok -> nat -> Vec.
(** [model.energy_eval] at one (head, tail, relation) cell of the
    broadcast, given the optional embedding table. *)
Variable energy_eval : Θ -> option (list Vec) -> nat -> nat -> nat -> Q.
(** [utils.hit_at_k(predictions, ground_truth_idx, k)] and
    [utils.mrr(predictions, ground_truth_idx)]; [utils.py] is not
    among the sources, so the evaluator takes them as parameters. *)
Variable utils_hit_at_k : list (list Q) -> list nat -> nat -> Q.
Variable utils_mrr : list (list Q) -> list nat -> Q.

Record model := Model { num_entities : nat; dim : nat }.

(** [text_data] is [Some get_entity_descriptions] exactly for a
    [TextGraphDataset]. *)
Record Dataset := MkDataset {
  triples : list triple;
  text_data : option (list nat -> Tok)
}.

Record DataLoader := MkLoader { dataset : Dataset; batch_size : positive }.

Definition batches (loader : DataLoader) : list (list triple) :=
  chunks (batch_size loader) (triples (dataset loader)).

(** Ambient state: the model's parameters, torch's grad mode, the
    autograd graph (forward calls recorded while grad mode is on), the
    scalars logged to the sacred run, and, for the statements below,
    the sequence of all forward calls made. *)
Record world := World {
  params : Θ;
  grad_enabled : bool;
  graph : list fwd;
  scalars : list (string * Q * nat);
  trace : list fwd
}.

Definition set_grad (b : bool) (w : world) : world :=
  World (params w) b (graph w) (scalars w) (trace w).

Definition track (c : fwd) (w : world) : world :=
  World (params w) (grad_enabled w)
    (if grad_enabled w then graph w ++ [c] else graph w)
    (scalars w) (trace w ++ [c]).

Definition log_scalar (name : string) (v : Q) (step : nat) (w : world) : world :=
  World (params w) (grad_enabled w) (graph w) (scalars w ++ [(name, v, step)])
    (trace w).

(** [@torch.no_grad()]: grad mode off for the call, restored after. *)
Definition no_grad {A} (f : world -> A * world) (w : world) : A * world :=
  let prev := grad_enabled w in
  let '(a, w') := f (set_grad false w) in
  (a, set_grad prev w').

(** [t[a:b] = rows] on the first axis. *)
Definition slice_assign (t : list Vec) (a b : nat) (rows : list Vec) : list Vec :=
  take a t ++ rows ++ drop b t.

(** [t[a:b]] *)
Definition slice {A} (t : list A) (a b : nat) : list A := take (b - a) (drop a t).

(** Lines 42-51: the chunked construction of the embedding table.
    Besides the table the loop returns the index ranges it wrote,
    in the order of the writes. *)
Equations? cache_loop (m : model) (descr : list nat -> Tok) (bs : positive)
    (all_ents : list nat) (idx : nat) (ent_emb : list Vec)
    (writes : list (nat * nat)) (w : world)
    : list Vec * list (nat * nat) * world
  by wf (num_entities m - idx) lt :=
  cache_loop m descr bs all_ents idx ent_emb writes w
    with decide (idx < num_entities m) => {
    | left _ =>
        let batch_ents := slice all_ents idx (idx + Pos.to_nat bs) in
        let tok := descr batch_ents in
        let w1 := track (FwdEntEmb batch_ents) w in
        let batch_emb := ent_emb_fwd (params w1) tok <$> seq 0 (length batch_ents) in
        let stop := Nat.min (idx + Pos.to_nat bs) (num_entities m) in
        cache_loop m descr bs all_ents (idx + Pos.to_nat bs)
          (slice_assign ent_emb idx (idx + Pos.to_nat bs) batch_emb)
          (writes ++ [(idx, stop)]) w1;
    | right _ => (ent_emb, writes, w) }.
Proof. lia. Qed.

(** Lines 33-55: [all_ents] and the optional embedding table. *)
Definition all_entities (m : model) : list nat := seq 0 (num_entities m).

Definition zeros (rows cols : nat) : list Vec := replicate rows (replicate cols 0%Q).

Definition build_ent_emb (m : model) (loader : DataLoader) (w : world)
    : option (list Vec) * list (nat * nat) * world :=
  match text_data (dataset loader) with
  | Some descr =>
      let '(ent_emb, writes, w') :=
        cache_loop m descr (batch_size loader) (all_entities m) 0
          (zeros (num_entities m) (dim m)) [] w in
      (Some ent_emb, writes, w')
  | None => (None, [], w)
  end.

(** Lines 66-70 for one batch: the two broadcast scoring passes and
    the pairing of their rows with the true entities. *)
Definition heads_predictions (θ : Θ) (ent_emb : option (list Vec))
    (all_ents : list nat) (batch : list triple) : list (list Q) :=
  (fun tr => (fun e => energy_eval θ ent_emb e (tail tr) (rel tr)) <$> all_ents)
    <$> batch.

Definition tails_predictions (θ : Θ) (ent_emb : option (list Vec))
    (all_ents : list nat) (batch : list triple) : list (list Q) :=
  (fun tr => (fun e => energy_eval θ ent_emb (head tr) e (rel tr)) <$> all_ents)
    <$> batch.

Definition pred_ents θ ent_emb all_ents batch : list (list Q) :=
  tails_predictions θ ent_emb all_ents batch
    ++ heads_predictions θ ent_emb all_ents batch.

Definition true_ents (batch : list triple) : list nat :=
  (tail <$> batch) ++ (head <$> batch).

(** [max_num_batches is not None and i == max_num_batches] *)
Definition stop_at (max_num_batches : option nat) (i : nat) : bool :=
  match max_num_batches with
  | Some n => i =? n
  | None => false
  end.

(** Lines 58-74: the loop over [enumerate(loader)].  The accumulator
    is [(hits, mrr, batch_count)]. *)
Fixpoint eval_loop (ent_emb : option (list Vec)) (all_ents : list nat)
    (max_num_batches : option nat) (i : nat) (bs : list (list triple))
    (acc : Q * Q * nat) (w : world) : Q * Q * nat * world :=
  match bs with
  | [] => (acc, w)
  | batch :: rest =>
      if stop_at max_num_batches i then (acc, w)
      else
        let '(hits, mrr, batch_count) := acc in
        let w1 := track (FwdEnergy all_ents (tail <$> batch) (rel <$> batch)) w in
        let hp := heads_predictions (params w1) ent_emb all_ents batch in
        let w2 := track (FwdEnergy (head <$> batch) all_ents (rel <$> batch)) w1 in
        let tp := tails_predictions (params w2) ent_emb all_ents batch in
        let pred := tp ++ hp in
        let true := true_ents batch in
        eval_loop ent_emb all_ents max_num_batches (S i) rest
          ((hits + utils_hit_at_k pred true 10)%Q,
           (mrr + utils_mrr pred true)%Q,
           S batch_count) w2
  end.

(** Lines 26-81.  The function returns nothing; what it reports goes
    to the run as two scalars.  A division by a zero [batch_count]
    raises before anything is logged. *)
Definition eval_link_prediction (m : model) (loader : DataLoader) (epoch : nat)
    (prefix : string) (max_num_batches : option nat) : world -> result unit * world :=
  no_grad (fun w =>
    let '(ent_emb, _, w1) := build_ent_emb m loader w in
    let '(hits, mrr, batch_count, w2) :=
      eval_loop ent_emb (all_entities m) max_num_batches 0 (batches loader)
        (0%Q, 0%Q, 0) w1 in
    if batch_count =? 0 then (Raise ZeroDivisionError, w2)
    else
      let hits := (hits / Qnat batch_count)%Q in
      let mrr := (mrr / Qnat batch_count)%Q in
      let w3 := log_scalar (prefix +:+ "_valid_mrr") mrr epoch w2 in
      let w4 := log_scalar (prefix +:+ "_valid_hits@10") hits epoch w3 in
      (Ok tt, w4)).

(** ** Reference definitions for the statements *)

(** The batches the loop gets to: all of them, or the first
    [max_num_batches]. *)
Definition consumed {A} (max_num_batches : option nat) (bs : list A) : list A :=
  match max_num_batches with
  | Some n => take n bs
  | None => bs
  end.

(** The forward calls of one loop iteration. *)
Definition batch_calls (all_ents : list nat) (batch : list triple) : list fwd :=
  [FwdEnergy all_ents (tail <$> batch) (rel <$> batch);
   FwdEnergy (head <$> batch) all_ents (rel <$> batch)].

Definition batch_hits θ ent_emb all_ents (batch : list triple) : Q :=
  utils_hit_at_k (pred_ents θ ent_emb all_ents batch) (true_ents batch) 10.

Definition batch_mrr θ ent_emb all_ents (batch : list triple) : Q :=
  utils_mrr (pred_ents θ ent_emb all_ents batch) (true_ents batch).

(** The design document's metrics, over all head and tail
    substitutions of an evaluation set taken together: the fraction of
    true entities of rank at most 10, and the mean of 1/rank. *)
Definition hits_at_10_spec θ ent_emb all_ents (eval_set : list triple) : Q :=
  Utils.hit_at_k (pred_ents θ ent_emb all_ents eval_set) (true_ents eval_set) 10.

Definition mrr_spec θ ent_emb all_ents (eval_set : list triple) : Q :=
  Utils.mrr (pred_ents θ ent_emb all_ents eval_set) (true_ents eval_set).

(** The table as one expression: the encodings of the chunks of the
    id range, one after the other. *)
Definition encode_chunk (θ : Θ) (descr : list nat -> Tok) (c : list nat) : list Vec :=
  ent_emb_fwd θ (descr c) <$> seq 0 (length c).

Definition ent_emb_table (θ : Θ) (m : model) (loader : DataLoader)
    : option (list Vec) :=
  match text_data (dataset loader) with
  | Some descr =>
      Some (concat (encode_chunk θ descr
                      <$> chunks (batch_size loader) (all_entities m)))
  | None => None
  end.

Definition cache_calls (m : model) (loader : DataLoader) : list fwd :=
  match text_data (dataset loader) with
  | Some _ => FwdEntEmb <$> chunks (batch_size loader) (all_entities m)
  | None => []
  end.

End Evaluator.

Arguments World {Θ} params grad_enabled graph scalars trace.
Arguments params {Θ} w.
Arguments grad_enabled {Θ} w.
Arguments graph {Θ} w.
Arguments scalars {Θ} w.
Arguments trace {Θ} w.
Arguments set_grad {Θ} b w.
Arguments track {Θ} c w.
Arguments log_scalar {Θ} name v step w.
Arguments no_grad {Θ A} f w.
Arguments MkDataset {Tok} triples text_data.
Arguments triples {Tok} d.
Arguments text_data {Tok} d.
Arguments MkLoader {Tok} dataset batch_size.
Arguments dataset {Tok} d.
Arguments batch_size {Tok} d.
Arguments batches {Tok} loader.
Arguments cache_loop {Θ Tok} ent_emb_fwd m descr bs all_ents idx ent_emb writes w.
Arguments build_ent_emb {Θ Tok} ent_emb_fwd m loader w.
Arguments heads_predictions {Θ} energy_eval θ ent_emb all_ents batch.
Arguments tails_predictions {Θ} energy_eval θ ent_emb all_ents batch.
Arguments pred_ents {Θ} energy_eval θ ent_emb all_ents batch.
Arguments eval_loop {Θ} energy_eval utils_hit_at_k utils_mrr ent_emb all_ents
  max_num_batches i bs acc w.
Arguments eval_link_prediction {Θ Tok} ent_emb_fwd energy_eval utils_hit_at_k
  utils_mrr m loader epoch prefix max_num_batches w.
Arguments batch_hits {Θ} energy_eval utils_hit_at_k θ ent_emb all_ents batch.
Arguments batch_mrr {Θ} energy_eval utils_mrr θ ent_emb all_ents batch.
Arguments hits_at_10_spec {Θ} energy_eval θ ent_emb all_ents eval_set.
Arguments mrr_spec {Θ} energy_eval θ ent_emb all_ents eval_set.
Arguments encode_chunk {Θ Tok} ent_emb_fwd θ descr c.
Arguments ent_emb_table {Θ Tok} ent_emb_fwd θ m loader.
Arguments cache_calls {Tok} m loader.

(** The state after a sequence of forward calls. *)
Definition track_all {Θ} (cs : list fwd) (w : world Θ) : world Θ :=
  foldl (fun w c => track c w) w cs.

(** A list of ranges that tiles [idx, n) with stride [bs]. *)
Inductive tiling (bs n : nat) : nat -> list (nat * nat) -> Prop :=
| tiling_done idx : n <= idx -> tiling bs n idx []
| tiling_step idx rs :
    idx < n -> tiling bs n (idx + bs) rs ->
    tiling bs n idx ((idx, Nat.min (idx + bs) n) :: rs).

(** The row indices a write to [t[a:b]] touches. *)
Definition rows_of (r : nat * nat) : list nat := seq r.1 (r.2 - r.1).

(** The two substitutions of one triple: the scores of all candidate
    tails and of all candidate heads, and what a per-row quantity [f]
    adds up to over the two. *)
Definition tail_row {Θ} (energy_eval : Θ -> option (list Vec) -> nat -> nat -> nat -> Q)
    θ ent_emb (all_ents : list nat) (tr : triple) : list Q :=
  (fun e => energy_eval θ ent_emb (head tr) e (rel tr)) <$> all_ents.

Definition head_row {Θ} (energy_eval : Θ -> option (list Vec) -> nat -> nat -> nat -> Q)
    θ ent_emb (all_ents : list nat) (tr : triple) : list Q :=
  (fun e => energy_eval θ ent_emb e (tail tr) (rel tr)) <$> all_ents.

Definition per_triple {Θ} energy_eval (f : list Q * nat -> Q) (θ : Θ) ent_emb
    all_ents (tr : triple) : Q :=
  (f (tail_row energy_eval θ ent_emb all_ents tr, tail tr)
   + f (head_row energy_eval θ ent_emb all_ents tr, head tr))%Q.

(** The helpers passed to the evaluator return what the design document
    says Hits@K and MRR are, for the rows they are given. *)
Definition helpers_as_specified
    (utils_hit_at_k : list (list Q) -> list nat -> nat -> Q)
    (utils_mrr : list (list Q) -> list nat -> Q) : Prop :=
  (forall p t k, (utils_hit_at_k p t k == Utils.hit_at_k p t k)%Q)
  /\ (forall p t, (utils_mrr p t == Utils.mrr p t)%Q).

(** A call that started in [w] reported [hits] and [mrr]: it returned
    normally and logged the two scalars. *)
Definition reported {Θ} (prefix : string) (epoch : nat) (w : world Θ)
    (run : result unit * world Θ) (hits mrr : Q) : Prop :=
  run.1 = Ok tt
  /\ scalars run.2 =
       scalars w ++ [(prefix +:+ "_valid_mrr", mrr, epoch);
                     (prefix +:+ "_valid_hits@10", hits, epoch)].

(** The reported values are the per-substitution metrics of the whole
    evaluation set. *)
Definition reports_exact_metrics {Θ Tok} ent_emb_fwd energy_eval
    utils_hit_at_k utils_mrr (m : model)
    (loader : DataLoader Tok) (epoch : nat) (prefix : string)
    (max_num_batches : option nat) (w : world Θ) : Prop :=
  exists hits mrr,
    reported prefix epoch w
      (eval_link_prediction ent_emb_fwd energy_eval utils_hit_at_k utils_mrr
         m loader epoch prefix max_num_batches w) hits mrr
    /\ (hits == hits_at_10_spec energy_eval (params w)
                  (ent_emb_table ent_emb_fwd (params w) m loader)
                  (all_entities m) (triples (dataset loader)))%Q
    /\ (mrr == mrr_spec energy_eval (params w)
                 (ent_emb_table ent_emb_fwd (params w) m loader)
                 (all_entities m) (triples (dataset loader)))%Q.

(** Two runs report equal values. *)
Definition same_report {Θ} (prefix : string) (epoch : nat) (w : world Θ)
    (run run' : result unit * world Θ) : Prop :=
  exists hits mrr hits' mrr',
    reported prefix epoch w run hits mrr
    /\ reported prefix epoch w run' hits' mrr'
    /\ (hits == hits')%Q /\ (mrr == mrr')%Q.

End Train.

(** Concrete inputs: twelve entities, an energy that orders candidates by
    id, and three triples in batches of two. *)
Module TrainExamples.
Import Train.

Definition ex_energy (_ : unit) (_ : option (list Vec)) (h t r : nat) : Q :=
  Qnat (h + t).
Definition ex_fwd (_ : unit) (_ : unit) (j : nat) : Vec := [Qnat j].
Definition ex_model : model := Model 12 1.
Definition ex_triples : list triple :=
  [Triple 0 0 0; Triple 0 0 1; Triple 11 11 0].
Definition ex_loader : DataLoader unit :=
  MkLoader (MkDataset ex_triples None) 2.
(** The same triples fed in another order. *)
Definition ex_loader_perm : DataLoader unit :=
  MkLoader (MkDataset [Triple 11 11 0; Triple 0 0 0; Triple 0 0 1] None) 2.
(** Four triples: a multiple of the batch size. *)
Definition ex_loader_even : DataLoader unit :=
  MkLoader (MkDataset (ex_triples ++ [Triple 11 11 1]) None) 2.
Definition ex_loader_even_perm : DataLoader unit :=
  MkLoader (MkDataset (Triple 11 11 1 :: ex_triples) None) 2.
(** The first batch of [ex_loader] and its second batch, each as an
    evaluation set of its own. *)
Definition ex_loader_first : DataLoader unit :=
  MkLoader (MkDataset [Triple 0 0 0; Triple 0 0 1] None) 2.
Definition ex_loader_second : DataLoader unit :=
  MkLoader (MkDataset [Triple 11 11 0] None) 2.
(** A text dataset evaluated in batches of five. *)
Definition ex_loader_text : DataLoader unit :=
  MkLoader (MkDataset ex_triples (Some (fun _ => tt))) 5.
(** An empty validation split of a text dataset. *)
Definition ex_loader_empty : DataLoader unit :=
  MkLoader (MkDataset [] (Some (fun _ => tt))) 5.
Definition ex_world : world unit := World tt true [] [] [].

End TrainExamples.

(* ===================================================================== *)
(** * train.py: the evaluator's sums in floating point *)
(* ===================================================================== *)

Module TrainRounding.
Import Train.

Section Rounded.

Variable Θ : Type.
Variable Tok : Type.
Variable ent_emb_fwd : Θ -> Tok -> nat -> Vec.
Variable energy_eval : Θ -> option (list Vec) -> nat -> nat -> nat -> Q.
Variable utils_hit_at_k : list (list Q) -> list nat -> nat -> Q.
Variable utils_mrr : list (list Q) -> list nat -> Q.

(** The float a float operation returns, as a function of the exact
    result of the operation (a float is the rational it stands for).
    With the identity the definitions below are those of [Train]. *)
Variable rnd : Q -> Q.

(** Lines 58-74, the two additions of line 72 and 73 rounded. *)
Fixpoint eval_loop_rnd (ent_emb : option (list Vec)) (all_ents : list nat)
    (max_num_batches : option nat) (i : nat) (bs : list (list triple))
    (acc : Q * Q * nat) (w : world Θ) : Q * Q * nat * world Θ :=
  match bs with
  | [] => (acc, w)
  | batch :: rest =>
      if stop_at max_num_batches i then (acc, w)
      else
        let '(hits, mrr, batch_count) := acc in
        let w1 := track (FwdEnergy all_ents (tail <$> batch) (rel <$> batch)) w in
        let hp := heads_predictions energy_eval (params w1) ent_emb all_ents batch in
        let w2 := track (FwdEnergy (head <$> batch) all_ents (rel <$> batch)) w1 in
        let tp := tails_predictions energy_eval (params w2) ent_emb all_ents batch in
        let pred := tp ++ hp in
        let true := true_ents batch in
        eval_loop_rnd ent_emb all_ents max_num_batches (S i) rest
          (rnd (hits + utils_hit_at_k pred true 10)%Q,
           rnd (mrr + utils_mrr pred true)%Q,
           S batch_count) w2
  end.

(** Lines 26-81, the additions and the two divisions of lines 76 and 77
    rounded. *)
Definition eval_link_prediction_rnd (m : model) (loader : DataLoader Tok)
    (epoch : nat) (prefix : string) (max_num_batches : option nat)
    : world Θ -> result unit * world Θ :=
  no_grad (fun w =>
    let '(ent_emb, _, w1) := build_ent_emb ent_emb_fwd m loader w in
    let '(hits, mrr, batch_count, w2) :=
      eval_loop_rnd ent_emb (all_entities m) max_num_batches 0 (batches loader)
        (0%Q, 0%Q, 0) w1 in
    if batch_count =? 0 then (Raise ZeroDivisionError, w2)
    else
      let hits := rnd (hits / Qnat batch_count)%Q in
      let mrr := rnd (mrr / Qnat batch_count)%Q in
      let w3 := log_scalar (prefix +:+ "_valid_mrr") mrr epoch w2 in
      let w4 := log_scalar (prefix +:+ "_valid_hits@10") hits epoch w3 in
      (Ok tt, w4)).

End Rounded.

Arguments eval_loop_rnd {Θ} energy_eval utils_hit_at_k utils_mrr rnd ent_emb
  all_ents max_num_batches i bs acc w.
Arguments eval_link_prediction_rnd {Θ Tok} ent_emb_fwd energy_eval utils_hit_at_k
  utils_mrr rnd m loader epoch prefix max_num_batches w.

(** ** Reference definitions for the statements *)

(** A sum accumulated from [0.0] in the order of the list, each
    addition rounded. *)
Definition rounded_sum (rnd : Q -> Q) (l : list Q) : Q :=
  foldl (fun acc x => rnd (acc + x)%Q) 0%Q l.

(** Rounding with relative error at most [u] on the values the
    evaluator meets, none of which is negative. *)
Definition rounds_within (u : Q) (rnd : Q -> Q) : Prop :=
  forall x, (0 <= x)%Q -> ((1 - u) * x <= rnd x)%Q /\ (rnd x <= (1 + u) * x)%Q.

(** [x] is [v] up to a relative error [e] and [k] roundings of relative
    error [u] each. *)
Definition within (e u : Q) (k : nat) (v x : Q) : Prop :=
  ((1 - e) * (1 - u) ^ Z.of_nat k * v <= x)%Q
  /\ (x <= (1 + e) * (1 + u) ^ Z.of_nat k * v)%Q.

(** [x] and [y] differ by no more than two values that are both
    [within e u k] of one value can. *)
Definition agree_within (e u : Q) (k : nat) (x y : Q) : Prop :=
  ((1 - e) * (1 - u) ^ Z.of_nat k * x <= (1 + e) * (1 + u) ^ Z.of_nat k * y)%Q
  /\ ((1 - e) * (1 - u) ^ Z.of_nat k * y <= (1 + e) * (1 + u) ^ Z.of_nat k * x)%Q.

(** The helpers return, within relative error [e], what the design
    document says Hits@K and MRR are for the rows they are given. *)
Definition helpers_within (e : Q)
    (utils_hit_at_k : list (list Q) -> list nat -> nat -> Q)
    (utils_mrr : list (list Q) -> list nat -> Q) : Prop :=
  (forall p t k, ((1 - e) * Utils.hit_at_k p t k <= utils_hit_at_k p t k)%Q
                 /\ (utils_hit_at_k p t k <= (1 + e) * Utils.hit_at_k p t k)%Q)
  /\ (forall p t, ((1 - e) * Utils.mrr p t <= utils_mrr p t)%Q
                  /\ (utils_mrr p t <= (1 + e) * Utils.mrr p t)%Q).

(** The batches of the loader have one size: the batch size divides
    the number of triples, or all triples fit one batch. *)
Definition one_batch_size {Tok} (loader : DataLoader Tok) : Prop :=
  (Pos.to_nat (batch_size loader) | length (triples (dataset loader)))
  \/ length (triples (dataset loader)) <= Pos.to_nat (batch_size loader).

(** ** Binary floating point *)

(** The integer nearest to [y], the even one of two at equal distance. *)
Definition nearest_even (y : Q) : Z :=
  let q := Qfloor y in
  match (y - inject_Z q ?= 1 # 2)%Q with
  | Lt => q
  | Gt => (q + 1)%Z
  | Eq => if Z.even q then q else (q + 1)%Z
  end.

(** For [x > 0], the exponent [e] of the last place of a significand of
    [p] bits: [2^(p-1) <= x / 2^e < 2^p].  The first guess, from the
    bit lengths of numerator and denominator, is right or one too
    small. *)
Definition ulp_exponent (p : Z) (x : Q) : Z :=
  let e0 := (Z.log2 (Qnum x) - Z.log2 (Zpos (Qden x)) - p)%Z in
  if Qle_bool (2 ^ p) (x * 2 ^ (- e0)) then (e0 + 1)%Z else e0.

Definition round_pos (p : Z) (x : Q) : Q :=
  (inject_Z (nearest_even (x * 2 ^ (- ulp_exponent p x))) * 2 ^ ulp_exponent p x)%Q.

(** Round to nearest, ties to even, to a binary float with a
    significand of [p] bits; the exponent range is not bounded. *)
Definition round_float (p : Z) (x : Q) : Q :=
  match Qnum x with
  | Z0 => 0%Q
  | Zpos _ => round_pos p x
  | Zneg _ => (- round_pos p (- x))%Q
  end.

(** Python's [float]: 53 bits. *)
Definition float64 : Q -> Q := round_float 53.

(** Modelled from the spec: [utils.py] is not among the sources; the
    design document's Hits@K and MRR of one call, returned as a
    [float]. *)
Definition float_hit_at_k (predictions : list (list Q)) (ground_truth_idx : list nat)
    (k : nat) : Q :=
  float64 (Utils.hit_at_k predictions ground_truth_idx k).
Definition float_mrr (predictions : list (list Q)) (ground_truth_idx : list nat) : Q :=
  float64 (Utils.mrr predictions ground_truth_idx).

(** ** Concrete inputs *)

(** The two batches of [ex_loader_perm], each as an evaluation set of
    its own. *)
Definition ex_loader_perm_first : DataLoader unit :=
  MkLoader (MkDataset [Triple 11 11 0; Triple 0 0 0] None) 2.
Definition ex_loader_perm_second : DataLoader unit :=
  MkLoader (MkDataset [Triple 0 0 1] None) 2.
(** Three triples in one batch of five, in two orders. *)
Definition ex_loader_single : DataLoader unit :=
  MkLoader (MkDataset TrainExamples.ex_triples None) 5.
Definition ex_loader_single_perm : DataLoader unit :=
  MkLoader (MkDataset [Triple 11 11 0; Triple 0 0 0; Triple 0 0 1] None) 5.
(** Three triples in batches of one, with batch MRR 1/10, 1/5 and 3/10
    under [ex_energy], in two orders. *)
Definition ex_loader_tenths : DataLoader unit :=
  MkLoader (MkDataset [Triple 9 9 0; Triple 4 4 0; Triple 9 1 0] None) 1.
Definition ex_loader_tenths_perm : DataLoader unit :=
  MkLoader (MkDataset [Triple 9 1 0; Triple 4 4 0; Triple 9 9 0] None) 1.

End TrainRounding.

(* ===================================================================== *)
(** * train.py: entity summaries and the alignment loop *)
(* ===================================================================== *)

Module Linker.
Import Train.

(** What the training loop does, in order.  [EvStep] carries the
    gradient the optimizer step consumes. *)
Inductive event (G : Type) :=
| EvAlign (i : nat)
| EvBackward (i j : nat)
| EvStep (i : nat) (g : G)
| EvZeroGrad (i : nat).
Arguments EvAlign {G} i.
Arguments EvBackward {G} i j.
Arguments EvStep {G} i g.
Arguments EvZeroGrad {G} i.

Section Alignment.

(** A padded batch of token ids with its masks; an aligned entity
    embedding; one batch of the negative-sampling loader. *)
Variables Tok Emb Data : Type.
(** Parameters of the aligner and of the graph model; the optimizer's own
    state; gradients with respect to all parameters, with the zero
    gradient and the sum [backward] accumulates with. *)
Variables Θ Opt G : Type.
Variable gzero : G.
Variable gadd : G -> G -> G.

(** [SummaryModel()]: the hidden size of its encoder, and row [j] of its
    output for a batch. *)
Record SummaryModel := MkSummaryModel {
  hidden_size : nat;
  summarizer_fwd : Tok -> nat -> Vec
}.

(** [torch.empty((rows, cols))]: a tensor over memory that is not
    initialised; [memory i j] is what the allocation happens to hold. *)
Definition torch_empty (memory : nat -> nat -> Q) (rows cols : nat) : list Vec :=
  (fun i => memory i <$> seq 0 cols) <$> seq 0 rows.

(** Lines 150-169.  The loop that would fill the table is commented out
    under a FIXME: the function returns the tensor as allocated. *)
Definition get_entity_summaries (memory : nat -> nat -> Q)
    (summarizer : SummaryModel) (num_ents : nat)
    (get_entity_descriptions : list nat -> Tok) : list Vec :=
  let emb_dim := hidden_size summarizer in
  let load_num := 256%positive in
  let all_ents := seq 0 num_ents in
  let ent_summaries := torch_empty memory num_ents emb_dim in
  ent_summaries.

(** The table the docstring and the design document describe: the
    summarizer's encoding of every entity's description, as the
    commented-out loop would store it, [load_num] entities at a time. *)
Definition entity_summaries_spec (summarizer : SummaryModel) (num_ents : nat)
    (get_entity_descriptions : list nat -> Tok) : list Vec :=
  concat ((fun batch_ents =>
             summarizer_fwd summarizer (get_entity_descriptions batch_ents)
               <$> seq 0 (length batch_ents))
            <$> chunks 256 (seq 0 num_ents)).

(** [aligner(tokens, mask, summaries)] *)
Variable aligner : Θ -> Tok -> list Vec -> Emb.
(** What [loss.backward(retain_graph=True)] adds to the gradients, for the
    loss the graph model computes from a batch and [ent_embs]. *)
Variable loss_grad : Θ -> Emb -> Data -> G.
(** [optimizer.step()] *)
Variable optimizer_step : Opt -> Θ -> G -> Opt * Θ.
(** The batches of the [i]-th pass over the shuffling loader. *)
Variable loader_pass : nat -> list Data.
Variable get_entity_descriptions : list nat -> Tok.

Record tstate := MkTState {
  t_params : Θ;
  t_grad : G;
  t_opt : Opt;
  t_events : list (event G)
}.

Definition emit (e : event G) (st : tstate) : tstate :=
  MkTState (t_params st) (t_grad st) (t_opt st) (t_events st ++ [e]).

(** [loss.backward]: gradients add up in [p.grad]. *)
Definition backward (g : G) (st : tstate) : tstate :=
  MkTState (t_params st) (gadd (t_grad st) g) (t_opt st) (t_events st).

(** Lines 203-210 *)
Fixpoint inner_loop (ent_embs : Emb) (i j : nat) (batches : list Data)
    (st : tstate) : tstate :=
  match batches with
  | [] => st
  | data :: rest =>
      let g := loss_grad (t_params st) ent_embs data in
      inner_loop ent_embs i (S j) rest (emit (EvBackward i j) (backward g st))
  end.

(** Line 231 *)
Definition step (i : nat) (st : tstate) : tstate :=
  let '(o, θ) := optimizer_step (t_opt st) (t_params st) (t_grad st) in
  MkTState θ (t_grad st) o (t_events st ++ [EvStep i (t_grad st)]).

(** Line 232 *)
Definition zero_grad (i : nat) (st : tstate) : tstate :=
  MkTState (t_params st) gzero (t_opt st) (t_events st ++ [EvZeroGrad i]).

(** Lines 192-232, one iteration of the loop over entities.  The
    printing of the extreme gradient values changes nothing. *)
Definition outer_iteration (summaries : list Vec) (st : tstate) (i : nat) : tstate :=
  let tokens := get_entity_descriptions [i] in
  let ent_embs := aligner (t_params st) tokens summaries in
  let st := emit (EvAlign i) st in
  let st := inner_loop ent_embs i 0 (loader_pass i) st in
  let st := step i st in
  zero_grad i st.

(** Lines 173-232.  Parameters start without gradients. *)
Definition train_linker (memory : nat -> nat -> Q) (summarizer : SummaryModel)
    (num_ents : nat) (θ0 : Θ) (opt0 : Opt) : tstate :=
  let summaries :=
    get_entity_summaries memory summarizer num_ents get_entity_descriptions in
  foldl (outer_iteration summaries) (MkTState θ0 gzero opt0 []) (seq 0 num_ents).

(** ** Reference definitions for the statements *)

(** The gradient of one outer iteration alone: the sum, from zero, over
    the batches of its pass, at parameters [θ]. *)
Definition iteration_grad (summaries : list Vec) (θ : Θ) (i : nat) : G :=
  foldl gadd gzero
    (loss_grad θ (aligner θ (get_entity_descriptions [i]) summaries)
       <$> loader_pass i).

(** Optimizer state and parameters before iteration [n]. *)
Fixpoint state_before (summaries : list Vec) (θ0 : Θ) (opt0 : Opt) (n : nat)
    : Opt * Θ :=
  match n with
  | 0 => (opt0, θ0)
  | S k =>
      let '(o, θ) := state_before summaries θ0 opt0 k in
      optimizer_step o θ (iteration_grad summaries θ k)
  end.

Definition iteration_events (summaries : list Vec) (θ : Θ) (i : nat)
    : list (event G) :=
  [EvAlign i]
    ++ (EvBackward i <$> seq 0 (length (loader_pass i)))
    ++ [EvStep i (iteration_grad summaries θ i); EvZeroGrad i].

End Alignment.

Arguments MkSummaryModel {Tok} hidden_size summarizer_fwd.
Arguments hidden_size {Tok} s.
Arguments summarizer_fwd {Tok} s.
Arguments get_entity_summaries {Tok} memory summarizer num_ents get_entity_descriptions.
Arguments entity_summaries_spec {Tok} summarizer num_ents get_entity_descriptions.
Arguments MkTState {Θ Opt G} t_params t_grad t_opt t_events.
Arguments t_params {Θ Opt G} t.
Arguments t_grad {Θ Opt G} t.
Arguments t_opt {Θ Opt G} t.
Arguments t_events {Θ Opt G} t.
Arguments inner_loop {Emb Data Θ Opt G} gadd loss_grad ent_embs i j batches st.
Arguments outer_iteration {Tok Emb Data Θ Opt G} gzero gadd aligner loss_grad
  optimizer_step loader_pass get_entity_descriptions summaries st i.
Arguments train_linker {Tok Emb Data Θ Opt G} gzero gadd aligner loss_grad
  optimizer_step loader_pass get_entity_descriptions memory summarizer num_ents θ0 opt0.
Arguments iteration_grad {Tok Emb Data Θ G} gzero gadd aligner loss_grad
  loader_pass get_entity_descriptions summaries θ i.
Arguments state_before {Tok Emb Data Θ Opt G} gzero gadd aligner loss_grad
  optimizer_step loader_pass get_entity_descriptions summaries θ0 opt0 n.
Arguments iteration_events {Tok Emb Data Θ G} gzero gadd aligner loss_grad
  loader_pass get_entity_descriptions summaries θ i.

(** A run with numbers for parameters and gradients: a backward call
    adds the batch, a step adds the gradient to the parameter. *)
Definition ex_train_linker : tstate nat nat nat :=
  train_linker (Tok:=list nat) (Emb:=unit) 0 Nat.add (fun _ _ _ => tt)
    (fun _ _ data => data) (fun o θ g => (S o, θ + g))
    (fun i => [S i; 10]) (fun batch_ents => batch_ents)
    (fun _ _ => 0%Q) (MkSummaryModel 1 (fun _ _ => [])) 2 100 0.

(** A dataset of two entities whose descriptions the summarizer encodes
    as [[1]] and [[2]], and memory that happens to hold zeros. *)
Definition ex_summarizer : SummaryModel (list nat) :=
  MkSummaryModel 1 (fun batch_ents j => [Qnat (S (nth j batch_ents 0))]).
Definition ex_memory (i j : nat) : Q := 0%Q.
Definition ex_descriptions (batch_ents : list nat) : list nat := batch_ents.

End Linker.

(* ===================================================================== *)
(** * data/wikidata5m/fetch.py *)
(* ===================================================================== *)

Module Fetch.

(** Maximum number of entities allowed by Wiki APIs *)
Definition MAX_ENTITIES : positive := 50.

Definition newline : Ascii.ascii := "010"%char.
Definition nl : string := String newline EmptyString.

(** [s.replace('\n', ' ')] *)
Fixpoint replace_newlines (s : string) : string :=
  match s with
  | EmptyString => EmptyString
  | String c s' =>
      String (if Ascii.eqb c newline then " "%char else c) (replace_newlines s')
  end.

Fixpoint count_newlines (s : string) : nat :=
  match s with
  | EmptyString => 0
  | String c s' => (if Ascii.eqb c newline then 1 else 0) + count_newlines s'
  end.

(** [s.rstrip('\n')] *)
Fixpoint rstrip_newlines (s : string) : string :=
  match s with
  | EmptyString => EmptyString
  | String c s' =>
      match rstrip_newlines s' with
      | EmptyString => if Ascii.eqb c newline then EmptyString else String c EmptyString
      | rest => String c rest
      end
  end.

(** ** get_extracts_from_pages *)

(** A page of a Wikipedia API reply: ['title'] and, optionally,
    ['extract'] (['pageid'] and ['ns'] are not read). *)
Record page := MkPage { title : string; extract : option string }.

(** Lines 22-38.  [pages] maps page ids to pages; the loop visits it in
    the order of the reply, and a later page with the same title
    overwrites an earlier one. *)
Definition get_extracts_from_pages (pages : list (string * page)) : gmap string string :=
  foldl (fun extracts p =>
           match extract p.2 with
           | Some e => <[title p.2 := replace_newlines e]> extracts
           | None => extracts
           end) ∅ pages.

(** ** get_retry *)

(** What [requests.get] can raise. *)
Inductive exception :=
| ConnectionError
| OtherException (name : string).

(** How a call ends. *)
Inductive outcome (A : Type) :=
| Returned (a : A)
| Raised (e : exception).
Arguments Returned {A} a.
Arguments Raised {A} e.

(** What [get_retry] asks of its environment. *)
Variant netE (Response : Type) : Type -> Type :=
| RequestsGet (url : string) (params : list (string * string))
    : netE Response (outcome Response)
| Sleep (delay : nat) : netE Response unit.
Arguments RequestsGet {Response} url params.
Arguments Sleep {Response} delay.

(** Lines 41-49.  One round of [while True]: a response ends the loop,
    a connection error sleeps and goes round again, any other exception
    leaves the function. *)
Definition get_retry_body {Response : Type} (url : string)
    (params : list (string * string)) (delay : nat) (_ : unit)
    : itree (netE Response) (unit + outcome Response) :=
  ITree.bind (ITree.trigger (RequestsGet url params))
    (fun r =>
       match r with
       | Returned resp => Ret (inr (Returned resp))
       | Raised ConnectionError =>
           ITree.bind (ITree.trigger (Sleep delay)) (fun _ => Ret (inl tt))
       | Raised e => Ret (inr (Raised e))
       end).

Definition get_retry {Response : Type} (url : string)
    (params : list (string * string)) (delay : nat)
    : itree (netE Response) (outcome Response) :=
  ITree.iter (get_retry_body url params delay) tt.

(** A network for the statements: the outcome of the [k]-th request, the
    number of requests made so far and the seconds slept so far. *)
Record net := MkNet { requests_made : nat; slept : nat }.

Definition handle_net {Response : Type} (attempt : nat -> outcome Response)
    : netE Response ~> Monads.stateT net (itree void1) :=
  fun _ e s =>
    match e with
    | RequestsGet _ _ =>
        Ret (MkNet (S (requests_made s)) (slept s), attempt (requests_made s))
    | Sleep d => Ret (MkNet (requests_made s) (slept s + d), tt)
    end.

(** ** retrieve_pages *)

(** An entity of a Wikidata reply: whether it has the key ['missing'],
    and its ['sitelinks'] (site to page title) when it has that key. *)
Record ent_data := MkEntData {
  missing : bool;
  sitelinks : option (gmap string string)
}.

(** The ['query'] object of a Wikipedia reply: its ['pages'], in the
    order of the reply, and its ['redirects'] (pairs from, to) when it has
    that key. *)
Record wp_query := MkQuery {
  pages : list (string * page);
  redirects : option (list (string * string))
}.

Inductive status := Done | KeyError | Diverges.

(** The two output files, as the sequence of strings written to each, and
    the two counters. *)
Record files := MkFiles {
  out_file : list string;
  no_wifi_file : list string;
  fetched_count : nat;
  no_wiki_count : nat
}.

Section RetrievePages.

(** What the continuation parameters of a reply are. *)
Variable Cont : Type.

(** A Wikipedia reply: [query] is its ['query'] object when it has one
    with ['pages'] (the code reads both keys in one expression, and a
    reply without either raises KeyError there); [continue] is its
    ['continue'] object when it has one. *)
Record wp_reply := MkReply {
  query : option wp_query;
  continue : option Cont
}.

(** The servers: the ['entities'] object of Wikidata's reply to a request
    for [ids] (the reply [get_retry] ends up with), and Wikipedia's reply
    to a request for [titles], first or continued. *)
Variable wikidata : string -> option (gmap string ent_data).
Variable wikipedia : string -> option Cont -> wp_reply.

Definition write_no_wiki (e : string) (st : files) : files :=
  MkFiles (out_file st) (no_wifi_file st ++ [e +:+ nl])
    (fetched_count st) (S (no_wiki_count st)).

Definition write_description (entity title text : string) (st : files) : files :=
  MkFiles (out_file st ++ [entity +:+ " " +:+ title +:+ ": " +:+ text +:+ nl])
    (no_wifi_file st) (S (fetched_count st)) (no_wiki_count st).

(** Lines 80-88 *)
Fixpoint link_loop (to_fetch : list string) (link_data : gmap string ent_data)
    (ent_pages : list (string * string)) (st : files)
    : status * list (string * string) * files :=
  match to_fetch with
  | [] => (Done, ent_pages, st)
  | e :: rest =>
      match link_data !! e with
      | None => (KeyError, ent_pages, st)
      | Some d =>
          if missing d then link_loop rest link_data ent_pages (write_no_wiki e st)
          else
            match sitelinks d with
            | None => (KeyError, ent_pages, st)
            | Some links =>
                match links !! "enwiki" with
                | Some t => link_loop rest link_data (ent_pages ++ [(e, t)]) st
                | None => link_loop rest link_data ent_pages (write_no_wiki e st)
                end
            end
      end
  end.

(** Lines 105-109.  [extracts.update(d)]: the keys of [d] win. *)
Fixpoint continue_loop (fuel : nat) (titles_param : string) (text_data : wp_reply)
    (extracts : gmap string string) : status * gmap string string :=
  match continue text_data with
  | None => (Done, extracts)
  | Some c =>
      match fuel with
      | 0 => (Diverges, extracts)
      | S fuel' =>
          let text_data := wikipedia titles_param (Some c) in
          match query text_data with
          | None => (KeyError, extracts)
          | Some q =>
              continue_loop fuel' titles_param text_data
                (get_extracts_from_pages (pages q) ∪ extracts)
          end
      end
  end.

(** Lines 112-124 *)
Fixpoint save_loop (ent_pages : list (string * string))
    (redir_titles extracts : gmap string string) (st : files) : files :=
  match ent_pages with
  | [] => st
  | (entity, t) :: rest =>
      let t := match redir_titles !! t with Some t' => t' | None => t end in
      match extracts !! t with
      | Some text => save_loop rest redir_titles extracts (write_description entity t text st)
      | None => save_loop rest redir_titles extracts (write_no_wiki entity st)
      end
  end.

(** Lines 99-102 *)
Definition redirect_titles (redirects : option (list (string * string)))
    : gmap string string :=
  match redirects with
  | Some rs => foldl (fun m r => <[r.1 := r.2]> m) ∅ rs
  | None => ∅
  end.

(** Lines 71-124: one round of the loop over chunks of the entities. *)
Definition fetch_chunk (fuel : nat) (to_fetch : list string) (st : files)
    : status * files :=
  let ids_param := String.concat "|" to_fetch in
  match wikidata ids_param with
  | None => (KeyError, st)
  | Some link_data =>
      match link_loop to_fetch link_data [] st with
      | (Done, ent_pages, st) =>
          let titles := snd <$> ent_pages in
          let titles_param := String.concat "|" titles in
          let text_data := wikipedia titles_param None in
          match query text_data with
          | None => (KeyError, st)
          | Some q =>
              let extracts := get_extracts_from_pages (pages q) in
              let redir_titles := redirect_titles (redirects q) in
              match continue_loop fuel titles_param text_data extracts with
              | (Done, extracts) => (Done, save_loop ent_pages redir_titles extracts st)
              | (err, _) => (err, st)
              end
          end
      | (err, _, st) => (err, st)
      end
  end.

Fixpoint chunk_loop (fuel : nat) (chunks : list (list string)) (st : files)
    : status * files :=
  match chunks with
  | [] => (Done, st)
  | to_fetch :: rest =>
      match fetch_chunk fuel to_fetch st with
      | (Done, st) => chunk_loop fuel rest st
      | (err, st) => (err, st)
      end
  end.

(** Lines 52-129.  [lines] are the lines of the input file; [fuel] bounds
    the number of continuation requests per chunk. *)
Definition retrieve_pages (fuel : nat) (lines : list string) : status * files :=
  let entities := rstrip_newlines <$> lines in
  chunk_loop fuel (chunks MAX_ENTITIES entities) (MkFiles [] [] 0 0).

(** ** Reference definitions for the statements *)

(** Replies that let a run finish: Wikidata answers each of the requests
    with an entry for each id asked, each either missing or with site
    links; every Wikipedia reply has a query; and a chain of continuations
    ends within [fuel] requests. *)
Inductive chain_ends (titles_param : string) : nat -> wp_reply -> Prop :=
| chain_end fuel r : continue r = None -> chain_ends titles_param fuel r
| chain_next fuel r c :
    continue r = Some c ->
    is_Some (query (wikipedia titles_param (Some c))) ->
    chain_ends titles_param fuel (wikipedia titles_param (Some c)) ->
    chain_ends titles_param (S fuel) r.

Definition servers_answer (fuel : nat) (requests : list (list string)) : Prop :=
  (forall to_fetch : list string, to_fetch ∈ requests ->
     exists link_data,
       wikidata (String.concat "|" to_fetch) = Some link_data
       /\ forall e, e ∈ to_fetch ->
            exists d, link_data !! e = Some d
                      /\ (missing d = true \/ is_Some (sitelinks d)))
  /\ (forall titles_param,
        is_Some (query (wikipedia titles_param None))
        /\ chain_ends titles_param fuel (wikipedia titles_param None)).

End RetrievePages.

Arguments MkReply {Cont} query continue.
Arguments query {Cont} w.
Arguments continue {Cont} w.
Arguments continue_loop {Cont} wikipedia fuel titles_param text_data extracts.
Arguments fetch_chunk {Cont} wikidata wikipedia fuel to_fetch st.
Arguments chunk_loop {Cont} wikidata wikipedia fuel chunks st.
Arguments retrieve_pages {Cont} wikidata wikipedia fuel lines.
Arguments chain_ends {Cont} wikipedia titles_param _ _.
Arguments servers_answer {Cont} wikidata wikipedia fuel requests.

(** No value of the dictionary has a newline. *)
Definition newline_free_values (m : gmap string string) : Prop :=
  map_Forall (fun _ v => count_newlines v = 0) m.

(** A record of the descriptions file. *)
Definition description_line (r : string * string * string) : string :=
  r.1.1 +:+ " " +:+ r.1.2 +:+ ": " +:+ r.2 +:+ nl.

Definition no_wiki_line (e : string) : string := e +:+ nl.

(** The files hold exactly the records [recs] and the ids [absent], and
    the counters count them. *)
Definition files_hold (recs : list (string * string * string)) (absent : list string)
    (st : files) : Prop :=
  out_file st = description_line <$> recs
  /\ no_wifi_file st = no_wiki_line <$> absent
  /\ fetched_count st = length recs
  /\ no_wiki_count st = length absent
  /\ Forall (fun r => count_newlines r.2 = 0) recs.

(** Three entities: one with a page and an extract of two lines, one
    missing from Wikidata, one whose page has no extract. *)
Definition ex_lines : list string := ["Q1" +:+ nl; "Q2" +:+ nl; "Q3"].
Definition ex_wikidata (ids : string) : option (gmap string ent_data) :=
  Some (<["Q1" := MkEntData false (Some {["enwiki" := "One"]})]>
        (<["Q2" := MkEntData true None]>
         (<["Q3" := MkEntData false (Some {["enwiki" := "Three"]})]> ∅))).
Definition ex_wikipedia (titles : string) (c : option unit) : wp_reply unit :=
  match c with
  | None =>
      MkReply (Some (MkQuery [("11", MkPage "Three" None)] None)) (Some tt)
  | Some _ =>
      MkReply (Some (MkQuery [("10", MkPage "One" (Some ("first" +:+ nl +:+ "second")))]
                       None)) None
  end.

End Fetch.

(* ===================================================================== *)
(** * fetch.py: reference definitions for further statements *)
(* ===================================================================== *)

Module FetchExtra.
Import Fetch.

(** [k] newline characters. *)
Fixpoint newlines (k : nat) : string :=
  match k with
  | 0 => EmptyString
  | S k => String newline (newlines k)
  end.

(** The extract page [p] contributes under title [t]. *)
Definition extract_under (t : string) (p : string * page) : option string :=
  if decide (title p.2 = t) then extract p.2 else None.

(** One round of the loop of [get_extracts_from_pages]. *)
Definition extracts_step (extracts : gmap string string) (p : string * page)
    : gmap string string :=
  match extract p.2 with
  | Some e => <[title p.2 := replace_newlines e]> extracts
  | None => extracts
  end.

(** The target redirect [r] gives for title [t]. *)
Definition target_under (t : string) (r : string * string) : option string :=
  if decide (r.1 = t) then Some r.2 else None.

(** The ids the descriptions file has a record for. *)
Definition record_ids (recs : list (string * string * string)) : list string :=
  (fun r => r.1.1) <$> recs.

(** The files after a record was written for each of [recs], and after
    each id of [absent] was written to the other file. *)
Definition write_all_descriptions (recs : list (string * string * string))
    (st : files) : files :=
  MkFiles (out_file st ++ (description_line <$> recs)) (no_wifi_file st)
    (fetched_count st + length recs) (no_wiki_count st).

Definition write_all_no_wiki (absent : list string) (st : files) : files :=
  MkFiles (out_file st) (no_wifi_file st ++ (no_wiki_line <$> absent))
    (fetched_count st) (no_wiki_count st + length absent).

(** An entity of a Wikidata reply without an English Wikipedia page: it
    has the key ['missing'], or its site links have no ['enwiki']. *)
Definition no_enwiki (d : ent_data) : Prop :=
  missing d = true
  \/ exists links, sitelinks d = Some links /\ links !! "enwiki" = None.

(** The title Wikidata's reply gives for entity [e], if any. *)
Definition enwiki_title (link_data : gmap string ent_data) (e : string)
    : option string :=
  d ← link_data !! e;
  if missing d then None else links ← sitelinks d; links !! "enwiki".

(** A title after the redirects of the reply. *)
Definition redirected (redir_titles : gmap string string) (t : string) : string :=
  default t (redir_titles !! t).

(** The record entity [e] gets, if it gets one: its title after
    redirects and the extract found under that title. *)
Definition record_of (link_data : gmap string ent_data)
    (redir_titles extracts : gmap string string) (e : string)
    : option (string * string * string) :=
  t ← enwiki_title link_data e;
  text ← extracts !! redirected redir_titles t;
  Some (e, redirected redir_titles t, text).

(** The ids of a chunk that go to the other file, in the order they are
    written: first those without a title, then those whose title has no
    extract. *)
Definition chunk_absent (link_data : gmap string ent_data)
    (redir_titles extracts : gmap string string) (to_fetch : list string)
    : list string :=
  filter (fun e => enwiki_title link_data e = None) to_fetch
  ++ filter (fun e => is_Some (enwiki_title link_data e)
                      /\ record_of link_data redir_titles extracts e = None)
       to_fetch.

(** The titles asked of Wikipedia for a chunk. *)
Definition chunk_titles (link_data : gmap string ent_data) (to_fetch : list string)
    : list string :=
  omap (enwiki_title link_data) to_fetch.

(** The entity and title pairs of a chunk (its [ent_pages]). *)
Definition chunk_pages (link_data : gmap string ent_data) (to_fetch : list string)
    : list (string * string) :=
  omap (fun e => pair e <$> enwiki_title link_data e) to_fetch.

Section Continuation.

Context {Cont : Type}.
Variable wikipedia : string -> option Cont -> wp_reply Cont.

(** The pages of the replies to the continuation requests that follow
    reply [text_data], in the order of the replies. *)
Fixpoint continuation_pages (fuel : nat) (titles_param : string)
    (text_data : wp_reply Cont) : list (string * page) :=
  match continue text_data, fuel with
  | Some c, S fuel' =>
      match query (wikipedia titles_param (Some c)) with
      | Some q =>
          pages q
          ++ continuation_pages fuel' titles_param (wikipedia titles_param (Some c))
      | None => []
      end
  | _, _ => []
  end.

(** The extracts of a chunk whose first reply has the query [q]. *)
Definition chunk_extracts (fuel : nat) (titles_param : string) (q : wp_query)
    : gmap string string :=
  get_extracts_from_pages
    (pages q
       ++ continuation_pages fuel titles_param (wikipedia titles_param None)).

End Continuation.

Section Replies.

Context {Cont : Type}.
Variable wikidata : string -> option (gmap string ent_data).
Variable wikipedia : string -> option Cont -> wp_reply Cont.

(** What the replies say about a chunk: Wikidata's link data, the
    redirects of Wikipedia's first reply, and the extracts of all
    its replies; nothing when a first reply lacks what the code reads. *)
Definition chunk_data (fuel : nat) (to_fetch : list string)
    : option (gmap string ent_data * gmap string string * gmap string string) :=
  link_data ← wikidata (String.concat "|" to_fetch);
  q ← query (wikipedia (String.concat "|" (chunk_titles link_data to_fetch)) None);
  Some (link_data, redirect_titles (redirects q),
        chunk_extracts wikipedia fuel
          (String.concat "|" (chunk_titles link_data to_fetch)) q).

(** The records and the ids without a page that these replies give for
    the entities of the chunk. *)
Definition chunk_records (fuel : nat) (to_fetch : list string)
    : list (string * string * string) :=
  match chunk_data fuel to_fetch with
  | Some (link_data, redir_titles, extracts) =>
      omap (record_of link_data redir_titles extracts) to_fetch
  | None => []
  end.

Definition chunk_no_wiki (fuel : nat) (to_fetch : list string) : list string :=
  match chunk_data fuel to_fetch with
  | Some (link_data, redir_titles, extracts) =>
      chunk_absent link_data redir_titles extracts to_fetch
  | None => []
  end.

(** A request of the run: to Wikidata for ids, or to Wikipedia for
    titles, first ([None]) or continued. *)
Inductive request :=
| AskWikidata (ids : string)
| AskWikipedia (titles : string) (c : option Cont).

(** Lines 105-109, with the requests made recorded in [log]. *)
Fixpoint continue_loop_log (fuel : nat) (titles_param : string)
    (text_data : wp_reply Cont) (extracts : gmap string string)
    (log : list request) : status * gmap string string * list request :=
  match continue text_data with
  | None => (Done, extracts, log)
  | Some c =>
      match fuel with
      | 0 => (Diverges, extracts, log)
      | S fuel' =>
          let log := log ++ [AskWikipedia titles_param (Some c)] in
          let text_data := wikipedia titles_param (Some c) in
          match query text_data with
          | None => (KeyError, extracts, log)
          | Some q =>
              continue_loop_log fuel' titles_param text_data
                (get_extracts_from_pages (pages q) ∪ extracts) log
          end
      end
  end.

(** Lines 71-124, with the requests made recorded in [log]. *)
Definition fetch_chunk_log (fuel : nat) (to_fetch : list string) (st : files)
    (log : list request) : status * files * list request :=
  let ids_param := String.concat "|" to_fetch in
  let log := log ++ [AskWikidata ids_param] in
  match wikidata ids_param with
  | None => (KeyError, st, log)
  | Some link_data =>
      match link_loop to_fetch link_data [] st with
      | (Done, ent_pages, st) =>
          let titles := snd <$> ent_pages in
          let titles_param := String.concat "|" titles in
          let log := log ++ [AskWikipedia titles_param None] in
          let text_data := wikipedia titles_param None in
          match query text_data with
          | None => (KeyError, st, log)
          | Some q =>
              let extracts := get_extracts_from_pages (pages q) in
              let redir_titles := redirect_titles (redirects q) in
              match continue_loop_log fuel titles_param text_data extracts log with
              | (Done, extracts, log) =>
                  (Done, save_loop ent_pages redir_titles extracts st, log)
              | (err, _, log) => (err, st, log)
              end
          end
      | (err, _, st) => (err, st, log)
      end
  end.

Fixpoint chunk_loop_log (fuel : nat) (chunks : list (list string)) (st : files)
    (log : list request) : status * files * list request :=
  match chunks with
  | [] => (Done, st, log)
  | to_fetch :: rest =>
      match fetch_chunk_log fuel to_fetch st log with
      | (Done, st, log) => chunk_loop_log fuel rest st log
      | (err, st, log) => (err, st, log)
      end
  end.

(** Lines 52-129, with the requests made recorded. *)
Definition retrieve_pages_log (fuel : nat) (lines : list string)
    : status * files * list request :=
  let entities := rstrip_newlines <$> lines in
  chunk_loop_log fuel (chunks MAX_ENTITIES entities) (MkFiles [] [] 0 0) [].

(** The [ids] parameters of the requests to Wikidata in a log. *)
Definition wikidata_requests (log : list request) : list string :=
  omap (fun r => match r with
                 | AskWikidata ids => Some ids
                 | AskWikipedia _ _ => None
                 end) log.

End Replies.

Arguments AskWikidata {Cont} ids.
Arguments AskWikipedia {Cont} titles c.
Arguments wikidata_requests {Cont} log.

(** Two entities in one chunk.  Wikidata knows Q1 under the title Uno,
    which Wikipedia redirects to One, and Q2 under Dos.  The first reply
    has the redirect and no extract; the continuation has both extracts,
    the one for One over two lines. *)
Definition ex_redirect_wikidata (ids : string) : option (gmap string ent_data) :=
  Some (<["Q1" := MkEntData false (Some {["enwiki" := "Uno"]})]>
        (<["Q2" := MkEntData false (Some {["enwiki" := "Dos"]})]> ∅)).
Definition ex_redirect_pages : list (string * page) :=
  [("1", MkPage "One" (Some ("first" +:+ nl +:+ "second")));
   ("2", MkPage "Dos" (Some "dos"))].
Definition ex_redirect_wikipedia (titles : string) (c : option unit)
    : wp_reply unit :=
  match c with
  | None =>
      MkReply (Some (MkQuery [("1", MkPage "One" None)] (Some [("Uno", "One")])))
        (Some tt)
  | Some _ => MkReply (Some (MkQuery ex_redirect_pages None)) None
  end.

(** The same pages from a Wikipedia that announces the redirect in the
    continuation instead of in the first reply, and from one that
    announces no redirect at all. *)
Definition ex_late_redirect_wikipedia (titles : string) (c : option unit)
    : wp_reply unit :=
  match c with
  | None => MkReply (Some (MkQuery [("1", MkPage "One" None)] None)) (Some tt)
  | Some _ =>
      MkReply (Some (MkQuery ex_redirect_pages (Some [("Uno", "One")]))) None
  end.
Definition ex_no_redirect_wikipedia (titles : string) (c : option unit)
    : wp_reply unit :=
  match c with
  | None => MkReply (Some (MkQuery [("1", MkPage "One" None)] None)) (Some tt)
  | Some _ => MkReply (Some (MkQuery ex_redirect_pages None)) None
  end.

(** Two entities Wikidata has no English page for, and a Wikipedia that
    answers a request without titles with a reply without ['query']. *)
Definition ex_no_pages_wikidata (ids : string) : option (gmap string ent_data) :=
  Some (<["Q7" := MkEntData true None]>
        (<["Q8" := MkEntData false (Some ∅)]> ∅)).
Definition ex_no_pages_wikipedia (titles : string) (c : option unit)
    : wp_reply unit :=
  if decide (titles = EmptyString) then MkReply None None
  else MkReply (Some (MkQuery [] None)) None.

(** A Wikidata that knows an answer for the ids Q7 and Q8 asked together
    and for nothing else. *)
Definition ex_strict_wikidata (ids : string) : option (gmap string ent_data) :=
  if decide (ids = "Q7|Q8") then ex_no_pages_wikidata ids else None.

(** Fifty-one lines: fifty times Q7, then Q9, which the Wikidata of this
    example has no answer for; its Wikipedia knows no page. *)
Definition ex_long_lines : list string :=
  replicate 50 ("Q7" +:+ nl) ++ ["Q9" +:+ nl].
Definition ex_long_wikidata (ids : string) : option (gmap string ent_data) :=
  if decide (ids = "Q9") then None else Some {["Q7" := MkEntData true None]}.
Definition ex_long_wikipedia (titles : string) (c : option unit) : wp_reply unit :=
  MkReply (Some (MkQuery [] None)) None.

End FetchExtra.

(* ===================================================================== *)
(** * fetch.py: the requests for the extracts of a chunk *)
(* ===================================================================== *)

Module FetchNet.
Import Fetch.

Definition WIKIPEDIA_BASE_URL : string :=
  "https://en.wikipedia.org/w/api.php?format=json&action=query&prop=extracts&exintro&explaintext&redirects=1".

(** The ['continue'] object of a reply: parameters of the next request. *)
Definition Cont : Type := list (string * string).

(** What [r.json()] gives for a response of Wikipedia. *)
Definition Response : Type := wp_reply Cont.

(** Lines 105-109: one round of [while 'continue' in text_data].  The
    request is made with [requests.get], not with [get_retry]: whatever
    it raises leaves the function, and so does the KeyError of a reply
    without ['query']. *)
Definition continuation_body (titles_param : string)
    (s : Response * gmap string string)
    : itree (netE Response)
        ((Response * gmap string string) + outcome (gmap string string)) :=
  match continue s.1 with
  | None => Ret (inr (Returned s.2))
  | Some c =>
      ITree.bind
        (ITree.trigger
           (RequestsGet WIKIPEDIA_BASE_URL (c ++ [("titles", titles_param)])))
        (fun r =>
           match r with
           | Returned text_data =>
               match query text_data with
               | Some q =>
                   Ret (inl (text_data,
                             get_extracts_from_pages (pages q) ∪ s.2))
               | None => Ret (inr (Raised (OtherException "KeyError")))
               end
           | Raised e => Ret (inr (Raised e))
           end)
  end.

(** Lines 95-109: the first request, with [get_retry] and its default
    delay of 5 seconds, then the continuation requests.  The result is
    the pair of [extracts] and [redir_titles]. *)
Definition fetch_extracts (titles_param : string)
    : itree (netE Response) (outcome (gmap string string * gmap string string)) :=
  ITree.bind (get_retry WIKIPEDIA_BASE_URL [("titles", titles_param)] 5)
    (fun r =>
       match r with
       | Returned text_data =>
           match query text_data with
           | Some q =>
               let extracts := get_extracts_from_pages (pages q) in
               let redir_titles := redirect_titles (redirects q) in
               ITree.bind
                 (ITree.iter (continuation_body titles_param) (text_data, extracts))
                 (fun o =>
                    match o with
                    | Returned extracts => Ret (Returned (extracts, redir_titles))
                    | Raised e => Ret (Raised e)
                    end)
           | None => Ret (Raised (OtherException "KeyError"))
           end
       | Raised e => Ret (Raised e)
       end).

(** A network on which the first request fails, the second is answered
    with a reply that asks for a continuation, and the third fails. *)
Definition ex_first_reply : Response :=
  MkReply (Some (MkQuery [("1", MkPage "One" (Some "one"))] None))
    (Some [("excontinue", "1")]).
Definition ex_attempts (k : nat) : outcome Response :=
  match k with
  | 1 => Returned ex_first_reply
  | _ => Raised ConnectionError
  end.

(** The replies [rs] answer the requests from number [k] on: each has a
    ['query'], and each but the last asks for a continuation, as does
    [text_data], the reply before them, unless there is none. *)
Fixpoint answered (attempt : nat -> outcome Response) (k : nat)
    (text_data : Response) (rs : list Response) : Prop :=
  match rs with
  | [] => continue text_data = None
  | r :: rs' =>
      is_Some (continue text_data)
      /\ attempt k = Returned r
      /\ is_Some (query r)
      /\ answered attempt (S k) r rs'
  end.

Definition pages_of (r : Response) : list (string * page) :=
  match query r with
  | Some q => pages q
  | None => []
  end.

(** A network on which the first request fails and the next two are
    answered, the last reply asking for no continuation. *)
Definition ex_last_reply : Response :=
  MkReply (Some (MkQuery [("2", MkPage "Two" (Some ("two" +:+ nl +:+ "lines")))]
                   None)) None.
Definition ex_attempts_answered (k : nat) : outcome Response :=
  match k with
  | 1 => Returned ex_first_reply
  | 2 => Returned ex_last_reply
  | _ => Raised ConnectionError
  end.

End FetchNet.

(* ===================================================================== *)
(** * train.py: link_prediction *)
(* ===================================================================== *)

Module LinkPrediction.
Import Train.

Section Run.

Variable Θ : Type.
Variable Tok : Type.
(** A training batch: what [dataset.negative_sampling] makes of the
    triples of one step. *)
Variable Data : Type.
(** The state of the Adam optimizer, and gradients. *)
Variable Opt : Type.
Variable G : Type.

Variable ent_emb_fwd : Θ -> Tok -> nat -> Vec.
Variable energy_eval : Θ -> option (list Vec) -> nat -> nat -> nat -> Q.
Variable utils_hit_at_k : list (list Q) -> list nat -> nat -> Q.
Variable utils_mrr : list (list Q) -> list nat -> Q.

(** The loss the model's forward pass gives for a batch, and what
    [loss.backward()] leaves in the gradients after
    [optimizer.zero_grad()]. *)
Variable forward_loss : Θ -> Data -> Q.
Variable loss_grad : Θ -> Data -> G.
(** [optimizer.step()] under the learning rate that the linear schedule
    over [total_steps] steps (with its warm-up of a fifth of them) gives
    after [k] calls of [scheduler.step()]. *)
Variable optimizer_step : forall (total_steps k : nat), Opt -> Θ -> G -> Opt * Θ.
(** The order in which the shuffling loader yields the triples in a
    given epoch, and the batch the collate function makes at a given
    epoch and step. *)
Variable shuffle : nat -> list triple -> list triple.
Variable negative_sampling : nat -> nat -> list triple -> Data.

(** The three files of triples and the descriptions they share
    ([text_data=dataset.text_data]). *)
Record splits := Splits {
  train_triples : list triple;
  valid_triples : list triple;
  test_triples : list triple;
  descriptions : list nat -> Tok
}.

(** Lines 93-104.  The loaders are taken as built: what the
    constructors of the datasets and loaders check is not modelled. *)
Definition train_eval_loader (sp : splits) : DataLoader Tok :=
  MkLoader (MkDataset (train_triples sp) (Some (descriptions sp))) 128.
Definition valid_loader (sp : splits) : DataLoader Tok :=
  MkLoader (MkDataset (valid_triples sp) (Some (descriptions sp))) 128.
Definition test_loader (sp : splits) : DataLoader Tok :=
  MkLoader (MkDataset (test_triples sp) (Some (descriptions sp))) 128.

(** [len(train_loader)], for a batch size of 32, and the batches of one
    pass over [train_loader]. *)
Definition len_train_loader (sp : splits) : nat :=
  length (chunks 32 (train_triples sp)).
Definition train_batches (sp : splits) (epoch : nat) : list Data :=
  imap (negative_sampling epoch) (chunks 32 (shuffle epoch (train_triples sp))).

(** The run: the ambient state of the evaluator, the optimizer, the
    number of scheduler steps taken, and the values logged as
    [batch_loss] (these are logged without a step).  The graph of a
    training step is freed by its backward pass and is not recorded. *)
Record run_state := RunState {
  rs_world : world Θ;
  rs_optimizer : Opt;
  rs_scheduler : nat;
  rs_batch_loss : list Q
}.

Definition with_world (w : world Θ) (s : run_state) : run_state :=
  RunState w (rs_optimizer s) (rs_scheduler s) (rs_batch_loss s).

(** Lines 123-135: one step.  The accumulator is the state and
    [train_loss]. *)
Definition train_step (total_steps step : nat) (data : Data)
    (acc : run_state * Q) : run_state * Q :=
  let '(s, train_loss) := acc in
  let w := rs_world s in
  let loss := forward_loss (params w) data in
  let '(opt, θ) :=
    optimizer_step total_steps (rs_scheduler s) (rs_optimizer s) (params w)
      (loss_grad (params w) data) in
  (RunState (World θ (grad_enabled w) (graph w) (scalars w) (trace w)) opt
     (S (rs_scheduler s))
     (if step mod 200 =? 0 then rs_batch_loss s ++ [loss] else rs_batch_loss s),
   (train_loss + loss)%Q).

(** Lines 122-135: the loop over [enumerate(train_loader)]. *)
Fixpoint train_loop (total_steps step : nat) (batches : list Data)
    (acc : run_state * Q) : run_state * Q :=
  match batches with
  | [] => acc
  | data :: rest =>
      train_loop total_steps (S step) rest (train_step total_steps step data acc)
  end.

(** Lines 121-144: one epoch. *)
Definition run_epoch (sp : splits) (m : model) (total_steps epoch : nat)
    (s : run_state) : result unit * run_state :=
  let '(s1, train_loss) :=
    train_loop total_steps 0 (train_batches sp epoch) (s, 0%Q) in
  if len_train_loader sp =? 0 then (Raise ZeroDivisionError, s1)
  else
    let w1 := log_scalar "train_loss" (train_loss / Qnat (len_train_loader sp))
                epoch (rs_world s1) in
    match eval_link_prediction ent_emb_fwd energy_eval utils_hit_at_k utils_mrr
            m (train_eval_loader sp) epoch "train"
            (Some (length (batches (valid_loader sp)))) w1 with
    | (Ok _, w2) =>
        let '(r, w3) :=
          eval_link_prediction ent_emb_fwd energy_eval utils_hit_at_k utils_mrr
            m (valid_loader sp) epoch "valid" None w2 in
        (r, with_world w3 s1)
    | (Raise e, w2) => (Raise e, with_world w2 s1)
    end.

(** Line 120: the loop over [range(1, max_epochs + 1)]. *)
Fixpoint epoch_loop (sp : splits) (m : model) (total_steps : nat)
    (epochs : list nat) (s : run_state) : result unit * run_state :=
  match epochs with
  | [] => (Ok tt, s)
  | epoch :: rest =>
      match run_epoch sp m total_steps epoch s with
      | (Ok _, s') => epoch_loop sp m total_steps rest s'
      | (Raise e, s') => (Raise e, s')
      end
  end.

(** The state the run starts in: fresh parameters [θ0] and optimizer
    [opt0], grad mode on, nothing logged. *)
Definition initial (θ0 : Θ) (opt0 : Opt) : run_state :=
  RunState (World θ0 true [] [] []) opt0 0 [].

(** Lines 84-147 *)
Definition link_prediction (sp : splits) (m : model) (max_epochs : nat)
    (θ0 : Θ) (opt0 : Opt) : result unit * run_state :=
  let total_steps := len_train_loader sp * max_epochs in
  match epoch_loop sp m total_steps (seq 1 max_epochs) (initial θ0 opt0) with
  | (Ok _, s) =>
      let '(r, w) :=
        eval_link_prediction ent_emb_fwd energy_eval utils_hit_at_k utils_mrr
          m (test_loader sp) max_epochs "test" None (rs_world s) in
      (r, with_world w s)
  | (Raise e, s) => (Raise e, s)
  end.

(** ** Reference definitions for the statements *)

(** Training alone: the state after the steps of the given epochs, with
    no evaluation in between. *)
Definition train_epochs (sp : splits) (total_steps : nat) (epochs : list nat)
    (s : run_state) : run_state :=
  foldl (fun s epoch =>
           (train_loop total_steps 0 (train_batches sp epoch) (s, 0%Q)).1)
    s epochs.

End Run.

Arguments Splits {Tok} train_triples valid_triples test_triples descriptions.
Arguments train_triples {Tok} s.
Arguments valid_triples {Tok} s.
Arguments test_triples {Tok} s.
Arguments descriptions {Tok} s.
Arguments train_eval_loader {Tok} sp.
Arguments valid_loader {Tok} sp.
Arguments test_loader {Tok} sp.
Arguments len_train_loader {Tok} sp.
Arguments train_batches {Tok Data} shuffle negative_sampling sp epoch.
Arguments RunState {Θ Opt} rs_world rs_optimizer rs_scheduler rs_batch_loss.
Arguments rs_world {Θ Opt} r.
Arguments rs_optimizer {Θ Opt} r.
Arguments rs_scheduler {Θ Opt} r.
Arguments rs_batch_loss {Θ Opt} r.
Arguments with_world {Θ Opt} w s.
Arguments initial {Θ Opt} θ0 opt0.
Arguments train_step {Θ Data Opt G} forward_loss loss_grad optimizer_step
  total_steps step data acc.
Arguments train_loop {Θ Data Opt G} forward_loss loss_grad optimizer_step
  total_steps step batches acc.
Arguments run_epoch {Θ Tok Data Opt G} ent_emb_fwd energy_eval utils_hit_at_k
  utils_mrr forward_loss loss_grad optimizer_step shuffle negative_sampling
  sp m total_steps epoch s.
Arguments epoch_loop {Θ Tok Data Opt G} ent_emb_fwd energy_eval utils_hit_at_k
  utils_mrr forward_loss loss_grad optimizer_step shuffle negative_sampling
  sp m total_steps epochs s.
Arguments link_prediction {Θ Tok Data Opt G} ent_emb_fwd energy_eval
  utils_hit_at_k utils_mrr forward_loss loss_grad optimizer_step shuffle
  negative_sampling sp m max_epochs θ0 opt0.
Arguments train_epochs {Θ Tok Data Opt G} forward_loss loss_grad optimizer_step
  shuffle negative_sampling sp total_steps epochs s.

(** Two states of a run that agree in what training reads and writes:
    the parameters, the optimizer, the scheduler and the batch losses. *)
Definition same_training {Θ Opt} (s s' : run_state Θ Opt) : Prop :=
  params (rs_world s) = params (rs_world s')
  /\ rs_optimizer s = rs_optimizer s'
  /\ rs_scheduler s = rs_scheduler s'
  /\ rs_batch_loss s = rs_batch_loss s'.

(** The number of calls of the text encoder made so far. *)
Definition is_encoder_call (c : fwd) : bool :=
  match c with
  | FwdEntEmb _ => true
  | FwdEnergy _ _ _ => false
  end.

Definition encoder_calls {Θ} (w : world Θ) : nat :=
  length (List.filter is_encoder_call (trace w)).

(** The names and steps of the scalars one epoch logs with its two
    evaluations, and of those the test evaluation logs. *)
Definition epoch_scalars (epoch : nat) : list (string * nat) :=
  [("train_loss", epoch);
   ("train_valid_mrr", epoch); ("train_valid_hits@10", epoch);
   ("valid_valid_mrr", epoch); ("valid_valid_hits@10", epoch)].

Definition test_scalars (max_epochs : nat) : list (string * nat) :=
  [("test_valid_mrr", max_epochs); ("test_valid_hits@10", max_epochs)].

Definition scalar_names {Θ} (w : world Θ) : list (string * nat) :=
  (fun x => (x.1.1, x.2)) <$> scalars w.

(** A run with numbers: the parameter counts the triples trained on,
    the optimizer its steps; the loss of a batch is its size; the loader
    yields the triples in reverse. *)
Definition ex_train : list triple := replicate 40 (Triple 0 0 0).
Definition ex_splits : splits unit :=
  Splits ex_train [Triple 0 0 0] [Triple 11 11 0] (fun _ => tt).
Definition ex_empty_valid : splits unit :=
  Splits ex_train [] [Triple 11 11 0] (fun _ => tt).
Definition ex_run_ent_emb (_ : nat) (_ : unit) (j : nat) : Vec := [Qnat j].
Definition ex_run_energy (_ : nat) (_ : option (list Vec)) (h t r : nat) : Q :=
  Qnat (h + t).
Definition ex_forward_loss (_ : nat) (data : list triple) : Q := Qnat (length data).
Definition ex_loss_grad (_ : nat) (data : list triple) : nat := length data.
Definition ex_optimizer_step (_ _ : nat) (opt θ g : nat) : nat * nat :=
  (S opt, θ + g).
Definition ex_shuffle (_ : nat) (l : list triple) : list triple := rev l.
Definition ex_negative_sampling (_ _ : nat) (batch : list triple) : list triple :=
  batch.
Definition ex_link_prediction (sp : splits unit) (max_epochs : nat)
    : result unit * run_state nat nat :=
  link_prediction ex_run_ent_emb ex_run_energy Utils.hit_at_k Utils.mrr
    ex_forward_loss ex_loss_grad ex_optimizer_step ex_shuffle ex_negative_sampling
    sp TrainExamples.ex_model max_epochs 0 0.

End LinkPrediction.

(* ===================================================================== *)
(** * Facts about sums and batching *)
(* ===================================================================== *)

Lemma Qnat_plus a b : (Qnat (a + b) == Qnat a + Qnat b)%Q.
Proof. unfold Qnat. rewrite Nat2Z.inj_add, inject_Z_plus. reflexivity. Qed.

Lemma Qnat_mult a b : (Qnat (a * b) == Qnat a * Qnat b)%Q.
Proof. unfold Qnat. rewrite Nat2Z.inj_mul, inject_Z_mult. reflexivity. Qed.

Lemma Qnat_nonzero a : a <> 0 -> ~ (Qnat a == 0)%Q.
Proof.
  intros Ha H. unfold Qnat, Qeq in H. simpl in H. lia.
Qed.

Lemma qsum_nil : qsum [] = 0%Q.
Proof. reflexivity. Qed.

Lemma qsum_cons x l : qsum (x :: l) = (x + qsum l)%Q.
Proof. reflexivity. Qed.

Lemma qsum_app l1 l2 : (qsum (l1 ++ l2) == qsum l1 + qsum l2)%Q.
Proof.
  induction l1 as [|x l1 IH].
  - rewrite app_nil_l, qsum_nil. ring.
  - rewrite <- app_comm_cons, !qsum_cons, IH. ring.
Qed.

Lemma qsum_fmap_plus {A} (f g : A -> Q) (l : list A) :
  (qsum (f <$> l) + qsum (g <$> l) == qsum ((fun x => f x + g x) <$> l))%Q.
Proof.
  induction l as [|x l IH].
  - rewrite !fmap_nil, qsum_nil. ring.
  - rewrite !fmap_cons, !qsum_cons, <- IH. ring.
Qed.

Lemma qsum_fmap_concat {A} (f : A -> Q) (ls : list (list A)) :
  (qsum (f <$> concat ls) == qsum ((fun l => qsum (f <$> l)) <$> ls))%Q.
Proof.
  induction ls as [|l ls IH].
  - reflexivity.
  - rewrite fmap_cons, qsum_cons, <- IH.
    cbn [concat]. rewrite fmap_app, qsum_app. reflexivity.
Qed.

Lemma qsum_fmap_div {A} (f : A -> Q) (c : Q) (l : list A) :
  (qsum ((fun x => f x / c) <$> l) == qsum (f <$> l) / c)%Q.
Proof.
  induction l as [|x l IH].
  - rewrite !fmap_nil, qsum_nil. unfold Qdiv. ring.
  - rewrite !fmap_cons, !qsum_cons, IH. unfold Qdiv. ring.
Qed.

Lemma qsum_fmap_ext {A} (f g : A -> Q) (l : list A) :
  (forall x, x ∈ l -> (f x == g x)%Q) ->
  (qsum (f <$> l) == qsum (g <$> l))%Q.
Proof.
  induction l as [|x l IH]; intros H.
  - reflexivity.
  - rewrite !fmap_cons, !qsum_cons. rewrite (H x) by left. rewrite IH; [reflexivity|].
    intros y Hy. apply H. by right.
Qed.

Lemma qsum_fmap_perm {A} (f : A -> Q) (l l' : list A) :
  l ≡ₚ l' -> (qsum (f <$> l) == qsum (f <$> l'))%Q.
Proof.
  induction 1 as [|x l l' _ IH|x y l|l l' l'' _ IH1 _ IH2].
  - reflexivity.
  - rewrite !fmap_cons, !qsum_cons, IH. reflexivity.
  - rewrite !fmap_cons, !qsum_cons. ring.
  - rewrite IH1. exact IH2.
Qed.

Lemma chunks_concat {A} (n : positive) (l : list A) : concat (chunks n l) = l.
Proof.
  funelim (chunks n l); simp chunks; [reflexivity|].
  cbn [concat]. rewrite H. apply take_drop.
Qed.

Lemma chunks_nil_inv {A} (n : positive) (l : list A) : chunks n l = [] -> l = [].
Proof. intros H. rewrite <- (chunks_concat n l), H. reflexivity. Qed.

Lemma chunks_full {A} (n : positive) (l : list A) (k : nat) :
  length l = k * Pos.to_nat n ->
  length (chunks n l) = k /\ Forall (fun c => length c = Pos.to_nat n) (chunks n l).
Proof.
  revert k. funelim (chunks n l); intros k Hk; simp chunks.
  - simpl in Hk. destruct k; [split; [reflexivity|constructor]|lia].
  - destruct k as [|k]; [simpl in Hk; lia|].
    destruct (H k) as [IH1 IH2].
    { rewrite length_drop. lia. }
    split; [simpl; lia|].
    constructor; [|exact IH2].
    rewrite length_take. lia.
Qed.

Lemma chunks_lookup {A} (n : positive) (l : list A) k c :
  chunks n l !! k = Some c ->
  c = take (Pos.to_nat n) (drop (k * Pos.to_nat n) l)
  /\ k * Pos.to_nat n < length l.
Proof.
  revert k. funelim (chunks n l); intros k Hk; simp chunks in Hk.
  - by rewrite lookup_nil in Hk.
  - destruct k as [|k].
    + injection Hk as <-. cbn [Nat.mul drop length]. split; [done|lia].
    + cbn [lookup list_lookup] in Hk. destruct (H _ _ Hk) as [-> Hlt].
      rewrite drop_drop, length_drop in *.
      replace (S k * Pos.to_nat n) with (Pos.to_nat n + k * Pos.to_nat n) by lia.
      split; [done|lia].
Qed.

Lemma chunks_seq_lookup (n : positive) m k c :
  chunks n (seq 0 m) !! k = Some c ->
  c = seq (k * Pos.to_nat n) (Nat.min (Pos.to_nat n) (m - k * Pos.to_nat n))
  /\ k * Pos.to_nat n < m.
Proof.
  intros Hk. apply chunks_lookup in Hk as [-> Hlt].
  rewrite length_seq in Hlt. by rewrite drop_seq, take_seq.
Qed.

Lemma chunks_step {A} (n : positive) (l : list A) :
  l <> [] -> chunks n l = take (Pos.to_nat n) l :: chunks n (drop (Pos.to_nat n) l).
Proof. destruct l; [done|]. intros _. by simp chunks. Qed.

(* ===================================================================== *)
(** * The ranking evaluator *)
(* ===================================================================== *)

Module TrainFacts.
Import Train.

Section Facts.

Context {Θ Tok : Type}.
Variable ent_emb_fwd : Θ -> Tok -> nat -> Vec.
Variable energy_eval : Θ -> option (list Vec) -> nat -> nat -> nat -> Q.
Variable utils_hit_at_k : list (list Q) -> list nat -> nat -> Q.
Variable utils_mrr : list (list Q) -> list nat -> Q.

Lemma track_all_app cs cs' (w : world Θ) :
  track_all (cs ++ cs') w = track_all cs' (track_all cs w).
Proof. apply foldl_app. Qed.

Lemma track_all_fields cs (w : world Θ) :
  track_all cs w =
    World (params w) (grad_enabled w)
      (if grad_enabled w then graph w ++ cs else graph w)
      (scalars w) (trace w ++ cs).
Proof.
  revert w. induction cs as [|c cs IH]; intros w.
  - destruct w as [θ g gr sc tr]. cbn. destruct g; by rewrite !app_nil_r.
  - change (track_all (c :: cs) w) with (track_all cs (track c w)).
    rewrite IH. destruct w as [θ g gr sc tr]. cbn.
    destruct g; by rewrite <- ?app_assoc.
Qed.

Lemma slice_seq n idx k :
  slice (seq 0 n) idx (idx + k) = take k (seq idx (n - idx)).
Proof.
  unfold slice. rewrite drop_seq. do 2 f_equal. lia.
Qed.

Lemma cache_loop_run m descr bs all idx tbl ws (w : world Θ) :
  all = all_entities m ->
  length tbl = num_entities m ->
  exists rs,
    cache_loop ent_emb_fwd m descr bs all idx tbl ws w =
      (take idx tbl
         ++ concat (encode_chunk ent_emb_fwd (params w) descr
                      <$> chunks bs (seq idx (num_entities m - idx))),
       ws ++ rs,
       track_all (FwdEntEmb <$> chunks bs (seq idx (num_entities m - idx))) w)
    /\ tiling (Pos.to_nat bs) (num_entities m) idx rs.
Proof.
  funelim (cache_loop ent_emb_fwd m descr bs all idx tbl ws w);
    intros Hall Hlen.
  - destruct H as (rs & Hrun & Htile); [done| |].
    { unfold slice_assign. rewrite Hall. unfold all_entities.
      rewrite slice_seq, !length_app, length_fmap, length_seq,
        !length_take, length_drop, length_seq. lia. }
    exists ((idx, Nat.min (idx + Pos.to_nat bs) (num_entities m)) :: rs).
    split; [|by constructor].
    rewrite Hrun. clear Hrun Heqcall.
    assert (Hne : seq idx (num_entities m - idx) <> []).
    { destruct (num_entities m - idx) eqn:E; [lia|done]. }
    rewrite (chunks_step bs _ Hne).
    rewrite Hall. unfold all_entities. rewrite slice_seq.
    set (c := take (Pos.to_nat bs) (seq idx (num_entities m - idx))).
    rewrite drop_seq.
    replace (num_entities m - idx - Pos.to_nat bs)
      with (num_entities m - (idx + Pos.to_nat bs)) by lia.
    rewrite !fmap_cons. cbn [concat track_all foldl]. fold (track_all (Θ:=Θ)).
    assert (Hc : length c = Nat.min (Pos.to_nat bs) (num_entities m - idx)).
    { unfold c. rewrite length_take, length_seq. done. }
    f_equal. f_equal; [|by rewrite <- app_assoc].
    unfold slice_assign. cbn [params track].
    change (ent_emb_fwd (params w) (descr c) <$> seq 0 (length c))
      with (encode_chunk ent_emb_fwd (params w) descr c).
    set (B := encode_chunk ent_emb_fwd (params w) descr c).
    assert (HB : length B = length c).
    { unfold B, encode_chunk. by rewrite length_fmap, length_seq. }
    assert (take (idx + Pos.to_nat bs)
              (take idx ent_emb ++ B ++ drop (idx + Pos.to_nat bs) ent_emb)
            = take idx ent_emb ++ B) as ->.
    { rewrite app_assoc, take_app.
      rewrite (take_ge (take idx ent_emb ++ B)).
      2:{ rewrite length_app, length_take. lia. }
      rewrite length_app, length_take, HB, Hc.
      destruct (decide (idx + Pos.to_nat bs <= num_entities m)).
      - replace (_ - _) with 0 by lia. by rewrite take_0, app_nil_r.
      - rewrite drop_ge by lia. by rewrite take_nil, app_nil_r. }
    by rewrite <- app_assoc.
  - exists []. split; [|constructor; lia].
    replace (num_entities m - idx) with 0 by lia. cbn [seq].
    simp chunks. cbn. rewrite take_ge by lia. by rewrite !app_nil_r.
Qed.

Lemma tiling_lookup bs n idx rs k a b :
  tiling bs n idx rs -> rs !! k = Some (a, b) ->
  a = idx + k * bs /\ b = Nat.min (a + bs) n /\ a < n.
Proof.
  intros Ht. revert k. induction Ht as [|idx rs Hlt Ht IH]; intros k Hk.
  - by rewrite lookup_nil in Hk.
  - destruct k as [|k]; cbn in Hk.
    + injection Hk as <- <-. lia.
    + destruct (IH _ Hk) as (-> & -> & ?). lia.
Qed.

Lemma tiling_rows bs n idx rs :
  0 < bs -> tiling bs n idx rs ->
  concat (rows_of <$> rs) = seq idx (n - idx).
Proof.
  intros Hbs. induction 1 as [|idx rs Hlt Ht IH].
  - by replace (n - idx) with 0 by lia.
  - rewrite fmap_cons. cbn [concat]. rewrite IH. unfold rows_of. cbn [fst snd].
    destruct (decide (idx + bs <= n)) as [Hle|Hgt].
    + replace (Nat.min (idx + bs) n - idx) with bs by lia.
      replace (n - idx) with (bs + (n - (idx + bs))) by lia.
      by rewrite seq_app.
    + replace (n - (idx + bs)) with 0 by lia.
      replace (Nat.min (idx + bs) n - idx) with (n - idx) by lia.
      apply app_nil_r.
Qed.

(** The loop, started at index [i] with [i] at most the cap. *)
Lemma eval_loop_run tbl all max i bs h0 r0 c0 (w : world Θ) :
  (forall n, max = Some n -> i <= n) ->
  let cons := match max with Some n => take (n - i) bs | None => bs end in
  exists hits mrr,
    eval_loop energy_eval utils_hit_at_k utils_mrr tbl all max i bs (h0, r0, c0) w =
      (hits, mrr, c0 + length cons,
       track_all (concat (batch_calls all <$> cons)) w)
    /\ (hits == h0 + qsum (batch_hits energy_eval utils_hit_at_k (params w) tbl all <$> cons))%Q
    /\ (mrr == r0 + qsum (batch_mrr energy_eval utils_mrr (params w) tbl all <$> cons))%Q.
Proof.
  revert i h0 r0 c0 w. induction bs as [|b bs IH]; intros i h0 r0 c0 w Hi cons.
  - exists h0, r0. subst cons. destruct max; rewrite ?take_nil; cbn;
      (split; [by rewrite Nat.add_0_r|split; ring]).
  - assert (Hstep : forall cons',
             (forall n, max = Some n -> S i <= n) ->
             cons' = match max with Some n => take (n - S i) bs | None => bs end ->
             exists hits mrr,
               eval_loop energy_eval utils_hit_at_k utils_mrr tbl all max (S i) bs
                 ((h0 + batch_hits energy_eval utils_hit_at_k (params w) tbl all b)%Q,
                  (r0 + batch_mrr energy_eval utils_mrr (params w) tbl all b)%Q, S c0)
                 (track_all (batch_calls all b) w) =
                 (hits, mrr, c0 + length (b :: cons'),
                  track_all (concat (batch_calls all <$> b :: cons')) w)
               /\ (hits == h0 + qsum (batch_hits energy_eval utils_hit_at_k (params w) tbl all
                                        <$> b :: cons'))%Q
               /\ (mrr == r0 + qsum (batch_mrr energy_eval utils_mrr (params w) tbl all
                                       <$> b :: cons'))%Q).
    { intros cons' Hi' ->.
      destruct (IH (S i) (h0 + batch_hits energy_eval utils_hit_at_k (params w) tbl all b)%Q
                  (r0 + batch_mrr energy_eval utils_mrr (params w) tbl all b)%Q (S c0)
                  (track_all (batch_calls all b) w) Hi')
        as (hits & mrr & Hrun & Hh & Hm).
      exists hits, mrr. rewrite Hrun. clear Hrun.
      rewrite track_all_fields in Hh, Hm. cbn [params] in Hh, Hm.
      rewrite fmap_cons. cbn [concat length]. rewrite track_all_app,
        !fmap_cons, !qsum_cons.
      split; [do 2 f_equal; lia|].
      split; [rewrite Hh|rewrite Hm]; ring. }
    cbn [eval_loop]. unfold stop_at.
    destruct max as [n|].
    + destruct (Nat.eqb_spec i n) as [->|Hne].
      * exists h0, r0. subst cons. rewrite Nat.sub_diag. cbn.
        split; [by rewrite Nat.add_0_r|split; ring].
      * specialize (Hi n eq_refl). subst cons.
        replace (n - i) with (S (n - S i)) by lia. cbn [take].
        apply Hstep; [|done]. intros n' [= <-]. lia.
    + subst cons. apply Hstep; done.
Qed.

(** A per-row sum over the rows scored for a set of triples, as a
    sum over the triples. *)
Lemma qsum_substitutions (f : list Q * nat -> Q) θ tbl all (l : list triple) :
  (qsum (f <$> zip (pred_ents energy_eval θ tbl all l) (true_ents l))
   == qsum (per_triple energy_eval f θ tbl all <$> l))%Q.
Proof.
  unfold pred_ents, true_ents, tails_predictions, heads_predictions.
  rewrite zip_with_app by (by rewrite !length_fmap).
  rewrite fmap_app, qsum_app.
  rewrite !zip_with_fmap_l, !zip_with_fmap_r, !zip_with_diag.
  rewrite <- !list_fmap_compose.
  rewrite qsum_fmap_plus. reflexivity.
Qed.

Lemma length_pred_ents θ tbl all (l : list triple) :
  length (pred_ents energy_eval θ tbl all l) = 2 * length l.
Proof.
  unfold pred_ents, tails_predictions, heads_predictions.
  rewrite length_app, !length_fmap. lia.
Qed.

Lemma length_true_ents (l : list triple) : length (true_ents l) = 2 * length l.
Proof. unfold true_ents. rewrite length_app, !length_fmap. lia. Qed.

(** The mean of the batch means is the overall mean when all batches
    have the same size. *)
Lemma mean_of_equal_batches (g : triple -> Q) (bs : list (list triple)) s :
  s <> 0 -> bs <> [] -> Forall (fun b => length b = s) bs ->
  (qsum ((fun b => qsum (g <$> b) / Qnat (2 * length b)) <$> bs)
     / Qnat (length bs)
   == qsum (g <$> concat bs) / Qnat (2 * length (concat bs)))%Q.
Proof.
  intros Hs Hbs Hall.
  assert (Hlen : length (concat bs) = length bs * s).
  { clear Hbs. induction Hall as [|b bs Hb _ IH]; [done|].
    cbn [concat length]. rewrite length_app, IH, Hb. lia. }
  rewrite (qsum_fmap_ext _ (fun b => qsum (g <$> b) / Qnat (2 * s))%Q).
  2:{ intros b Hb. rewrite Forall_forall in Hall. by rewrite (Hall b Hb). }
  rewrite (qsum_fmap_div (fun b => qsum (g <$> b))), <- qsum_fmap_concat.
  rewrite Hlen, !Qnat_mult.
  assert (Hk : length bs <> 0) by (by destruct bs).
  pose proof (Qnat_nonzero _ Hs). pose proof (Qnat_nonzero _ Hk).
  assert (~ (Qnat 2 == 0)%Q) by (by apply Qnat_nonzero).
  field. repeat split; assumption.
Qed.

Lemma build_ent_emb_run m (loader : DataLoader Tok) (w : world Θ) :
  exists writes,
    build_ent_emb ent_emb_fwd m loader w =
      (ent_emb_table ent_emb_fwd (params w) m loader, writes,
       track_all (cache_calls m loader) w)
    /\ match text_data (dataset loader) with
       | Some _ => tiling (Pos.to_nat (batch_size loader)) (num_entities m) 0 writes
       | None => writes = []
       end.
Proof.
  unfold build_ent_emb, ent_emb_table, cache_calls.
  destruct (text_data (dataset loader)) as [descr|]; [|by exists []].
  destruct (cache_loop_run m descr (batch_size loader) (all_entities m) 0
              (zeros (num_entities m) (dim m)) [] w eq_refl)
    as (rs & Hrun & Htile).
  { unfold zeros. by rewrite length_replicate. }
  exists rs. rewrite Hrun. rewrite Nat.sub_0_r, take_0, !app_nil_l.
  split; done.
Qed.

(** What a call does, in one statement: either no batch was consumed
    and the division raises, or the two means over the consumed
    batches are logged.  Apart from the log and the record of calls
    the state is as before. *)
Lemma eval_link_prediction_run m (loader : DataLoader Tok) epoch prefix max
    (w : world Θ) :
  let cons := consumed max (batches loader) in
  let tbl := ent_emb_table ent_emb_fwd (params w) m loader in
  let all := all_entities m in
  let w' := World (params w) (grad_enabled w) (graph w) (scalars w)
              (trace w ++ cache_calls m loader
                 ++ concat (batch_calls all <$> cons)) in
  (cons = [] /\
   eval_link_prediction ent_emb_fwd energy_eval utils_hit_at_k utils_mrr m loader epoch prefix max w
   = (Raise ZeroDivisionError, w'))
  \/
  (cons <> [] /\
   exists hits mrr,
     eval_link_prediction ent_emb_fwd energy_eval utils_hit_at_k utils_mrr m loader epoch prefix max w
     = (Ok tt,
        log_scalar (prefix +:+ "_valid_hits@10") hits epoch
          (log_scalar (prefix +:+ "_valid_mrr") mrr epoch w'))
     /\ (hits == qsum (batch_hits energy_eval utils_hit_at_k (params w) tbl all <$> cons)
                   / Qnat (length cons))%Q
     /\ (mrr == qsum (batch_mrr energy_eval utils_mrr (params w) tbl all <$> cons)
                  / Qnat (length cons))%Q).
Proof.
  intros cons tbl all w'.
  unfold eval_link_prediction, no_grad.
  destruct (build_ent_emb_run m loader (set_grad false w)) as (ws & -> & _).
  destruct (eval_loop_run (ent_emb_table ent_emb_fwd (params (set_grad false w)) m loader)
              (all_entities m) max 0 (batches loader) 0%Q 0%Q 0
              (track_all (cache_calls m loader) (set_grad false w)))
    as (hits & mrr & -> & Hh & Hm); [lia|].
  assert (Hcons : match max with
                  | Some n => take (n - 0) (batches loader)
                  | None => batches loader
                  end = cons).
  { unfold cons, consumed. destruct max; by rewrite ?Nat.sub_0_r. }
  rewrite Hcons in *. rewrite !track_all_fields in *. cbn [params set_grad] in *.
  fold tbl all in Hh, Hm. fold all.
  cbn [grad_enabled graph scalars trace set_grad Nat.add].
  destruct cons as [|b cons'] eqn:E.
  - left. split; [done|]. cbn. unfold w', set_grad. cbn.
    by rewrite <- app_assoc.
  - right. split; [done|].
    cbn [length Nat.eqb].
    eexists _, _. split; [|split].
    + unfold log_scalar, set_grad, w'. cbn. by rewrite <- !app_assoc.
    + rewrite Hh. unfold Qdiv. cbn [length]. ring.
    + rewrite Hm. unfold Qdiv. cbn [length]. ring.
Qed.

End Facts.

(** ** With the helpers as the design document describes them *)

Section SpecHelpers.

Context {Θ Tok : Type}.
Variable ent_emb_fwd : Θ -> Tok -> nat -> Vec.
Variable energy_eval : Θ -> option (list Vec) -> nat -> nat -> nat -> Q.

Lemma batch_hits_per_triple θ tbl all (b : list triple) :
  (batch_hits energy_eval Utils.hit_at_k θ tbl all b
   == qsum (per_triple energy_eval (Utils.hit 10) θ tbl all <$> b)
        / Qnat (2 * length b))%Q.
Proof.
  unfold batch_hits, Utils.hit_at_k.
  by rewrite qsum_substitutions, length_pred_ents.
Qed.

Lemma batch_mrr_per_triple θ tbl all (b : list triple) :
  (batch_mrr energy_eval Utils.mrr θ tbl all b
   == qsum (per_triple energy_eval Utils.reciprocal_rank θ tbl all <$> b)
        / Qnat (2 * length b))%Q.
Proof.
  unfold batch_mrr, Utils.mrr.
  by rewrite qsum_substitutions, length_pred_ents.
Qed.

Lemma hits_spec_per_triple θ tbl all (l : list triple) :
  (hits_at_10_spec energy_eval θ tbl all l
   == qsum (per_triple energy_eval (Utils.hit 10) θ tbl all <$> l)
        / Qnat (2 * length l))%Q.
Proof. apply batch_hits_per_triple. Qed.

Lemma mrr_spec_per_triple θ tbl all (l : list triple) :
  (mrr_spec energy_eval θ tbl all l
   == qsum (per_triple energy_eval Utils.reciprocal_rank θ tbl all <$> l)
        / Qnat (2 * length l))%Q.
Proof. apply batch_mrr_per_triple. Qed.

Lemma batches_nonempty (loader : DataLoader Tok) :
  triples (dataset loader) <> [] -> batches loader <> [].
Proof. intros Hne Hb. by apply Hne, (chunks_nil_inv (batch_size loader)). Qed.

(** With full batches only, the mean over batches is the mean over
    substitutions. *)
Lemma exact_when_batches_full hk mr m (loader : DataLoader Tok) epoch prefix
    (w : world Θ) :
  helpers_as_specified hk mr ->
  triples (dataset loader) <> [] ->
  (Pos.to_nat (batch_size loader) | length (triples (dataset loader))) ->
  reports_exact_metrics ent_emb_fwd energy_eval hk mr m loader epoch prefix None w.
Proof.
  intros [Hhk Hmr] Hne [k Hk].
  destruct (eval_link_prediction_run ent_emb_fwd energy_eval hk mr
              m loader epoch prefix None w)
    as [[Hnil _]|(_ & hits & mrr & Hrun & Hh & Hm)].
  { by destruct (batches_nonempty loader Hne). }
  cbn [consumed] in Hh, Hm.
  destruct (chunks_full (batch_size loader) (triples (dataset loader)) k Hk)
    as [_ Hfull]. fold (batches loader) in Hfull.
  pose proof (batches_nonempty loader Hne) as Hb.
  assert (Hs : Pos.to_nat (batch_size loader) <> 0) by lia.
  exists hits, mrr. split; [|split].
  - rewrite Hrun. split; [done|]. cbn. by rewrite <- app_assoc.
  - rewrite Hh.
    rewrite (qsum_fmap_ext _
               (fun b => qsum (per_triple energy_eval (Utils.hit 10) (params w)
                                 (ent_emb_table ent_emb_fwd (params w) m loader)
                                 (all_entities m) <$> b) / Qnat (2 * length b))%Q).
    2:{ intros b _. unfold batch_hits. rewrite Hhk. apply batch_hits_per_triple. }
    rewrite (mean_of_equal_batches _ _ _ Hs Hb Hfull).
    unfold batches. rewrite chunks_concat.
    by rewrite hits_spec_per_triple.
  - rewrite Hm.
    rewrite (qsum_fmap_ext _
               (fun b => qsum (per_triple energy_eval Utils.reciprocal_rank (params w)
                                 (ent_emb_table ent_emb_fwd (params w) m loader)
                                 (all_entities m) <$> b) / Qnat (2 * length b))%Q).
    2:{ intros b _. unfold batch_mrr. rewrite Hmr. apply batch_mrr_per_triple. }
    rewrite (mean_of_equal_batches _ _ _ Hs Hb Hfull).
    unfold batches. rewrite chunks_concat.
    by rewrite mrr_spec_per_triple.
Qed.

(** The per-substitution metrics do not depend on the order of the
    evaluation set. *)
Lemma spec_metrics_perm θ tbl all (l l' : list triple) :
  l ≡ₚ l' ->
  (hits_at_10_spec energy_eval θ tbl all l
   == hits_at_10_spec energy_eval θ tbl all l')%Q
  /\ (mrr_spec energy_eval θ tbl all l == mrr_spec energy_eval θ tbl all l')%Q.
Proof.
  intros Hp. rewrite !hits_spec_per_triple, !mrr_spec_per_triple.
  rewrite (Permutation_length Hp).
  by rewrite (qsum_fmap_perm _ _ _ Hp), (qsum_fmap_perm _ _ _ Hp).
Qed.

End SpecHelpers.

(** ** The claims about the evaluator *)

Section Claims.

Context {Θ Tok : Type}.
Variable ent_emb_fwd : Θ -> Tok -> nat -> Vec.
Variable energy_eval : Θ -> option (list Vec) -> nat -> nat -> nat -> Q.
Variable utils_hit_at_k : list (list Q) -> list nat -> nat -> Q.
Variable utils_mrr : list (list Q) -> list nat -> Q.

Lemma tiling_cover bs n idx rs x :
  tiling bs n idx rs -> idx <= x < n ->
  exists k r, rs !! k = Some r /\ x ∈ rows_of r.
Proof.
  intros Ht. induction Ht as [|idx rs Hlt Ht IH]; intros Hx; [lia|].
  destruct (decide (x < idx + bs)) as [Hin|Hout].
  - exists 0, (idx, Nat.min (idx + bs) n). split; [done|].
    unfold rows_of. cbn [fst snd]. apply elem_of_seq. lia.
  - destruct IH as (k & r & Hk & Hr); [lia|].
    by exists (S k), r.
Qed.

Lemma pred_ents_rows θ tbl all (b : list triple) i tr :
  b !! i = Some tr ->
  pred_ents energy_eval θ tbl all b !! i
    = Some (tail_row energy_eval θ tbl all tr)
  /\ true_ents b !! i = Some (tail tr)
  /\ pred_ents energy_eval θ tbl all b !! (length b + i)
      = Some (head_row energy_eval θ tbl all tr)
  /\ true_ents b !! (length b + i) = Some (head tr).
Proof.
  intros Hi. pose proof (lookup_lt_Some _ _ _ Hi) as Hlt.
  unfold pred_ents, true_ents, tails_predictions, heads_predictions.
  repeat split.
  - rewrite lookup_app_l by (by rewrite length_fmap).
    by rewrite list_lookup_fmap, Hi.
  - rewrite lookup_app_l by (by rewrite length_fmap).
    by rewrite list_lookup_fmap, Hi.
  - rewrite lookup_app_r by (rewrite length_fmap; lia).
    rewrite length_fmap, list_lookup_fmap.
    replace (length b + i - length b) with i by lia. by rewrite Hi.
  - rewrite lookup_app_r by (rewrite length_fmap; lia).
    rewrite length_fmap, list_lookup_fmap.
    replace (length b + i - length b) with i by lia. by rewrite Hi.
Qed.

(** C2.  Every triple of every batch the loop consumes (all batches, hence
    every triple of the evaluation set, when [max_num_batches] is [None])
    is scored twice against the whole entity range [0, num_entities): once
    with every entity as tail, once with every entity as head.  The two
    calls per batch appear in the record of forward calls; in the rows
    handed to the metric helpers the tail pass of the [i]-th triple is row
    [i], paired with its true tail, and its head pass is row
    [length batch + i], paired with its true head. *)
Theorem eval_scores_all_candidates m (loader : DataLoader Tok) epoch prefix max
    (w : world Θ) :
  let run := eval_link_prediction ent_emb_fwd energy_eval utils_hit_at_k utils_mrr
               m loader epoch prefix max w in
  let cons := consumed max (batches loader) in
  let all := seq 0 (num_entities m) in
  let tbl := ent_emb_table ent_emb_fwd (params w) m loader in
  trace run.2 = trace w ++ cache_calls m loader ++ concat (batch_calls all <$> cons)
  /\ (max = None -> concat cons = triples (dataset loader))
  /\ (forall b i tr, b ∈ cons -> b !! i = Some tr ->
        pred_ents energy_eval (params w) tbl all b !! i
          = Some ((fun e => energy_eval (params w) tbl (head tr) e (rel tr)) <$> all)
        /\ true_ents b !! i = Some (tail tr)
        /\ pred_ents energy_eval (params w) tbl all b !! (length b + i)
            = Some ((fun e => energy_eval (params w) tbl e (tail tr) (rel tr)) <$> all)
        /\ true_ents b !! (length b + i) = Some (head tr))
  /\ (cons = [] \/
      exists hits mrr,
        reported prefix epoch w run hits mrr
        /\ (hits == qsum ((fun b => utils_hit_at_k
                                      (pred_ents energy_eval (params w) tbl all b)
                                      (true_ents b) 10) <$> cons)
                      / Qnat (length cons))%Q
        /\ (mrr == qsum ((fun b => utils_mrr
                                     (pred_ents energy_eval (params w) tbl all b)
                                     (true_ents b)) <$> cons)
                     / Qnat (length cons))%Q).
Proof.
  intros run cons all tbl.
  destruct (eval_link_prediction_run ent_emb_fwd energy_eval utils_hit_at_k
              utils_mrr m loader epoch prefix max w)
    as [[Hnil Hrun]|(Hne & hits & mrr & Hrun & Hh & Hm)];
    fold cons in Hnil || fold cons in Hne.
  - split; [|split; [|split]].
    + unfold run. by rewrite Hrun.
    + intros ->. apply chunks_concat.
    + intros b i tr Hb. rewrite Hnil in Hb. by apply elem_of_nil in Hb.
    + by left.
  - split; [|split; [|split]].
    + unfold run. by rewrite Hrun.
    + intros ->. apply chunks_concat.
    + intros b i tr _ Hi. by apply pred_ents_rows.
    + right. exists hits, mrr. split; [|split; [exact Hh|exact Hm]].
      unfold run. rewrite Hrun. split; [done|]. cbn. by rewrite <- app_assoc.
Qed.

(** C4 (amended).  When the loader yields no batch, the evaluator fails
    with Python's ZeroDivisionError, raised by the division of the
    accumulated hits by a zero [batch_count]; it logs no metric. *)
Theorem empty_loader_raises_zero_division m (loader : DataLoader Tok) epoch prefix
    max (w : world Θ) :
  batches loader = [] ->
  let run := eval_link_prediction ent_emb_fwd energy_eval utils_hit_at_k utils_mrr
               m loader epoch prefix max w in
  run.1 = Raise ZeroDivisionError /\ scalars run.2 = scalars w.
Proof.
  intros Hb run.
  destruct (eval_link_prediction_run ent_emb_fwd energy_eval utils_hit_at_k
              utils_mrr m loader epoch prefix max w)
    as [[_ Hrun]|(Hne & _)].
  - unfold run. by rewrite Hrun.
  - destruct Hne. rewrite Hb. unfold consumed. by destruct max; rewrite ?take_nil.
Qed.

(** The same failure when the cap on the number of batches is zero. *)
Lemma zero_cap_raises_zero_division m (loader : DataLoader Tok) epoch prefix
    (w : world Θ) :
  (eval_link_prediction ent_emb_fwd energy_eval utils_hit_at_k utils_mrr
     m loader epoch prefix (Some 0) w).1 = Raise ZeroDivisionError.
Proof.
  destruct (eval_link_prediction_run ent_emb_fwd energy_eval utils_hit_at_k
              utils_mrr m loader epoch prefix (Some 0) w)
    as [[_ Hrun]|(Hne & _)].
  - by rewrite Hrun.
  - by destruct Hne.
Qed.

(** C6.  For a text dataset the table is built chunk by chunk: the [k]-th
    encoder call gets the ids [k*bs, k*bs+bs) cut at [num_entities], in
    ascending order, where [bs] is the loader's batch size, and the [k]-th
    write goes to the rows of the same range.  The write ranges are
    pairwise disjoint and, put one after the other, are exactly the rows
    [0, num_entities): every row is written once.  For any other dataset
    no table is built and scoring gets [None]. *)
Theorem cache_builder_tiles_entity_range m (loader : DataLoader Tok) (w : world Θ) :
  let bs := Pos.to_nat (batch_size loader) in
  let n := num_entities m in
  match text_data (dataset loader) with
  | Some descr =>
      exists tbl writes w',
        build_ent_emb ent_emb_fwd m loader w = (Some tbl, writes, w')
        /\ trace w' = trace w ++ (FwdEntEmb <$> chunks (batch_size loader) (seq 0 n))
        /\ (forall k c, chunks (batch_size loader) (seq 0 n) !! k = Some c ->
              c = seq (k * bs) (Nat.min bs (n - k * bs)) /\ k * bs < n)
        /\ tbl = concat (encode_chunk ent_emb_fwd (params w) descr
                           <$> chunks (batch_size loader) (seq 0 n))
        /\ (forall k a b, writes !! k = Some (a, b) ->
              a = k * bs /\ b = Nat.min (a + bs) n /\ a < b)
        /\ concat (rows_of <$> writes) = seq 0 n
        /\ (forall i j ri rj x,
              writes !! i = Some ri -> writes !! j = Some rj ->
              x ∈ rows_of ri -> x ∈ rows_of rj -> i = j)
        /\ (forall x, x < n -> exists k r, writes !! k = Some r /\ x ∈ rows_of r)
  | None =>
      build_ent_emb ent_emb_fwd m loader w = (None, [], w)
      /\ ent_emb_table ent_emb_fwd (params w) m loader = None
  end.
Proof.
  intros bs n.
  destruct (build_ent_emb_run ent_emb_fwd m loader w) as (writes & Hrun & Htile).
  unfold ent_emb_table, cache_calls in *.
  destruct (text_data (dataset loader)) as [descr|].
  2:{ subst writes. split; [|done]. by rewrite Hrun. }
  fold bs n in Htile.
  assert (Hbs : 0 < bs) by (unfold bs; lia).
  assert (Hrange : forall k a b, writes !! k = Some (a, b) ->
            a = k * bs /\ b = Nat.min (a + bs) n /\ a < b).
  { intros k a b Hk. destruct (tiling_lookup _ _ _ _ _ _ _ Htile Hk) as (-> & -> & ?).
    lia. }
  eexists _, writes, _. split; [exact Hrun|].
  split; [by rewrite track_all_fields|].
  split; [apply chunks_seq_lookup|].
  split; [done|]. split; [exact Hrange|].
  split; [by rewrite (tiling_rows _ _ _ _ Hbs Htile), Nat.sub_0_r|].
  split.
  - intros i j [a b] [a' b'] x Hi Hj Hx Hx'.
    destruct (Hrange _ _ _ Hi) as (-> & -> & _).
    destruct (Hrange _ _ _ Hj) as (-> & -> & _).
    unfold rows_of in Hx, Hx'. cbn [fst snd] in Hx, Hx'.
    apply elem_of_seq in Hx, Hx'. nia.
  - intros x Hx. apply (tiling_cover _ _ _ _ _ Htile). lia.
Qed.

(** C8.  A call leaves the parameters, the grad mode and the autograd
    graph as they were, also when grad mode was on at the call: the state
    has no place for the table, which is computed from the parameters of
    the state the call starts in.  A later call, after the parameters
    have changed to [θ'], makes the encoder calls again and scores with
    the table of [θ']. *)
Theorem eval_table_is_transient m (loader : DataLoader Tok) epoch prefix max
    (w : world Θ) :
  let eval := eval_link_prediction ent_emb_fwd energy_eval utils_hit_at_k utils_mrr
                m loader epoch prefix max in
  let calls := cache_calls m loader
                 ++ concat (batch_calls (all_entities m)
                              <$> consumed max (batches loader)) in
  params (eval w).2 = params w
  /\ grad_enabled (eval w).2 = grad_enabled w
  /\ graph (eval w).2 = graph w
  /\ trace (eval w).2 = trace w ++ calls
  /\ (build_ent_emb ent_emb_fwd m loader (set_grad false w)).1.1
     = ent_emb_table ent_emb_fwd (params w) m loader
  /\ forall θ',
       let w2 := World θ' (grad_enabled (eval w).2) (graph (eval w).2)
                   (scalars (eval w).2) (trace (eval w).2) in
       params (eval w2).2 = θ'
       /\ graph (eval w2).2 = graph w
       /\ trace (eval w2).2 = (trace w ++ calls) ++ calls
       /\ (build_ent_emb ent_emb_fwd m loader (set_grad false w2)).1.1
          = ent_emb_table ent_emb_fwd θ' m loader.
Proof.
  intros eval calls.
  assert (Hframe : forall w0 : world Θ,
            params (eval w0).2 = params w0
            /\ grad_enabled (eval w0).2 = grad_enabled w0
            /\ graph (eval w0).2 = graph w0
            /\ trace (eval w0).2 = trace w0 ++ calls
            /\ (build_ent_emb ent_emb_fwd m loader (set_grad false w0)).1.1
               = ent_emb_table ent_emb_fwd (params w0) m loader).
  { intros w0.
    destruct (build_ent_emb_run ent_emb_fwd m loader (set_grad false w0))
      as (ws & Hb & _).
    rewrite Hb. cbn [fst params set_grad].
    destruct (eval_link_prediction_run ent_emb_fwd energy_eval utils_hit_at_k
                utils_mrr m loader epoch prefix max w0)
      as [[_ Hrun]|(_ & hits & mrr & Hrun & _)];
      unfold eval; rewrite Hrun; done. }
  destruct (Hframe w) as (Hp & Hg & Hgr & Htr & Htbl).
  split; [done|]. split; [done|]. split; [done|]. split; [done|]. split; [done|].
  intros θ' w2.
  destruct (Hframe w2) as (Hp2 & _ & Hgr2 & Htr2 & Htbl2).
  split; [exact Hp2|].
  split; [rewrite Hgr2; exact Hgr|].
  split; [|exact Htbl2].
  rewrite Htr2. unfold w2. cbn [trace]. by rewrite Htr.
Qed.

(** What an exact report says about the helper's values. *)
Lemma exact_forces_batch_mean m (loader : DataLoader Tok) epoch prefix (w : world Θ) :
  reports_exact_metrics ent_emb_fwd energy_eval utils_hit_at_k utils_mrr
    m loader epoch prefix None w ->
  (qsum (batch_hits energy_eval utils_hit_at_k (params w)
           (ent_emb_table ent_emb_fwd (params w) m loader) (all_entities m)
           <$> batches loader) / Qnat (length (batches loader))
   == hits_at_10_spec energy_eval (params w)
        (ent_emb_table ent_emb_fwd (params w) m loader) (all_entities m)
        (triples (dataset loader)))%Q.
Proof.
  intros (h & r & [Hok Hs] & Hh & _).
  destruct (eval_link_prediction_run ent_emb_fwd energy_eval utils_hit_at_k
              utils_mrr m loader epoch prefix None w)
    as [[_ Hrun]|(_ & hits & mrr & Hrun & Hhits & _)].
  - rewrite Hrun in Hok. discriminate.
  - rewrite Hrun in Hs. cbn in Hs. rewrite <- app_assoc in Hs.
    apply app_inv_head in Hs. injection Hs as _ <-.
    cbn [consumed] in Hhits. rewrite <- Hhits. exact Hh.
Qed.

(** C1 (amended).  For a non-empty evaluation set evaluated in full, the
    reported Hits@10 and MRR are the means, over the batches, of the
    values the two helpers return for each batch.  When the helpers
    return the batch's fraction of ranks at most 10 and the batch's mean
    reciprocal rank, and the batch size divides the number of triples,
    these are the per-substitution fraction and mean over the whole
    evaluation set. *)
Theorem reported_metrics_are_batch_means m (loader : DataLoader Tok) epoch prefix
    (w : world Θ) :
  triples (dataset loader) <> [] ->
  let run := eval_link_prediction ent_emb_fwd energy_eval utils_hit_at_k utils_mrr
               m loader epoch prefix None w in
  let tbl := ent_emb_table ent_emb_fwd (params w) m loader in
  let all := all_entities m in
  (exists hits mrr,
     reported prefix epoch w run hits mrr
     /\ (hits == qsum (batch_hits energy_eval utils_hit_at_k (params w) tbl all
                         <$> batches loader) / Qnat (length (batches loader)))%Q
     /\ (mrr == qsum (batch_mrr energy_eval utils_mrr (params w) tbl all
                        <$> batches loader) / Qnat (length (batches loader)))%Q)
  /\ (helpers_as_specified utils_hit_at_k utils_mrr ->
      (Pos.to_nat (batch_size loader) | length (triples (dataset loader))) ->
      reports_exact_metrics ent_emb_fwd energy_eval utils_hit_at_k utils_mrr
        m loader epoch prefix None w).
Proof.
  intros Hne run tbl all. split.
  - destruct (eval_link_prediction_run ent_emb_fwd energy_eval utils_hit_at_k
                utils_mrr m loader epoch prefix None w)
      as [[Hnil _]|(_ & hits & mrr & Hrun & Hh & Hm)].
    { by destruct (batches_nonempty loader Hne). }
    exists hits, mrr. split; [|by split].
    unfold run. rewrite Hrun. split; [done|]. cbn. by rewrite <- app_assoc.
  - intros Hspec Hdiv. by apply exact_when_batches_full.
Qed.

End Claims.

(** ** The claims at concrete inputs *)

Import TrainExamples.

Lemma helpers_as_specified_refl : helpers_as_specified Utils.hit_at_k Utils.mrr.
Proof. split; intros; reflexivity. Qed.

Lemma reported_metrics_are_batch_means_witness :
  triples (dataset ex_loader_even) <> []
  /\ reports_exact_metrics ex_fwd ex_energy Utils.hit_at_k Utils.mrr
       ex_model ex_loader_even 1 "valid" None ex_world.
Proof.
  split; [discriminate|].
  refine (proj2 (reported_metrics_are_batch_means ex_fwd ex_energy Utils.hit_at_k
                   Utils.mrr ex_model ex_loader_even 1 "valid" ex_world _) _ _).
  - discriminate.
  - exact helpers_as_specified_refl.
  - exists 2. reflexivity.
Defined.

(** C1, as stated, fails whatever the two helpers compute: were the report
    the per-substitution means for every evaluation set, it would be so
    for the first batch of [ex_loader] alone (which fixes the helper's
    value on it: all four ranks are 1), for its second batch alone (both
    ranks are 12), and for the two together, where the mean of the two
    batch values is 1/2 and the fraction of ranks at most 10 is 4/6. *)
Lemma per_substitution_means_fail :
  ~ exists hk mr,
      reports_exact_metrics ex_fwd ex_energy hk mr ex_model ex_loader_first
        1 "valid" None ex_world
      /\ reports_exact_metrics ex_fwd ex_energy hk mr ex_model ex_loader_second
           1 "valid" None ex_world
      /\ reports_exact_metrics ex_fwd ex_energy hk mr ex_model ex_loader
           1 "valid" None ex_world.
Proof.
  intros (hk & mr & H1 & H2 & H3).
  apply exact_forces_batch_mean in H1, H2, H3.
  change (batches ex_loader_first) with [[Triple 0 0 0; Triple 0 0 1]] in H1.
  change (batches ex_loader_second) with [[Triple 11 11 0]] in H2.
  change (batches ex_loader) with [[Triple 0 0 0; Triple 0 0 1]; [Triple 11 11 0]] in H3.
  cbn [fmap list_fmap length params ex_world] in H1, H2, H3.
  change (ent_emb_table ex_fwd () ex_model ex_loader_first) with (@None (list Vec)) in *.
  change (ent_emb_table ex_fwd () ex_model ex_loader_second) with (@None (list Vec)) in *.
  change (ent_emb_table ex_fwd () ex_model ex_loader) with (@None (list Vec)) in *.
  set (x := batch_hits ex_energy hk () None (all_entities ex_model)
              [Triple 0 0 0; Triple 0 0 1]) in *.
  set (y := batch_hits ex_energy hk () None (all_entities ex_model)
              [Triple 11 11 0]) in *.
  assert (E1 : (hits_at_10_spec ex_energy () None (all_entities ex_model)
                  (triples (dataset ex_loader_first)) == 1)%Q)
    by (vm_compute; reflexivity).
  assert (E2 : (hits_at_10_spec ex_energy () None (all_entities ex_model)
                  (triples (dataset ex_loader_second)) == 0)%Q)
    by (vm_compute; reflexivity).
  assert (E3 : (hits_at_10_spec ex_energy () None (all_entities ex_model)
                  (triples (dataset ex_loader)) == 2 # 3)%Q)
    by (vm_compute; reflexivity).
  rewrite E1 in H1. rewrite E2 in H2. rewrite E3 in H3. clear E1 E2 E3.
  unfold qsum in H1, H2, H3. cbn [foldr] in H1, H2, H3.
  assert (Hx : (x == 1)%Q).
  { rewrite <- H1. change (Qnat 1) with 1%Q. field. }
  assert (Hy : (y == 0)%Q).
  { rewrite <- H2. change (Qnat 1) with 1%Q. field. }
  rewrite Hx, Hy in H3. vm_compute in H3. discriminate.
Qed.

(** The cache builder on twelve entities in chunks of five. *)
Example ex_cache_builder :
  (build_ent_emb ex_fwd ex_model ex_loader_text ex_world).1.2
    = [(0, 5); (5, 10); (10, 12)]
  /\ trace (build_ent_emb ex_fwd ex_model ex_loader_text ex_world).2
    = [FwdEntEmb [0; 1; 2; 3; 4]; FwdEntEmb [5; 6; 7; 8; 9]; FwdEntEmb [10; 11]]
  /\ length <$> (build_ent_emb ex_fwd ex_model ex_loader_text ex_world).1.1
    = Some 12.
Proof. split; [|split]; vm_compute; reflexivity. Qed.

(** Grad mode is on in [ex_world]; the call records nothing in the
    autograd graph and makes two scoring calls per batch. *)
Example ex_loader_trace :
  (eval_link_prediction ex_fwd ex_energy Utils.hit_at_k Utils.mrr ex_model
     ex_loader 1 "valid" None ex_world).2
  = World () true []
      (scalars (eval_link_prediction ex_fwd ex_energy Utils.hit_at_k Utils.mrr
                  ex_model ex_loader 1 "valid" None ex_world).2)
      [FwdEnergy (seq 0 12) [0; 0] [0; 1]; FwdEnergy [0; 0] (seq 0 12) [0; 1];
       FwdEnergy (seq 0 12) [11] [0]; FwdEnergy [11] (seq 0 12) [0]].
Proof. vm_compute. reflexivity. Qed.

(** The two reports on [ex_loader], and the per-substitution values. *)
Example ex_loader_report :
  exists hits mrr,
    reported "valid" 1 ex_world
      (eval_link_prediction ex_fwd ex_energy Utils.hit_at_k Utils.mrr ex_model
         ex_loader 1 "valid" None ex_world) hits mrr
    /\ (hits == 1 # 2)%Q /\ (mrr == 13 # 24)%Q
    /\ (hits_at_10_spec ex_energy () None (all_entities ex_model) ex_triples
         == 2 # 3)%Q
    /\ (mrr_spec ex_energy () None (all_entities ex_model) ex_triples
         == 25 # 36)%Q.
Proof.
  eexists _, _. split; [split|]; [vm_compute; reflexivity..|].
  repeat split; vm_compute; reflexivity.
Qed.

Lemma empty_loader_raises_zero_division_witness :
  batches ex_loader_empty = []
  /\ (eval_link_prediction ex_fwd ex_energy Utils.hit_at_k Utils.mrr ex_model
        ex_loader_empty 1 "valid" None ex_world).1 = Raise ZeroDivisionError
  /\ scalars (eval_link_prediction ex_fwd ex_energy Utils.hit_at_k Utils.mrr ex_model
                ex_loader_empty 1 "valid" None ex_world).2 = scalars ex_world.
Proof.
  split; [reflexivity|].
  exact (empty_loader_raises_zero_division ex_fwd ex_energy Utils.hit_at_k Utils.mrr
           ex_model ex_loader_empty 1 "valid" None ex_world eq_refl).
Defined.

(** C4, as stated, fails on an empty validation split: the call does not
    end with EmptyLoaderError. *)
Lemma empty_loader_not_EmptyLoaderError :
  (eval_link_prediction ex_fwd ex_energy Utils.hit_at_k Utils.mrr ex_model
     ex_loader_empty 1 "valid" None ex_world).1 <> Raise EmptyLoaderError.
Proof. vm_compute. discriminate. Qed.

End TrainFacts.

(* ===================================================================== *)
(** * Entity summaries and the alignment loop *)
(* ===================================================================== *)

Module LinkerFacts.
Import Train Linker.

Section Facts.

Context {Tok Emb Data Θ Opt G : Type}.
Variable gzero : G.
Variable gadd : G -> G -> G.
Variable aligner : Θ -> Tok -> list Vec -> Emb.
Variable loss_grad : Θ -> Emb -> Data -> G.
Variable optimizer_step : Opt -> Θ -> G -> Opt * Θ.
Variable loader_pass : nat -> list Data.
Variable get_entity_descriptions : list nat -> Tok.

(** The function returns the allocation, whatever the summarizer and the
    descriptions are. *)
Lemma get_entity_summaries_is_allocation memory (summarizer : SummaryModel Tok) n :
  get_entity_summaries memory summarizer n get_entity_descriptions
  = torch_empty memory n (hidden_size summarizer).
Proof. reflexivity. Qed.

Lemma inner_loop_run ent_embs i j batches (st : tstate Θ Opt G) :
  inner_loop gadd loss_grad ent_embs i j batches st
  = MkTState (t_params st)
      (foldl gadd (t_grad st) (loss_grad (t_params st) ent_embs <$> batches))
      (t_opt st)
      (t_events st ++ (EvBackward i <$> seq j (length batches))).
Proof.
  revert j st. induction batches as [|data rest IH]; intros j st.
  - destruct st. cbn. by rewrite app_nil_r.
  - cbn [inner_loop]. rewrite IH. cbn. by rewrite <- app_assoc.
Qed.

Lemma outer_iteration_run summaries (st : tstate Θ Opt G) i :
  t_grad st = gzero ->
  outer_iteration gzero gadd aligner loss_grad optimizer_step loader_pass
    get_entity_descriptions summaries st i
  = let g := iteration_grad gzero gadd aligner loss_grad loader_pass
               get_entity_descriptions summaries (t_params st) i in
    MkTState (optimizer_step (t_opt st) (t_params st) g).2 gzero
      (optimizer_step (t_opt st) (t_params st) g).1
      (t_events st
         ++ iteration_events gzero gadd aligner loss_grad loader_pass
              get_entity_descriptions summaries (t_params st) i).
Proof.
  intros Hg. unfold outer_iteration. rewrite inner_loop_run.
  unfold step, zero_grad, iteration_events, iteration_grad.
  cbn [t_params t_grad t_opt t_events emit]. rewrite Hg.
  destruct (optimizer_step _ _ _) as [o θ]. cbn.
  by rewrite <- !app_assoc.
Qed.

Lemma outer_loop_run summaries θ0 opt0 n :
  foldl (outer_iteration gzero gadd aligner loss_grad optimizer_step loader_pass
           get_entity_descriptions summaries)
    (MkTState θ0 gzero opt0 []) (seq 0 n)
  = let before := state_before gzero gadd aligner loss_grad optimizer_step
                    loader_pass get_entity_descriptions summaries θ0 opt0 in
    MkTState (before n).2 gzero (before n).1
      (concat ((fun i => iteration_events gzero gadd aligner loss_grad loader_pass
                           get_entity_descriptions summaries (before i).2 i)
                 <$> seq 0 n)).
Proof.
  induction n as [|n IH].
  - reflexivity.
  - rewrite seq_S, foldl_app, IH. cbn [foldl Nat.add].
    rewrite outer_iteration_run by reflexivity.
    cbn [t_params t_opt t_events state_before].
    rewrite fmap_app, concat_app. cbn [fmap list_fmap concat].
    rewrite app_nil_r.
    destruct (state_before _ _ _ _ _ _ _ _ _ _ n) as [o θ]. reflexivity.
Qed.

(** C7.  The run is, for each entity in turn: one computation of its
    aligned embedding, one backward call per batch of a full pass over
    the loader with nothing else in between, one optimizer step, and the
    zeroing of the gradients.  The gradient a step consumes is the sum,
    from zero, of the gradients of the batches of its own iteration, all
    taken at the parameters the iteration started with; after the run
    the gradients are zero. *)
Theorem accumulation_scoped_to_one_entity memory (summarizer : SummaryModel Tok)
    num_ents θ0 opt0 :
  let summaries :=
    get_entity_summaries memory summarizer num_ents get_entity_descriptions in
  let before := state_before gzero gadd aligner loss_grad optimizer_step
                  loader_pass get_entity_descriptions summaries θ0 opt0 in
  let st := train_linker gzero gadd aligner loss_grad optimizer_step loader_pass
              get_entity_descriptions memory summarizer num_ents θ0 opt0 in
  t_events st
  = concat ((fun i =>
               [EvAlign i]
                 ++ (EvBackward i <$> seq 0 (length (loader_pass i)))
                 ++ [EvStep i
                       (foldl gadd gzero
                          (loss_grad (before i).2
                             (aligner (before i).2 (get_entity_descriptions [i])
                                summaries)
                             <$> loader_pass i));
                     EvZeroGrad i])
              <$> seq 0 num_ents)
  /\ t_grad st = gzero
  /\ (t_opt st, t_params st) = before num_ents.
Proof.
  intros summaries before st. unfold st, train_linker.
  fold summaries. rewrite outer_loop_run. fold before.
  cbn [t_events t_grad t_opt t_params].
  split; [reflexivity|]. split; [reflexivity|].
  by destruct (before num_ents).
Qed.

End Facts.

(** Two entities, two batches a pass: the step of the first entity
    consumes 1 + 10, that of the second 2 + 10. *)
Example ex_train_linker_events :
  t_events ex_train_linker
    = [EvAlign 0; EvBackward 0 0; EvBackward 0 1; EvStep 0 11; EvZeroGrad 0;
       EvAlign 1; EvBackward 1 0; EvBackward 1 1; EvStep 1 12; EvZeroGrad 1]
  /\ t_grad ex_train_linker = 0
  /\ t_params ex_train_linker = 123.
Proof. split; [|split]; reflexivity. Qed.

(** C3 fails on the code: for a dataset of two entities whose summaries
    would be [[1]] and [[2]], the returned table is the allocated memory,
    here zeros. *)
Lemma summaries_table_not_encoded :
  get_entity_summaries ex_memory ex_summarizer 2 ex_descriptions
    = [[0%Q]; [0%Q]]
  /\ entity_summaries_spec ex_summarizer 2 ex_descriptions
    = [[Qnat 1]; [Qnat 2]]
  /\ get_entity_summaries ex_memory ex_summarizer 2 ex_descriptions
     <> entity_summaries_spec ex_summarizer 2 ex_descriptions.
Proof. split; [reflexivity|]. split; [reflexivity|]. discriminate. Qed.

End LinkerFacts.

(* ===================================================================== *)
(** * The Wikidata fetcher *)
(* ===================================================================== *)

Module FetchFacts.
Import Fetch.

Section GetRetry.

Context {Response : Type}.
Variables (url : string) (params : list (string * string)) (delay : nat).

(** One round of the loop against the network, from request number [k]. *)
Lemma get_retry_body_round (attempt : nat -> outcome Response) (s : net) :
  interp_state (handle_net attempt) (get_retry_body url params delay tt) s
  ≈ match attempt (requests_made s) with
    | Raised ConnectionError =>
        Ret (MkNet (S (requests_made s)) (slept s + delay), inl tt)
    | o => Ret (MkNet (S (requests_made s)) (slept s), inr o)
    end.
Proof.
  unfold get_retry_body.
  rewrite interp_state_bind, interp_state_trigger. cbn. rewrite bind_ret_l. cbn.
  destruct (attempt (requests_made s)) as [resp|[|name]].
  - by rewrite interp_state_ret.
  - rewrite interp_state_bind, interp_state_trigger. cbn. rewrite bind_ret_l. cbn.
    by rewrite interp_state_ret.
  - by rewrite interp_state_ret.
Qed.

Lemma get_retry_run (attempt : nat -> outcome Response) n k t :
  (forall j, j < n -> attempt (k + j) = Raised ConnectionError) ->
  attempt (k + n) <> Raised ConnectionError ->
  interp_state (handle_net attempt) (get_retry url params delay) (MkNet k t)
  ≈ Ret (MkNet (k + S n) (t + n * delay), attempt (k + n)).
Proof.
  revert k t. induction n as [|n IH]; intros k t Hfail Hlast; unfold get_retry.
  - rewrite unfold_iter, interp_state_bind, get_retry_body_round.
    cbn [requests_made slept].
    replace (k + 1) with (S k) by lia.
    replace (t + 0 * delay) with t by lia.
    rewrite Nat.add_0_r in *.
    destruct (attempt k) as [resp|[|name]] eqn:E; [|done|];
      rewrite bind_ret_l; cbn; by rewrite interp_state_ret.
  - rewrite unfold_iter, interp_state_bind, get_retry_body_round.
    cbn [requests_made slept].
    rewrite <- (Nat.add_0_r k) at 1. rewrite (Hfail 0) by lia.
    rewrite bind_ret_l. cbn. rewrite interp_state_tau, tau_eutt.
    fold (get_retry (Response:=Response) url params delay).
    rewrite (IH (S k) (t + delay)).
    + replace (S k + S n) with (k + S (S n)) by lia.
      replace (S k + n) with (k + S n) by lia.
      replace (t + delay + n * delay) with (t + S n * delay) by lia.
      reflexivity.
    + intros j Hj. replace (S k + j) with (k + S j) by lia. apply Hfail. lia.
    + by replace (S k + n) with (k + S n) by lia.
Qed.

(** Whatever the environment answers, a round ends with a response, with
    an exception other than a connection error, or goes round again. *)
Lemma get_retry_body_leaves (r : unit + outcome Response) :
  Leaf r (get_retry_body url params delay tt) ->
  match r with
  | inl _ => True
  | inr o => o <> Raised ConnectionError
  end.
Proof.
  unfold get_retry_body. intros Hr.
  apply Leaf_bind_inv in Hr as (o & _ & Hr).
  destruct o as [resp|[|name]].
  - apply Leaf_Ret_inv in Hr as ->. done.
  - apply Leaf_bind_inv in Hr as (? & _ & Hr).
    apply Leaf_Ret_inv in Hr as ->. done.
  - apply Leaf_Ret_inv in Hr as ->. done.
Qed.

(** C9.  (1) Against every environment, what [get_retry] ends with is
    never a connection error.  (2) When the first [n] requests raise a
    connection error and the next returns a response, the call makes
    exactly those [n + 1] requests, sleeps [delay] after each of the [n]
    failures, and returns that response; [n] is not bounded.  (3) When
    every request raises a connection error the call never ends. *)
Theorem get_retry_returns_first_answer :
  (forall o, Leaf o (get_retry (Response:=Response) url params delay) ->
             o <> Raised ConnectionError)
  /\ (forall (attempt : nat -> outcome Response) n resp,
        (forall j, j < n -> attempt j = Raised ConnectionError) ->
        attempt n = Returned resp ->
        interp_state (handle_net attempt) (get_retry url params delay) (MkNet 0 0)
        ≈ Ret (MkNet (S n) (n * delay), Returned resp))
  /\ (forall (attempt : nat -> outcome Response),
        (forall j, attempt j = Raised ConnectionError) ->
        forall so,
          ~ Leaf so (interp_state (handle_net attempt)
                       (get_retry url params delay) (MkNet 0 0))).
Proof.
  split; [|split].
  - intros o Ho.
    apply (Leaf_iter_inv (get_retry_body url params delay) tt
             (fun _ => True) (fun o => o <> Raised ConnectionError)); [|done|exact Ho].
    intros [] r _ Hr. apply get_retry_body_leaves in Hr. by destruct r.
  - intros attempt n resp Hfail Hn.
    rewrite (get_retry_run attempt n 0 0).
    + cbn [Nat.add]. rewrite Hn. reflexivity.
    + intros j Hj. by apply Hfail.
    + cbn. by rewrite Hn.
  - intros attempt Hfail so Hso.
    apply (Leaf_interp_state_iter_inv (handle_net attempt)
             (get_retry_body url params delay)
             (fun _ => True) (fun _ => True) (fun _ => False) (MkNet 0 0) tt)
      in Hso; [destruct so; by destruct Hso|..|done|done].
    intros s [] _ _ sx Hsx.
    rewrite get_retry_body_round, Hfail in Hsx.
    apply Leaf_Ret_inv in Hsx as ->. done.
Qed.

End GetRetry.

(** Two failures, then a response: three requests, ten seconds asleep. *)
Lemma get_retry_returns_first_answer_witness :
  interp_state
    (handle_net (fun k => if k <? 2 then Raised ConnectionError else Returned k))
    (get_retry "https://www.wikidata.org/w/api.php" [("ids", "Q1")] 5) (MkNet 0 0)
  ≈ Ret (MkNet 3 10, Returned 2).
Proof.
  apply (proj1 (proj2 (get_retry_returns_first_answer
                         "https://www.wikidata.org/w/api.php" [("ids", "Q1")] 5))
           (fun k => if k <? 2 then Raised ConnectionError else Returned k) 2 2).
  - intros j Hj. by destruct j as [|[|j]]; [..|lia].
  - reflexivity.
Defined.

(** ** retrieve_pages *)

Lemma count_newlines_app s1 s2 :
  count_newlines (s1 +:+ s2) = count_newlines s1 + count_newlines s2.
Proof.
  induction s1 as [|c s1 IH]; [done|].
  simpl. rewrite IH. lia.
Qed.

Lemma count_newlines_replace s : count_newlines (replace_newlines s) = 0.
Proof.
  induction s as [|c s IH]; [done|].
  cbn [replace_newlines count_newlines]. rewrite IH.
  by destruct (Ascii.eqb c newline) eqn:E; [|rewrite E].
Qed.

(** A record is one line when its entity id and its title are. *)
Lemma count_newlines_description_line (r : string * string * string) :
  count_newlines r.2 = 0 ->
  count_newlines (description_line r)
  = count_newlines r.1.1 + count_newlines r.1.2 + 1.
Proof.
  intros Hr. unfold description_line.
  rewrite !count_newlines_app, Hr. cbn. lia.
Qed.

Lemma get_extracts_newline_free pages :
  newline_free_values (get_extracts_from_pages pages).
Proof.
  unfold get_extracts_from_pages.
  assert (forall acc : gmap string string, newline_free_values acc ->
            newline_free_values
              (foldl (fun extracts p =>
                        match extract p.2 with
                        | Some e => <[title p.2 := replace_newlines e]> extracts
                        | None => extracts
                        end) acc pages)) as H.
  { induction pages as [|p pages IH]; intros acc Hacc; [done|].
    cbn [foldl]. apply IH. destruct (extract p.2); [|done].
    apply map_Forall_insert_2; [apply count_newlines_replace|done]. }
  apply H, map_Forall_empty.
Qed.

Lemma write_no_wiki_hold recs absent e st :
  files_hold recs absent st ->
  files_hold recs (absent ++ [e]) (write_no_wiki e st).
Proof.
  intros (Ho & Hn & Hf & Hc & Hr). unfold files_hold, write_no_wiki. cbn.
  rewrite Hn, Hc, fmap_app, length_app. cbn.
  repeat split; try done. lia.
Qed.

Lemma write_description_hold recs absent entity t text st :
  files_hold recs absent st -> count_newlines text = 0 ->
  files_hold (recs ++ [(entity, t, text)]) absent (write_description entity t text st).
Proof.
  intros (Ho & Hn & Hf & Hc & Hr) Ht. unfold files_hold, write_description. cbn.
  rewrite Ho, Hf, fmap_app, length_app. cbn.
  repeat split; try done; [lia|].
  apply Forall_app. split; [done|]. by constructor.
Qed.

Section RetrievePagesFacts.

Context {Cont : Type}.
Variable wikidata : string -> option (gmap string ent_data).
Variable wikipedia : string -> option Cont -> wp_reply Cont.

Lemma link_loop_hold to_fetch link_data ent_pages st recs absent :
  files_hold recs absent st ->
  exists new absent',
    (link_loop to_fetch link_data ent_pages st).1.2 = ent_pages ++ new
    /\ files_hold recs (absent ++ absent') (link_loop to_fetch link_data ent_pages st).2
    /\ ((link_loop to_fetch link_data ent_pages st).1.1 = Done ->
        (fst <$> new) ++ absent' ≡ₚ to_fetch).
Proof.
  revert ent_pages st absent.
  induction to_fetch as [|e rest IH]; intros ent_pages st absent Hst.
  - exists [], []. cbn. by rewrite !app_nil_r.
  - assert (Hfail : forall s, s <> Done ->
              exists new absent',
                (s, ent_pages, st).1.2 = ent_pages ++ new
                /\ files_hold recs (absent ++ absent') (s, ent_pages, st).2
                /\ ((s, ent_pages, st).1.1 = Done ->
                    (fst <$> new) ++ absent' ≡ₚ e :: rest)).
    { intros s Hs. exists [], []. cbn. by rewrite !app_nil_r. }
    assert (Habsent :
              exists new absent',
                (link_loop rest link_data ent_pages (write_no_wiki e st)).1.2
                = ent_pages ++ new
                /\ files_hold recs (absent ++ absent')
                     (link_loop rest link_data ent_pages (write_no_wiki e st)).2
                /\ ((link_loop rest link_data ent_pages (write_no_wiki e st)).1.1 = Done ->
                    (fst <$> new) ++ absent' ≡ₚ e :: rest)).
    { destruct (IH ent_pages (write_no_wiki e st) (absent ++ [e]))
        as (new & absent' & Hp & Hh & Hd); [by apply write_no_wiki_hold|].
      exists new, (e :: absent'). split; [done|].
      split; [by rewrite <- app_assoc in Hh|].
      intros HD. rewrite <- Permutation_middle. by rewrite (Hd HD). }
    cbn [link_loop].
    destruct (link_data !! e) as [d|]; [|by apply Hfail].
    destruct (missing d); [exact Habsent|].
    destruct (sitelinks d) as [links|]; [|by apply Hfail].
    destruct (links !! "enwiki") as [t|]; [|exact Habsent].
    destruct (IH (ent_pages ++ [(e, t)]) st absent Hst)
      as (new & absent' & Hp & Hh & Hd).
    exists ((e, t) :: new), absent'. split; [by rewrite Hp, <- app_assoc|].
    split; [done|]. intros HD. cbn. by rewrite (Hd HD).
Qed.

Lemma continue_loop_newline_free fuel titles_param text_data extracts :
  newline_free_values extracts ->
  newline_free_values (continue_loop wikipedia fuel titles_param text_data extracts).2.
Proof.
  revert text_data extracts.
  induction fuel as [|fuel IH]; intros text_data extracts Hex; cbn [continue_loop].
  - by destruct (continue text_data).
  - destruct (continue text_data) as [c|]; [|done].
    destruct (query (wikipedia titles_param (Some c))) as [q|]; [|done].
    apply IH. apply map_Forall_union_2; [apply get_extracts_newline_free|done].
Qed.

Lemma save_loop_hold ent_pages redir_titles extracts st recs absent :
  newline_free_values extracts ->
  files_hold recs absent st ->
  exists recs' absent',
    files_hold (recs ++ recs') (absent ++ absent')
      (save_loop ent_pages redir_titles extracts st)
    /\ ((fun r => r.1.1) <$> recs') ++ absent' ≡ₚ fst <$> ent_pages.
Proof.
  intros Hex. revert st recs absent.
  induction ent_pages as [|[entity t] rest IH]; intros st recs absent Hst.
  - exists [], []. by rewrite !app_nil_r.
  - cbn [save_loop].
    set (t' := match redir_titles !! t with Some t' => t' | None => t end).
    destruct (extracts !! t') as [text|] eqn:E.
    + destruct (IH (write_description entity t' text st)
                  (recs ++ [(entity, t', text)]) absent)
        as (recs' & absent' & Hh & Hp).
      { apply write_description_hold; [done|]. by apply (Hex t'). }
      exists ((entity, t', text) :: recs'), absent'.
      split; [by rewrite <- app_assoc in Hh|]. cbn. by rewrite Hp.
    + destruct (IH (write_no_wiki entity st) recs (absent ++ [entity]))
        as (recs' & absent' & Hh & Hp); [by apply write_no_wiki_hold|].
      exists recs', (entity :: absent').
      split; [by rewrite <- app_assoc in Hh|].
      rewrite <- Permutation_middle. cbn. by rewrite Hp.
Qed.

Lemma fetch_chunk_hold fuel to_fetch st recs absent :
  files_hold recs absent st ->
  (fetch_chunk wikidata wikipedia fuel to_fetch st).1 = Done ->
  exists recs' absent',
    files_hold (recs ++ recs') (absent ++ absent')
      (fetch_chunk wikidata wikipedia fuel to_fetch st).2
    /\ ((fun r => r.1.1) <$> recs') ++ absent' ≡ₚ to_fetch.
Proof.
  intros Hst. unfold fetch_chunk.
  destruct (wikidata (String.concat "|" to_fetch)) as [link_data|]; [|done].
  destruct (link_loop_hold to_fetch link_data [] st recs absent Hst)
    as (new & absent1 & Hp & Hh & Hd).
  destruct (link_loop to_fetch link_data [] st) as [[s ent_pages] st1].
  cbn [fst snd] in Hp, Hh, Hd. rewrite app_nil_l in Hp. subst ent_pages.
  destruct s; [|done..]. specialize (Hd eq_refl).
  destruct (query (wikipedia (String.concat "|" new.*2) None)) as [q|]; [|done].
  pose proof (continue_loop_newline_free fuel (String.concat "|" new.*2)
                (wikipedia (String.concat "|" new.*2) None)
                (get_extracts_from_pages (pages q))
                (get_extracts_newline_free (pages q))) as Hex.
  destruct (continue_loop wikipedia fuel (String.concat "|" new.*2)
              (wikipedia (String.concat "|" new.*2) None)
              (get_extracts_from_pages (pages q))) as [s extracts].
  cbn [snd] in Hex. destruct s; [|done..]. intros _. cbn [snd].
  destruct (save_loop_hold new (redirect_titles (redirects q)) extracts st1
              recs (absent ++ absent1) Hex Hh) as (recs' & absent2 & Hh2 & Hp2).
  exists recs', (absent1 ++ absent2). split; [by rewrite app_assoc|].
  rewrite <- Hd. rewrite (Permutation_app_comm absent1 absent2), app_assoc, Hp2.
  done.
Qed.

Lemma chunk_loop_hold fuel cs st recs absent :
  files_hold recs absent st ->
  (chunk_loop wikidata wikipedia fuel cs st).1 = Done ->
  exists recs' absent',
    files_hold (recs ++ recs') (absent ++ absent')
      (chunk_loop wikidata wikipedia fuel cs st).2
    /\ ((fun r => r.1.1) <$> recs') ++ absent' ≡ₚ concat cs.
Proof.
  revert st recs absent. induction cs as [|c cs IH]; intros st recs absent Hst.
  - intros _. exists [], []. by rewrite !app_nil_r.
  - cbn [chunk_loop].
    pose proof (fetch_chunk_hold fuel c st recs absent Hst) as Hc.
    destruct (fetch_chunk wikidata wikipedia fuel c st) as [s st1].
    destruct s; [|done..]. cbn [fst snd] in Hc.
    destruct (Hc eq_refl) as (recs1 & absent1 & Hh1 & Hp1).
    intros HD. destruct (IH st1 _ _ Hh1 HD) as (recs2 & absent2 & Hh2 & Hp2).
    exists (recs1 ++ recs2), (absent1 ++ absent2).
    split; [by rewrite !app_assoc|].
    cbn [concat]. rewrite <- Hp1, <- Hp2, fmap_app.
    rewrite <- !app_assoc. apply Permutation_app_head.
    rewrite !app_assoc. apply Permutation_app_tail, Permutation_app_comm.
Qed.

Lemma link_loop_done to_fetch link_data ent_pages st :
  (forall e, e ∈ to_fetch ->
     exists d, link_data !! e = Some d
               /\ (missing d = true \/ is_Some (sitelinks d))) ->
  (link_loop to_fetch link_data ent_pages st).1.1 = Done.
Proof.
  revert ent_pages st. induction to_fetch as [|e rest IH]; intros ent_pages st Hall.
  - done.
  - assert (Hrest : forall e', e' ∈ rest ->
              exists d, link_data !! e' = Some d
                        /\ (missing d = true \/ is_Some (sitelinks d))).
    { intros e' He'. apply Hall. by right. }
    destruct (Hall e) as (d & Hd & Hok); [by left|].
    cbn [link_loop]. rewrite Hd.
    destruct (missing d); [by apply IH|].
    destruct Hok as [?|[links ->]]; [done|].
    destruct (links !! "enwiki"); by apply IH.
Qed.

Lemma continue_loop_done fuel titles_param text_data extracts :
  chain_ends wikipedia titles_param fuel text_data ->
  (continue_loop wikipedia fuel titles_param text_data extracts).1 = Done.
Proof.
  intros Hc. revert extracts.
  induction Hc as [fuel r Hr|fuel r c Hr [q Hq] _ IH]; intros extracts.
  - destruct fuel; cbn [continue_loop]; by rewrite Hr.
  - cbn [continue_loop]. rewrite Hr, Hq. apply IH.
Qed.

Lemma chunk_loop_done fuel cs st :
  servers_answer wikidata wikipedia fuel cs ->
  (chunk_loop wikidata wikipedia fuel cs st).1 = Done.
Proof.
  intros [Hwd Hwp]. revert st. induction cs as [|c cs IH]; intros st; [done|].
  cbn [chunk_loop].
  assert ((fetch_chunk wikidata wikipedia fuel c st).1 = Done) as Hc.
  { unfold fetch_chunk.
    destruct (Hwd c) as (link_data & -> & Hall); [by left|].
    pose proof (link_loop_done c link_data [] st Hall) as Hl.
    destruct (link_loop c link_data [] st) as [[s ent_pages] st1].
    cbn [fst] in Hl. subst s.
    destruct (Hwp (String.concat "|" ent_pages.*2)) as [[q Hq] Hchain].
    rewrite Hq.
    pose proof (continue_loop_done fuel _ _ (get_extracts_from_pages (pages q))
                  Hchain) as Hk.
    destruct (continue_loop _ _ _ _ _) as [s extracts].
    cbn [fst] in Hk. by subst s. }
  destruct (fetch_chunk wikidata wikipedia fuel c st) as [s st1].
  cbn [fst] in Hc. subst s. apply IH.
  intros c' Hc'. apply Hwd. by right.
Qed.

End RetrievePagesFacts.

End FetchFacts.

(* ===================================================================== *)
(** * Further facts about batching *)
(* ===================================================================== *)

Lemma chunks_take {A} (n : positive) (l : list A) (k : nat) :
  take k (chunks n l) = chunks n (take (k * Pos.to_nat n) l).
Proof.
  revert l. induction k as [|k IH]; intros l.
  - cbn [Nat.mul]. rewrite !take_0. by simp chunks.
  - destruct l as [|x l]; [rewrite take_nil; simp chunks; by rewrite take_nil|].
    rewrite (chunks_step n (x :: l)) by done.
    rewrite (chunks_step n (take (S k * Pos.to_nat n) (x :: l))).
    2:{ destruct (Pos.to_nat n) eqn:E; [lia|done]. }
    rewrite firstn_cons, IH.
    rewrite take_take, take_drop_commute.
    replace (Nat.min (Pos.to_nat n) (S k * Pos.to_nat n)) with (Pos.to_nat n) by lia.
    by replace (Pos.to_nat n + k * Pos.to_nat n) with (S k * Pos.to_nat n) by lia.
Qed.

Lemma chunks_same_length {A B} (n : positive) (l : list A) (other : list B) :
  length l = length other -> length (chunks n l) = length (chunks n other).
Proof.
  revert other. funelim (chunks n l); intros other Hl.
  - destruct other; [|done]. by simp chunks.
  - destruct other as [|y other']; [done|]. simp chunks. cbn [length]. f_equal.
    apply H. rewrite !length_drop. by rewrite Hl.
Qed.

Lemma chunks_count {A} (n : positive) (l : list A) :
  length (chunks n l) = (length l + Pos.to_nat n - 1) / Pos.to_nat n.
Proof.
  funelim (chunks n l); simp chunks.
  - cbn [length]. symmetry. apply Nat.div_small. lia.
  - cbn [length] in *. rewrite H, length_drop. cbn [length].
    set (k := Pos.to_nat n) in *. assert (0 < k) by (unfold k; lia).
    replace (S (length l') + k - 1) with (length l' + 1 * k) by lia.
    rewrite Nat.div_add by lia.
    destruct (Nat.le_gt_cases k (S (length l'))) as [Hle|Hgt].
    + replace (S (length l') - k + k - 1) with (length l') by lia. lia.
    + replace (S (length l') - k + k - 1) with (k - 1) by lia.
      rewrite !Nat.div_small by lia. lia.
Qed.

Lemma chunks_length {A} (n : positive) (l : list A) (c : list A) :
  c ∈ chunks n l -> 0 < length c <= Pos.to_nat n.
Proof.
  intros Hc. apply list_elem_of_lookup in Hc as [k Hk].
  apply chunks_lookup in Hk as [-> Hlt].
  rewrite length_take, length_drop. lia.
Qed.

(* ===================================================================== *)
(** * The Wikidata fetcher: further properties *)
(* ===================================================================== *)

Module FetchExtraFacts.
Import Fetch FetchExtra FetchFacts.

(** ** Reading the entities *)

Lemma append_nl_nonempty s : s +:+ nl <> EmptyString.
Proof. by destruct s. Qed.

Lemma rstrip_newlines_no_trailing s s' : rstrip_newlines s <> s' +:+ nl.
Proof.
  revert s'. induction s as [|c s IH]; intros s'.
  - cbn. intros H. by apply (append_nl_nonempty s').
  - cbn [rstrip_newlines].
    destruct (rstrip_newlines s) as [|c1 r1] eqn:E.
    + destruct (Ascii.eqb_spec c newline) as [->|Hc].
      * intros H. by apply (append_nl_nonempty s').
      * destruct s' as [|c' s'']; cbn.
        -- intros [= H1]. by subst.
        -- intros [= _ H2]. by apply (append_nl_nonempty s'').
    + destruct s' as [|c' s'']; cbn; [intros [= _ H]; discriminate|].
      intros [= _ H]. by apply (IH s'').
Qed.

Lemma rstrip_newlines_decompose s :
  exists k, s = rstrip_newlines s +:+ newlines k.
Proof.
  induction s as [|c s [k IH]].
  - by exists 0.
  - cbn [rstrip_newlines].
    destruct (rstrip_newlines s) as [|c1 r1] eqn:E.
    + destruct (Ascii.eqb_spec c newline) as [->|Hc].
      * exists (S k). exact (f_equal (String newline) IH).
      * exists k. exact (f_equal (String c) IH).
    + exists k. exact (f_equal (String c) IH).
Qed.

Lemma rstrip_newlines_fixed s :
  (forall s', s <> s' +:+ nl) -> rstrip_newlines s = s.
Proof.
  induction s as [|c s IH]; intros Hs; [done|].
  cbn [rstrip_newlines]. rewrite IH.
  - destruct s as [|c1 s1]; [|done].
    destruct (Ascii.eqb_spec c newline) as [->|Hc]; [|done].
    by destruct (Hs EmptyString).
  - intros s' ->. by apply (Hs (String c s')).
Qed.

Lemma rstrip_newlines_newlines k : rstrip_newlines (newlines k) = EmptyString.
Proof.
  induction k as [|k IHk]; [done|].
  cbn [newlines rstrip_newlines]. rewrite IHk.
  unfold newline at 1. by rewrite Ascii.eqb_refl.
Qed.

Lemma rstrip_newlines_app_newlines s k :
  rstrip_newlines (s +:+ newlines k) = rstrip_newlines s.
Proof.
  induction s as [|c s IH].
  - apply rstrip_newlines_newlines.
  - change (String c s +:+ newlines k) with (String c (s +:+ newlines k)).
    cbn [rstrip_newlines]. by rewrite IH.
Qed.

(** Lines 61-62.  The id read from a line is the line without its
    trailing newlines, all of them and nothing else: the line is the id
    followed by newlines only, the id does not end in a newline, and
    lines that differ in trailing newlines only give the same id. *)
Theorem entity_id_is_line_without_trailing_newlines (line : string) :
  (exists k, line = rstrip_newlines line +:+ newlines k)
  /\ (forall s', rstrip_newlines line <> s' +:+ nl)
  /\ (forall k, rstrip_newlines (line +:+ newlines k) = rstrip_newlines line)
  /\ rstrip_newlines (rstrip_newlines line) = rstrip_newlines line.
Proof.
  split; [apply rstrip_newlines_decompose|].
  split; [apply rstrip_newlines_no_trailing|].
  split; [apply rstrip_newlines_app_newlines|].
  apply rstrip_newlines_fixed, rstrip_newlines_no_trailing.
Qed.

(** ** get_retry *)

(** Lines 44-49.  Only a connection error is retried.  When the first
    [n] requests raise a connection error and the next raises any other
    exception, the call makes those [n + 1] requests, sleeps [delay]
    after each of the [n] failures, and ends with that exception: it is
    not caught, and no further request is made. *)
Theorem get_retry_raises_other_exception {Response : Type} (url : string)
    (params : list (string * string)) (delay : nat)
    (attempt : nat -> outcome Response) (n : nat) (name : string) :
  (forall j, j < n -> attempt j = Raised ConnectionError) ->
  attempt n = Raised (OtherException name) ->
  interp_state (handle_net attempt) (get_retry url params delay) (MkNet 0 0)
  ≈ Ret (MkNet (S n) (n * delay), Raised (OtherException name)).
Proof.
  intros Hfail Hn.
  rewrite (get_retry_run url params delay attempt n 0 0).
  - cbn [Nat.add]. rewrite Hn. reflexivity.
  - intros j Hj. by apply Hfail.
  - cbn [Nat.add]. by rewrite Hn.
Qed.

(** One connection error, then a timeout: two requests, five seconds
    asleep, and the timeout reaches the caller. *)
Lemma get_retry_raises_other_exception_witness :
  interp_state
    (handle_net (Response:=nat)
       (fun k => if k <? 1 then Raised ConnectionError
                 else Raised (OtherException "Timeout")))
    (get_retry "https://en.wikipedia.org/w/api.php" [("titles", "One")] 5)
    (MkNet 0 0)
  ≈ Ret (MkNet 2 5, Raised (OtherException "Timeout")).
Proof.
  apply (get_retry_raises_other_exception
           "https://en.wikipedia.org/w/api.php" [("titles", "One")] 5
           (fun k => if k <? 1 then Raised ConnectionError
                     else Raised (OtherException "Timeout")) 1 "Timeout").
  - intros j Hj. by destruct j as [|j]; [|lia].
  - reflexivity.
Defined.

(** ** get_extracts_from_pages *)

Lemma extracts_foldl_union pages (acc : gmap string string) :
  foldl extracts_step acc pages = get_extracts_from_pages pages ∪ acc.
Proof.
  unfold get_extracts_from_pages. fold extracts_step.
  revert acc. induction pages as [|p pages IH]; intros acc.
  - cbn. by rewrite (left_id_L ∅ (∪)).
  - cbn [foldl]. rewrite (IH (extracts_step acc p)), (IH (extracts_step ∅ p)).
    rewrite <- (assoc_L (∪)). f_equal.
    unfold extracts_step. destruct (extract p.2) as [e|].
    + by rewrite insert_union_singleton_l, insert_empty.
    + by rewrite (left_id_L ∅ (∪)).
Qed.

Lemma get_extracts_app pages1 pages2 :
  get_extracts_from_pages (pages1 ++ pages2)
  = get_extracts_from_pages pages2 ∪ get_extracts_from_pages pages1.
Proof.
  unfold get_extracts_from_pages at 1. fold extracts_step.
  rewrite foldl_app. apply extracts_foldl_union.
Qed.

Lemma get_extracts_lookup pages t :
  get_extracts_from_pages pages !! t
  = replace_newlines <$> last (omap (extract_under t) pages).
Proof.
  induction pages as [|p pages IH] using rev_ind; [done|].
  rewrite get_extracts_app, lookup_union, IH, omap_app, last_app.
  unfold get_extracts_from_pages, extract_under.
  destruct p as [i [tp [e|]]]; cbn.
  - destruct (decide (tp = t)) as [->|Hne].
    + rewrite lookup_insert_eq. cbn.
      by destruct (last _).
    + rewrite lookup_insert_ne, lookup_empty by done. cbn.
      by destruct (last _).
  - rewrite lookup_empty. destruct (decide (tp = t)); cbn;
      by destruct (last _).
Qed.

Lemma extract_under_Some t (p : string * page) e :
  extract_under t p = Some e <-> title p.2 = t /\ extract p.2 = Some e.
Proof.
  unfold extract_under. destruct (decide (title p.2 = t)); split; try done.
  - by intros [_ ?].
  - by intros [? _].
Qed.

(** Lines 22-38.  What the dictionary holds under a title is the
    extract, with every newline replaced by a space, of the last page of
    the reply that has this title and an extract.  A title is a key
    exactly when some page has it together with an extract, and every
    value is the extract of such a page, on one line. *)
Theorem extracts_hold_last_page_of_each_title (pages : list (string * page))
    (t : string) :
  get_extracts_from_pages pages !! t
  = replace_newlines <$> last (omap (extract_under t) pages)
  /\ (is_Some (get_extracts_from_pages pages !! t)
      <-> exists p, p ∈ pages /\ title p.2 = t /\ is_Some (extract p.2))
  /\ (forall text,
        get_extracts_from_pages pages !! t = Some text ->
        count_newlines text = 0
        /\ exists p e,
             p ∈ pages /\ title p.2 = t /\ extract p.2 = Some e
             /\ text = replace_newlines e).
Proof.
  split; [apply get_extracts_lookup|]. rewrite get_extracts_lookup. split.
  - rewrite fmap_is_Some. split.
    + intros [e He]. apply last_Some_elem_of, list_elem_of_omap in He
        as (p & Hp & Hf).
      apply extract_under_Some in Hf as [Ht He]. exists p.
      split; [done|]. split; [done|]. by eexists.
    + intros (p & Hp & Ht & [e He]).
      assert (Hin : e ∈ omap (extract_under t) pages).
      { apply list_elem_of_omap. exists p. split; [done|].
        by apply extract_under_Some. }
      destruct (omap (extract_under t) pages) as [|x l] using rev_ind.
      * by apply elem_of_nil in Hin.
      * rewrite last_snoc. by eexists.
  - intros text Ht. apply fmap_Some in Ht as (e & He & ->).
    split; [apply count_newlines_replace|].
    apply last_Some_elem_of, list_elem_of_omap in He as (p & Hp & Hf).
    apply extract_under_Some in Hf as [Ht He]. by exists p, e.
Qed.

(** Lines 98 and 109.  Updating the extracts of one reply with those of
    the next gives the dictionary a single call would give for the pages
    of the two replies put one after the other: on a title both have,
    the later reply wins. *)
Theorem extracts_update_is_concatenation (pages1 pages2 : list (string * page)) :
  get_extracts_from_pages pages2 ∪ get_extracts_from_pages pages1
  = get_extracts_from_pages (pages1 ++ pages2)
  /\ forall t,
       (get_extracts_from_pages pages2 ∪ get_extracts_from_pages pages1) !! t
       = match get_extracts_from_pages pages2 !! t with
         | Some text => Some text
         | None => get_extracts_from_pages pages1 !! t
         end.
Proof.
  split; [by rewrite get_extracts_app|].
  intros t. rewrite lookup_union.
  by destruct (get_extracts_from_pages pages2 !! t),
       (get_extracts_from_pages pages1 !! t).
Qed.

Section ContinuationFacts.

Context {Cont : Type}.
Variable wikipedia : string -> option Cont -> wp_reply Cont.

Lemma continue_loop_pages fuel titles_param text_data ps :
  (continue_loop wikipedia fuel titles_param text_data
     (get_extracts_from_pages ps)).1 = Done ->
  (continue_loop wikipedia fuel titles_param text_data
     (get_extracts_from_pages ps)).2
  = get_extracts_from_pages
      (ps ++ continuation_pages wikipedia fuel titles_param text_data).
Proof.
  revert text_data ps.
  induction fuel as [|fuel IH]; intros text_data ps; cbn [continue_loop continuation_pages].
  - destruct (continue text_data); [done|]. by rewrite app_nil_r.
  - destruct (continue text_data) as [c|]; [|by rewrite app_nil_r].
    destruct (query (wikipedia titles_param (Some c))) as [q|]; [|done].
    rewrite <- get_extracts_app. intros HD.
    rewrite (IH _ _ HD). by rewrite app_assoc.
Qed.

(** Lines 98-109.  When the continuation loop ends, the extracts are
    those of the pages of the first reply followed by the pages of the
    continuation replies in the order they came: one dictionary over all
    of them, a later page winning over an earlier one of the same
    title. *)
Theorem continuation_collects_all_pages fuel titles_param
    (text_data : wp_reply Cont) (first_pages : list (string * page)) :
  let run := continue_loop wikipedia fuel titles_param text_data
               (get_extracts_from_pages first_pages) in
  run.1 = Done ->
  run.2 = get_extracts_from_pages
            (first_pages
               ++ continuation_pages wikipedia fuel titles_param text_data)
  /\ forall t,
       run.2 !! t
       = replace_newlines
           <$> last (omap (extract_under t)
                       (first_pages
                          ++ continuation_pages wikipedia fuel titles_param
                               text_data)).
Proof.
  intros run HD. unfold run.
  rewrite (continue_loop_pages _ _ _ _ HD).
  split; [done|]. intros t. apply get_extracts_lookup.
Qed.

End ContinuationFacts.

(** The continuation of the example adds the two extracts to a first
    reply that had none. *)
Lemma continuation_collects_all_pages_witness :
  (continue_loop ex_redirect_wikipedia 1 "Uno|Dos"
     (ex_redirect_wikipedia "Uno|Dos" None)
     (get_extracts_from_pages [("1", MkPage "One" None)])).1 = Done
  /\ (continue_loop ex_redirect_wikipedia 1 "Uno|Dos"
        (ex_redirect_wikipedia "Uno|Dos" None)
        (get_extracts_from_pages [("1", MkPage "One" None)])).2 !! "One"
     = Some "first second".
Proof.
  split; [reflexivity|].
  rewrite (proj2 (continuation_collects_all_pages ex_redirect_wikipedia 1 "Uno|Dos"
                    (ex_redirect_wikipedia "Uno|Dos" None)
                    [("1", MkPage "One" None)] eq_refl) "One").
  reflexivity.
Defined.

(** ** One chunk *)

Lemma write_all_no_wiki_nil st : write_all_no_wiki [] st = st.
Proof.
  destruct st. unfold write_all_no_wiki. cbn. f_equal; [apply app_nil_r|lia].
Qed.

Lemma write_all_descriptions_nil st : write_all_descriptions [] st = st.
Proof.
  destruct st. unfold write_all_descriptions. cbn. f_equal; [apply app_nil_r|lia].
Qed.

Lemma write_all_no_wiki_cons e absent st :
  write_all_no_wiki absent (write_no_wiki e st) = write_all_no_wiki (e :: absent) st.
Proof.
  unfold write_all_no_wiki, write_no_wiki. cbn. f_equal.
  - by rewrite <- app_assoc.
  - lia.
Qed.

Lemma write_all_descriptions_cons entity t text recs st :
  write_all_descriptions recs (write_description entity t text st)
  = write_all_descriptions ((entity, t, text) :: recs) st.
Proof.
  unfold write_all_descriptions, write_description. cbn. f_equal.
  - by rewrite <- app_assoc.
  - lia.
Qed.

Lemma write_all_comm recs absent st :
  write_all_descriptions recs (write_all_no_wiki absent st)
  = write_all_no_wiki absent (write_all_descriptions recs st).
Proof. done. Qed.

Lemma write_description_no_wiki recs e st :
  write_all_descriptions recs (write_no_wiki e st)
  = write_no_wiki e (write_all_descriptions recs st).
Proof. done. Qed.

Lemma write_all_app recs1 absent1 recs2 absent2 st :
  write_all_no_wiki absent2
    (write_all_descriptions recs2
       (write_all_no_wiki absent1 (write_all_descriptions recs1 st)))
  = write_all_no_wiki (absent1 ++ absent2)
      (write_all_descriptions (recs1 ++ recs2) st).
Proof.
  unfold write_all_no_wiki, write_all_descriptions. cbn.
  rewrite !fmap_app, !length_app, !app_assoc. f_equal; lia.
Qed.

Lemma write_all_hold recs absent :
  Forall (fun r => count_newlines r.2 = 0) recs ->
  files_hold recs absent
    (write_all_no_wiki absent (write_all_descriptions recs (MkFiles [] [] 0 0))).
Proof. intros Hr. by repeat split. Qed.

Lemma link_loop_files to_fetch link_data ent_pages st :
  exists absent,
    absent `sublist_of` to_fetch
    /\ (link_loop to_fetch link_data ent_pages st).2 = write_all_no_wiki absent st.
Proof.
  revert ent_pages st. induction to_fetch as [|e rest IH]; intros ent_pages st.
  - exists []. split; [done|]. by rewrite write_all_no_wiki_nil.
  - assert (Hstop : forall s : status,
              exists absent, absent `sublist_of` e :: rest
                             /\ (s, ent_pages, st).2 = write_all_no_wiki absent st).
    { intros s. exists []. split; [apply sublist_nil_l|].
      by rewrite write_all_no_wiki_nil. }
    assert (Habsent :
              exists absent, absent `sublist_of` e :: rest
                /\ (link_loop rest link_data ent_pages (write_no_wiki e st)).2
                   = write_all_no_wiki absent st).
    { destruct (IH ent_pages (write_no_wiki e st)) as (absent & Hs & ->).
      exists (e :: absent). split; [by apply sublist_skip|].
      apply write_all_no_wiki_cons. }
    cbn [link_loop].
    destruct (link_data !! e) as [d|]; [|apply Hstop].
    destruct (missing d); [exact Habsent|].
    destruct (sitelinks d) as [links|]; [|apply Hstop].
    destruct (links !! "enwiki") as [t|]; [|exact Habsent].
    destruct (IH (ent_pages ++ [(e, t)]) st) as (absent & Hs & ->).
    exists absent. split; [by apply sublist_cons|done].
Qed.

Lemma enwiki_title_unfold link_data e :
  enwiki_title link_data e
  = match link_data !! e with
    | Some d =>
        if missing d then None
        else match sitelinks d with
             | Some links => links !! "enwiki"
             | None => None
             end
    | None => None
    end.
Proof.
  unfold enwiki_title. destruct (link_data !! e) as [d|]; [|done]. cbn.
  destruct (missing d); [done|]. by destruct (sitelinks d).
Qed.

Lemma link_loop_run to_fetch link_data ent_pages st :
  (link_loop to_fetch link_data ent_pages st).1.1 = Done ->
  link_loop to_fetch link_data ent_pages st
  = (Done, ent_pages ++ chunk_pages link_data to_fetch,
     write_all_no_wiki
       (filter (fun e => enwiki_title link_data e = None) to_fetch) st).
Proof.
  revert ent_pages st. induction to_fetch as [|e rest IH]; intros ent_pages st.
  - intros _. cbn. by rewrite app_nil_r, write_all_no_wiki_nil.
  - cbn [link_loop]. unfold chunk_pages. cbn [omap list_omap].
    rewrite filter_cons. fold (chunk_pages link_data rest).
    rewrite (enwiki_title_unfold link_data e).
    destruct (link_data !! e) as [d|]; [|done].
    destruct (missing d).
    + intros HD. rewrite (IH _ _ HD). by rewrite write_all_no_wiki_cons.
    + destruct (sitelinks d) as [links|]; [|done].
      destruct (links !! "enwiki") as [t|]; cbn.
      * intros HD. rewrite (IH _ _ HD). by rewrite <- app_assoc.
      * intros HD. rewrite (IH _ _ HD). by rewrite write_all_no_wiki_cons.
Qed.

Lemma save_loop_run ent_pages redir_titles extracts st :
  save_loop ent_pages redir_titles extracts st
  = write_all_no_wiki
      (fst <$> filter (fun p => extracts !! redirected redir_titles p.2 = None)
                 ent_pages)
      (write_all_descriptions
         (omap (fun p => (fun text => (p.1, redirected redir_titles p.2, text))
                           <$> extracts !! redirected redir_titles p.2)
            ent_pages) st).
Proof.
  revert st. induction ent_pages as [|[entity t] rest IH]; intros st.
  - cbn. by rewrite write_all_no_wiki_nil, write_all_descriptions_nil.
  - cbn [save_loop omap list_omap]. rewrite filter_cons. cbn [fst snd].
    change (match redir_titles !! t with Some t' => t' | None => t end)
      with (redirected redir_titles t).
    destruct (extracts !! redirected redir_titles t) as [text|] eqn:E; cbn.
    + rewrite IH. by rewrite write_all_descriptions_cons.
    + rewrite IH. by rewrite write_description_no_wiki, write_all_no_wiki_cons.
Qed.

Lemma chunk_pages_titles link_data to_fetch :
  (chunk_pages link_data to_fetch).*2 = chunk_titles link_data to_fetch.
Proof.
  unfold chunk_pages, chunk_titles.
  induction to_fetch as [|e rest IH]; [done|].
  cbn [omap list_omap]. destruct (enwiki_title link_data e); cbn; by rewrite ?IH.
Qed.

Lemma chunk_pages_records link_data redir_titles extracts to_fetch :
  omap (fun p => (fun text => (p.1, redirected redir_titles p.2, text))
                   <$> extracts !! redirected redir_titles p.2)
    (chunk_pages link_data to_fetch)
  = omap (record_of link_data redir_titles extracts) to_fetch.
Proof.
  unfold chunk_pages, record_of.
  induction to_fetch as [|e rest IH]; [done|].
  cbn [omap list_omap]. destruct (enwiki_title link_data e) as [t|]; cbn; [|done].
  destruct (extracts !! redirected redir_titles t); cbn; by rewrite IH.
Qed.

Lemma chunk_pages_absent link_data redir_titles extracts to_fetch :
  fst <$> filter (fun p => extracts !! redirected redir_titles p.2 = None)
            (chunk_pages link_data to_fetch)
  = filter (fun e => is_Some (enwiki_title link_data e)
                     /\ record_of link_data redir_titles extracts e = None)
      to_fetch.
Proof.
  unfold chunk_pages, record_of.
  induction to_fetch as [|e rest IH]; [done|].
  cbn [omap list_omap]. rewrite (filter_cons _ e).
  destruct (enwiki_title link_data e) as [t|]; cbn.
  - destruct (extracts !! redirected redir_titles t) as [text|]; cbn.
    + rewrite decide_False by done.
      rewrite decide_False by (by intros [_ ?]). exact IH.
    + rewrite !decide_True by naive_solver.
      rewrite fmap_cons. cbn [fst]. f_equal. exact IH.
  - rewrite decide_False by (by intros [[? ?] _]). exact IH.
Qed.

Lemma record_ids_sublist link_data redir_titles extracts to_fetch :
  record_ids (omap (record_of link_data redir_titles extracts) to_fetch)
    `sublist_of` to_fetch.
Proof.
  unfold record_ids. induction to_fetch as [|e rest IH]; [done|].
  cbn [omap list_omap]. unfold record_of at 1.
  destruct (enwiki_title link_data e) as [t|]; cbn; [|by apply sublist_cons].
  destruct (extracts !! redirected redir_titles t); cbn;
    [by apply sublist_skip|by apply sublist_cons].
Qed.

Lemma chunk_accounts link_data redir_titles extracts to_fetch :
  record_ids (omap (record_of link_data redir_titles extracts) to_fetch)
    ++ chunk_absent link_data redir_titles extracts to_fetch
  ≡ₚ to_fetch.
Proof.
  unfold record_ids, chunk_absent. induction to_fetch as [|e rest IH]; [done|].
  cbn [omap list_omap]. rewrite !(filter_cons _ e).
  destruct (record_of link_data redir_titles extracts e) as [r|] eqn:Hr.
  - assert (r.1.1 = e /\ is_Some (enwiki_title link_data e)) as [He Ht].
    { unfold record_of in Hr.
      destruct (enwiki_title link_data e) as [t|]; cbn in Hr; [|done].
      destruct (extracts !! redirected redir_titles t); cbn in Hr; [|done].
      injection Hr as <-. split; [done|by eexists]. }
    rewrite decide_False by (intros Hn; rewrite Hn in Ht; by destruct Ht).
    rewrite decide_False by (by intros [_ ?]).
    cbn. by rewrite He, IH.
  - destruct (enwiki_title link_data e) as [t|] eqn:Ht.
    + rewrite decide_False by done.
      rewrite decide_True by (split; [by eexists|done]).
      rewrite app_assoc, <- Permutation_middle, <- app_assoc. by rewrite IH.
    + rewrite decide_True by done.
      rewrite decide_False by (by intros [[? ?] _]).
      cbn. rewrite <- Permutation_middle. by rewrite IH.
Qed.

Lemma records_newline_free link_data redir_titles extracts to_fetch :
  newline_free_values extracts ->
  Forall (fun r => count_newlines r.2 = 0)
    (omap (record_of link_data redir_titles extracts) to_fetch).
Proof.
  intros Hex. induction to_fetch as [|e rest IH]; [done|].
  cbn [omap list_omap]. unfold record_of at 1.
  destruct (enwiki_title link_data e) as [t|]; cbn; [|done].
  destruct (extracts !! redirected redir_titles t) as [text|] eqn:E; cbn; [|done].
  constructor; [|done]. by apply (Hex _ _ E).
Qed.

Section ChunkFacts.

Context {Cont : Type}.
Variable wikidata : string -> option (gmap string ent_data).
Variable wikipedia : string -> option Cont -> wp_reply Cont.

(** What a chunk that succeeds writes. *)
Lemma fetch_chunk_run fuel to_fetch st :
  (fetch_chunk wikidata wikipedia fuel to_fetch st).1 = Done ->
  exists link_data q,
    wikidata (String.concat "|" to_fetch) = Some link_data
    /\ query (wikipedia (String.concat "|" (chunk_titles link_data to_fetch)) None)
       = Some q
    /\ (fetch_chunk wikidata wikipedia fuel to_fetch st).2
       = let titles_param := String.concat "|" (chunk_titles link_data to_fetch) in
         let extracts := chunk_extracts wikipedia fuel titles_param q in
         let redir_titles := redirect_titles (redirects q) in
         write_all_no_wiki (chunk_absent link_data redir_titles extracts to_fetch)
           (write_all_descriptions
              (omap (record_of link_data redir_titles extracts) to_fetch) st).
Proof.
  unfold fetch_chunk.
  destruct (wikidata (String.concat "|" to_fetch)) as [link_data|]; [|done].
  pose proof (link_loop_run to_fetch link_data [] st) as Hl.
  destruct (link_loop to_fetch link_data [] st) as [[s ent_pages] st1].
  destruct s; [|done..]. specialize (Hl eq_refl).
  injection Hl as -> ->. cbn [app].
  rewrite chunk_pages_titles.
  set (tp := String.concat "|" (chunk_titles link_data to_fetch)).
  destruct (query (wikipedia tp None)) as [q|] eqn:Hq; [|done].
  pose proof (continue_loop_pages wikipedia fuel tp (wikipedia tp None) (pages q))
    as Hc.
  destruct (continue_loop wikipedia fuel tp (wikipedia tp None)
              (get_extracts_from_pages (pages q))) as [s extracts].
  destruct s; [|done..]. specialize (Hc eq_refl). cbn [snd] in Hc. subst extracts.
  intros _. exists link_data, q. split; [done|]. split; [done|]. cbn [snd].
  rewrite save_loop_run, chunk_pages_records, chunk_pages_absent.
  fold (chunk_extracts wikipedia fuel tp q).
  unfold chunk_absent.
  rewrite write_all_comm.
  unfold write_all_no_wiki, write_all_descriptions. cbn.
  rewrite !fmap_app, !length_app, !app_assoc. f_equal. subst tp. lia.
Qed.

(** What a chunk that fails has written. *)
Lemma fetch_chunk_failed fuel to_fetch st :
  (fetch_chunk wikidata wikipedia fuel to_fetch st).1 <> Done ->
  exists absent,
    absent `sublist_of` to_fetch
    /\ (fetch_chunk wikidata wikipedia fuel to_fetch st).2
       = write_all_no_wiki absent st.
Proof.
  unfold fetch_chunk.
  destruct (wikidata (String.concat "|" to_fetch)) as [link_data|].
  2:{ intros _. exists []. split; [apply sublist_nil_l|].
      by rewrite write_all_no_wiki_nil. }
  destruct (link_loop_files to_fetch link_data [] st) as (absent & Hs & Hst).
  destruct (link_loop to_fetch link_data [] st) as [[s ent_pages] st1].
  cbn [snd] in Hst. subst st1.
  assert (Hend : forall s' : status,
            exists absent0, absent0 `sublist_of` to_fetch
              /\ (s', write_all_no_wiki absent st).2 = write_all_no_wiki absent0 st).
  { intros s'. by exists absent. }
  destruct s; [|intros _; apply Hend..].
  destruct (query (wikipedia (String.concat "|" ent_pages.*2) None)) as [q|];
    [|intros _; apply Hend].
  destruct (continue_loop wikipedia fuel _ _ _) as [s extracts].
  destruct s; [done|intros _; apply Hend..].
Qed.

Lemma fetch_chunk_files fuel to_fetch st :
  exists recs absent,
    (fetch_chunk wikidata wikipedia fuel to_fetch st).2
    = write_all_no_wiki absent (write_all_descriptions recs st)
    /\ Forall (fun r => count_newlines r.2 = 0) recs
    /\ record_ids recs `sublist_of` to_fetch
    /\ record_ids recs ++ absent ⊆+ to_fetch.
Proof.
  assert ((fetch_chunk wikidata wikipedia fuel to_fetch st).1 = Done
          \/ (fetch_chunk wikidata wikipedia fuel to_fetch st).1 <> Done)
    as [HD|HD].
  { destruct (fetch_chunk wikidata wikipedia fuel to_fetch st).1;
      [by left|by right..]. }
  - destruct (fetch_chunk_run fuel to_fetch st HD) as (link_data & q & _ & _ & ->).
    cbn zeta. eexists _, _. split; [done|].
    split; [apply records_newline_free, get_extracts_newline_free|].
    split; [apply record_ids_sublist|].
    apply Permutation_submseteq, chunk_accounts.
  - destruct (fetch_chunk_failed fuel to_fetch st HD) as (absent & Hs & ->).
    exists [], absent. rewrite write_all_descriptions_nil.
    split; [done|]. split; [done|]. split; [apply sublist_nil_l|].
    by apply sublist_submseteq.
Qed.

Lemma chunk_loop_files fuel cs st :
  exists recs absent,
    (chunk_loop wikidata wikipedia fuel cs st).2
    = write_all_no_wiki absent (write_all_descriptions recs st)
    /\ Forall (fun r => count_newlines r.2 = 0) recs
    /\ record_ids recs `sublist_of` concat cs
    /\ record_ids recs ++ absent ⊆+ concat cs.
Proof.
  revert st. induction cs as [|c cs IH]; intros st.
  - exists [], []. cbn. by rewrite write_all_no_wiki_nil, write_all_descriptions_nil.
  - cbn [chunk_loop concat].
    destruct (fetch_chunk_files fuel c st) as (recs1 & absent1 & Hst & Hr1 & Hs1 & Hm1).
    destruct (fetch_chunk wikidata wikipedia fuel c st) as [s st1].
    cbn [snd] in Hst. subst st1.
    assert (Hstop : forall s' : status,
              exists recs absent,
                (s', write_all_no_wiki absent1 (write_all_descriptions recs1 st)).2
                = write_all_no_wiki absent (write_all_descriptions recs st)
                /\ Forall (fun r => count_newlines r.2 = 0) recs
                /\ record_ids recs `sublist_of` c ++ concat cs
                /\ record_ids recs ++ absent ⊆+ c ++ concat cs).
    { intros s'. exists recs1, absent1. split; [done|]. split; [done|].
      split; [by apply sublist_inserts_r|by apply submseteq_inserts_r]. }
    destruct s; [|apply Hstop..].
    destruct (IH (write_all_no_wiki absent1 (write_all_descriptions recs1 st)))
      as (recs2 & absent2 & -> & Hr2 & Hs2 & Hm2).
    exists (recs1 ++ recs2), (absent1 ++ absent2).
    split; [apply write_all_app|].
    split; [by apply Forall_app|].
    unfold record_ids in *. rewrite fmap_app.
    split; [by apply sublist_app|].
    transitivity ((((fun r => r.1.1) <$> recs1) ++ absent1)
                    ++ (((fun r => r.1.1) <$> recs2) ++ absent2)).
    + apply Permutation_submseteq. rewrite <- !app_assoc.
      apply Permutation_app_head. rewrite !app_assoc.
      apply Permutation_app_tail, Permutation_app_comm.
    + by apply submseteq_app.
Qed.

Lemma chunk_loop_failed fuel cs st :
  (chunk_loop wikidata wikipedia fuel cs st).1 <> Done ->
  exists k c absent,
    cs !! k = Some c
    /\ (chunk_loop wikidata wikipedia fuel (take k cs) st).1 = Done
    /\ absent `sublist_of` c
    /\ (chunk_loop wikidata wikipedia fuel cs st).2
       = write_all_no_wiki absent
           (chunk_loop wikidata wikipedia fuel (take k cs) st).2.
Proof.
  revert st. induction cs as [|c cs IH]; intros st; [done|].
  cbn [chunk_loop].
  pose proof (fetch_chunk_failed fuel c st) as Hc.
  destruct (fetch_chunk wikidata wikipedia fuel c st) as [s st1] eqn:E.
  cbn [fst snd] in Hc.
  destruct s.
  - intros HD. destruct (IH st1 HD) as (k & c' & absent & Hk & Hp & Hs & Hst).
    exists (S k), c', absent. split; [done|].
    cbn [take chunk_loop]. rewrite E. done.
  - intros _. destruct Hc as (absent & Hs & ->); [done|].
    exists 0, c, absent. by rewrite take_0.
  - intros _. destruct Hc as (absent & Hs & ->); [done|].
    exists 0, c, absent. by rewrite take_0.
Qed.

Lemma link_loop_no_titles to_fetch link_data ent_pages st :
  (forall e, e ∈ to_fetch -> exists d, link_data !! e = Some d /\ no_enwiki d) ->
  link_loop to_fetch link_data ent_pages st
  = (Done, ent_pages, write_all_no_wiki to_fetch st).
Proof.
  revert st. induction to_fetch as [|e rest IH]; intros st Hall.
  - cbn. by rewrite write_all_no_wiki_nil.
  - destruct (Hall e) as (d & Hd & Hno); [by left|].
    cbn [link_loop]. rewrite Hd.
    assert (Hrest : link_loop rest link_data ent_pages (write_no_wiki e st)
                    = (Done, ent_pages, write_all_no_wiki (e :: rest) st)).
    { rewrite IH; [by rewrite write_all_no_wiki_cons|].
      intros e' He'. apply Hall. by right. }
    destruct Hno as [->|(links & Hl & Hn)]; [exact Hrest|].
    destruct (missing d); [exact Hrest|]. by rewrite Hl, Hn.
Qed.

Lemma continue_loop_ext (wikipedia' : string -> option Cont -> wp_reply Cont)
    fuel titles_param text_data text_data' extracts :
  (forall t c,
     continue (wikipedia t (Some c)) = continue (wikipedia' t (Some c))
     /\ pages <$> query (wikipedia t (Some c))
        = pages <$> query (wikipedia' t (Some c))) ->
  continue text_data = continue text_data' ->
  continue_loop wikipedia fuel titles_param text_data extracts
  = continue_loop wikipedia' fuel titles_param text_data' extracts.
Proof.
  intros Hext. revert text_data text_data' extracts.
  induction fuel as [|fuel IH]; intros text_data text_data' extracts Hc;
    cbn [continue_loop]; rewrite <- Hc.
  - done.
  - destruct (continue text_data) as [c|]; [|done].
    destruct (Hext titles_param c) as [Hk Hp].
    destruct (query (wikipedia titles_param (Some c))) as [q|],
             (query (wikipedia' titles_param (Some c))) as [q'|];
      cbn in Hp; try done.
    injection Hp as ->. by apply IH.
Qed.

End ChunkFacts.

Section RunFacts.

Context {Cont : Type}.
Variable wikidata : string -> option (gmap string ent_data).
Variable wikipedia : string -> option Cont -> wp_reply Cont.

Lemma redirect_titles_lookup rs t :
  redirect_titles (Some rs) !! t = last (omap (target_under t) rs).
Proof.
  unfold redirect_titles.
  induction rs as [|[a b] rs IH] using rev_ind; [done|].
  rewrite foldl_app, omap_app, last_app. cbn [foldl omap list_omap fst snd].
  assert (target_under t (a, b) = if decide (a = t) then Some b else None)
    as -> by done.
  destruct (decide (a = t)) as [->|Hne]; cbn.
  - by rewrite lookup_insert_eq.
  - by rewrite lookup_insert_ne.
Qed.

(** Lines 71-124.  What a chunk that succeeds writes.  Wikipedia is
    asked for the titles Wikidata gave, in the order of the chunk.  The
    descriptions file gets, in that order, one record for each entity
    that has a title whose redirected title has an extract: the record
    holds the id, the redirected title and that extract, where the
    extracts are those of all pages of the first reply and of its
    continuations, and a title is redirected once, by the last redirect
    of the first reply that starts from it.  The other file gets the ids
    without a title, then the ids whose title has no extract; the
    counters grow by the numbers of lines written. *)
Theorem chunk_writes_redirected_records fuel (to_fetch : list string) (st : files) :
  (fetch_chunk wikidata wikipedia fuel to_fetch st).1 = Done ->
  exists link_data q,
    wikidata (String.concat "|" to_fetch) = Some link_data
    /\ query (wikipedia (String.concat "|" (chunk_titles link_data to_fetch)) None)
       = Some q
    /\ let titles_param := String.concat "|" (chunk_titles link_data to_fetch) in
       let extracts := chunk_extracts wikipedia fuel titles_param q in
       let redir_titles := redirect_titles (redirects q) in
       let recs := omap (record_of link_data redir_titles extracts) to_fetch in
       let absent := chunk_absent link_data redir_titles extracts to_fetch in
       let st' := (fetch_chunk wikidata wikipedia fuel to_fetch st).2 in
       out_file st' = out_file st ++ (description_line <$> recs)
       /\ no_wifi_file st' = no_wifi_file st ++ (no_wiki_line <$> absent)
       /\ fetched_count st' = fetched_count st + length recs
       /\ no_wiki_count st' = no_wiki_count st + length absent
       /\ (forall t,
             redir_titles !! t
             = last (omap (target_under t) (default [] (redirects q)))).
Proof.
  intros HD.
  destruct (fetch_chunk_run wikidata wikipedia fuel to_fetch st HD)
    as (link_data & q & Hwd & Hq & Hst).
  exists link_data, q. split; [done|]. split; [done|].
  cbn zeta in *. rewrite Hst. cbn.
  split; [done|]. split; [done|]. split; [done|]. split; [done|].
  intros t. destruct (redirects q) as [rs|]; [apply redirect_titles_lookup|done].
Qed.

(** Lines 52-129.  However a run ends, also on a KeyError half way, the
    two files are consistent: the descriptions file holds whole records,
    the counters count the lines of the two files, the ids of the
    records are entities of the input in the order of the input, no
    entity is written more often than it occurs in the input, and the
    text of a record has no newline. *)
Theorem files_consistent_at_every_outcome fuel (lines : list string) :
  let run := retrieve_pages wikidata wikipedia fuel lines in
  exists recs absent,
    files_hold recs absent run.2
    /\ record_ids recs `sublist_of` (rstrip_newlines <$> lines)
    /\ record_ids recs ++ absent ⊆+ rstrip_newlines <$> lines
    /\ fetched_count run.2 + no_wiki_count run.2 <= length lines.
Proof.
  intros run. unfold run, retrieve_pages.
  destruct (chunk_loop_files wikidata wikipedia fuel
              (chunks MAX_ENTITIES (rstrip_newlines <$> lines)) (MkFiles [] [] 0 0))
    as (recs & absent & -> & Hr & Hs & Hm).
  rewrite chunks_concat in Hs, Hm.
  exists recs, absent. split; [by apply write_all_hold|].
  split; [done|]. split; [done|].
  apply submseteq_length in Hm.
  rewrite length_app, length_fmap in Hm. unfold record_ids in Hm.
  rewrite length_fmap in Hm. cbn. lia.
Qed.

(** Lines 70-124.  A run that does not finish (a KeyError, or a chain
    of continuations that outlasts the fuel) has processed some number
    [k] of whole chunks: the descriptions file and its counter are those
    of a complete run on the first [50 * k] lines, and the other file
    has, after the lines of that run, ids of the chunk that failed only.
    So the chunk that fails leaves no description, not even of entities
    whose extract had been received. *)
Theorem failed_run_keeps_whole_chunks fuel (lines : list string) :
  let run := retrieve_pages wikidata wikipedia fuel lines in
  run.1 <> Done ->
  exists k absent,
    let n := k * Pos.to_nat MAX_ENTITIES in
    let done := retrieve_pages wikidata wikipedia fuel (take n lines) in
    n < length lines
    /\ done.1 = Done
    /\ out_file run.2 = out_file done.2
    /\ fetched_count run.2 = fetched_count done.2
    /\ no_wifi_file run.2 = no_wifi_file done.2 ++ (no_wiki_line <$> absent)
    /\ no_wiki_count run.2 = no_wiki_count done.2 + length absent
    /\ absent `sublist_of`
         take (Pos.to_nat MAX_ENTITIES) (drop n (rstrip_newlines <$> lines)).
Proof.
  intros run Hfail. unfold run, retrieve_pages in *.
  destruct (chunk_loop_failed wikidata wikipedia fuel _ _ Hfail)
    as (k & c & absent & Hk & Hp & Hs & Hst).
  apply chunks_lookup in Hk as [-> Hlt]. rewrite length_fmap in Hlt.
  exists k, absent. cbn zeta.
  rewrite fmap_take, <- chunks_take, Hst.
  split; [done|]. split; [done|]. by repeat split.
Qed.

(** Lines 80-98.  A chunk in which no entity has an English Wikipedia
    page still asks Wikipedia, for an empty list of titles.  When the
    reply to that request has no ['query'] object the run ends with a
    KeyError, after it wrote every id of the chunk to the file of
    entities without a page. *)
Theorem chunk_without_titles_still_asks_wikipedia fuel (to_fetch : list string)
    (st : files) (link_data : gmap string ent_data) :
  wikidata (String.concat "|" to_fetch) = Some link_data ->
  (forall e, e ∈ to_fetch -> exists d, link_data !! e = Some d /\ no_enwiki d) ->
  query (wikipedia EmptyString None) = None ->
  fetch_chunk wikidata wikipedia fuel to_fetch st
  = (KeyError, write_all_no_wiki to_fetch st).
Proof.
  intros Hwd Hall Hq. unfold fetch_chunk. rewrite Hwd.
  rewrite (link_loop_no_titles to_fetch link_data [] st Hall).
  cbn [fmap list_fmap String.concat]. by rewrite Hq.
Qed.

Lemma chunk_loop_wikidata_ext (wikidata' : string -> option (gmap string ent_data))
    fuel cs st :
  (forall c, c ∈ cs -> wikidata (String.concat "|" c) = wikidata' (String.concat "|" c)) ->
  chunk_loop wikidata wikipedia fuel cs st = chunk_loop wikidata' wikipedia fuel cs st.
Proof.
  revert st. induction cs as [|c cs IH]; intros st Hext; [done|].
  cbn [chunk_loop].
  assert (fetch_chunk wikidata wikipedia fuel c st
          = fetch_chunk wikidata' wikipedia fuel c st) as ->.
  { unfold fetch_chunk. rewrite (Hext c) by by left. done. }
  destruct (fetch_chunk wikidata' wikipedia fuel c st) as [[] st1]; [|done..].
  apply IH. intros c' Hc'. apply Hext. by right.
Qed.

Lemma wikidata_requests_app (log1 log2 : list (@request Cont)) :
  wikidata_requests (log1 ++ log2) = wikidata_requests log1 ++ wikidata_requests log2.
Proof. apply omap_app. Qed.

Lemma continue_loop_log_run fuel titles_param text_data extracts
    (log : list (@request Cont)) :
  let run := continue_loop_log wikipedia fuel titles_param text_data extracts log in
  (run.1.1, run.1.2) = continue_loop wikipedia fuel titles_param text_data extracts
  /\ wikidata_requests run.2 = wikidata_requests log.
Proof.
  revert text_data extracts log.
  induction fuel as [|fuel IH]; intros text_data extracts log;
    cbn [continue_loop_log continue_loop].
  - by destruct (continue text_data).
  - destruct (continue text_data) as [c|]; [|done].
    destruct (query (wikipedia titles_param (Some c))) as [q|].
    + destruct (IH (wikipedia titles_param (Some c))
                  (get_extracts_from_pages (pages q) ∪ extracts)
                  (log ++ [AskWikipedia titles_param (Some c)])) as [H1 H2].
      cbn zeta in *. split; [exact H1|].
      rewrite H2, wikidata_requests_app. cbn. by rewrite app_nil_r.
    + cbn [fst snd]. split; [done|]. rewrite wikidata_requests_app. cbn.
      by rewrite app_nil_r.
Qed.

Lemma fetch_chunk_log_run fuel to_fetch st (log : list (@request Cont)) :
  let run := fetch_chunk_log wikidata wikipedia fuel to_fetch st log in
  (run.1.1, run.1.2) = fetch_chunk wikidata wikipedia fuel to_fetch st
  /\ wikidata_requests run.2
     = wikidata_requests log ++ [String.concat "|" to_fetch].
Proof.
  unfold fetch_chunk_log, fetch_chunk. cbn zeta.
  assert (Hlog : wikidata_requests (log ++ [AskWikidata (String.concat "|" to_fetch)])
                 = wikidata_requests log ++ [String.concat "|" to_fetch]).
  { by rewrite wikidata_requests_app. }
  destruct (wikidata (String.concat "|" to_fetch)) as [link_data|]; [|done].
  destruct (link_loop to_fetch link_data [] st) as [[[] ent_pages] st1]; [|done..].
  assert (Hlog2 : wikidata_requests
                    ((log ++ [AskWikidata (String.concat "|" to_fetch)])
                       ++ [AskWikipedia (String.concat "|" ent_pages.*2) None])
                  = wikidata_requests log ++ [String.concat "|" to_fetch]).
  { rewrite wikidata_requests_app, Hlog. cbn. by rewrite app_nil_r. }
  destruct (query (wikipedia (String.concat "|" ent_pages.*2) None)) as [q|];
    [|done].
  destruct (continue_loop_log_run fuel (String.concat "|" ent_pages.*2)
              (wikipedia (String.concat "|" ent_pages.*2) None)
              (get_extracts_from_pages (pages q))
              ((log ++ [AskWikidata (String.concat "|" to_fetch)])
                 ++ [AskWikipedia (String.concat "|" ent_pages.*2) None]))
    as [H1 H2].
  cbn zeta in *.
  destruct (continue_loop_log wikipedia fuel _ _ _ _) as [[s extracts] log'].
  cbn [fst snd] in *. rewrite <- H1, <- Hlog2, <- H2.
  by destruct s.
Qed.

Lemma chunk_loop_log_run fuel cs st (log : list (@request Cont)) :
  let run := chunk_loop_log wikidata wikipedia fuel cs st log in
  (run.1.1, run.1.2) = chunk_loop wikidata wikipedia fuel cs st
  /\ exists j,
       wikidata_requests run.2
       = wikidata_requests log ++ (String.concat "|" <$> take j cs)
       /\ j <= length cs
       /\ (cs <> [] -> 0 < j)
       /\ (run.1.1 = Done -> j = length cs).
Proof.
  revert st log. induction cs as [|c cs IH]; intros st log.
  - cbn. split; [done|]. exists 0. by rewrite app_nil_r.
  - cbn [chunk_loop_log chunk_loop].
    destruct (fetch_chunk_log_run fuel c st log) as [H1 H2]. cbn zeta in *.
    destruct (fetch_chunk_log wikidata wikipedia fuel c st log) as [[s st1] log1].
    cbn [fst snd] in *. rewrite <- H1.
    assert (Hstop : s <> Done ->
              exists j,
                wikidata_requests log1
                = wikidata_requests log ++ (String.concat "|" <$> take j (c :: cs))
                /\ j <= length (c :: cs)
                /\ (c :: cs <> [] -> 0 < j)
                /\ (s = Done -> j = length (c :: cs))).
    { intros Hs. exists 1. rewrite H2. cbn. rewrite take_0.
      split; [done|]. split; [lia|]. split; [lia|done]. }
    destruct s; [|split; [done|by apply Hstop]..].
    destruct (IH st1 log1) as (Hrun & j & Hj & Hle & _ & Hdone). cbn zeta in *.
    split; [exact Hrun|]. exists (S j). rewrite Hj, H2, <- app_assoc. cbn.
    split; [done|]. split; [lia|]. split; [lia|].
    intros HD. by rewrite (Hdone HD).
Qed.

(** Lines 70-77.  The requests to Wikidata, in the order they are
    made, are for the entities in the order of the input, 50 at a time:
    the run asks about the first [j] chunks of at most [MAX_ENTITIES]
    = 50 ids, at least one when there is an entity, and all of them,
    which together are the entities read, when it finishes, one request
    for every 50 lines begun; no other request goes to Wikidata, and the
    run depends on Wikidata's answers to these requests only. *)
Theorem wikidata_asked_for_at_most_50_ids
    (wikidata' : string -> option (gmap string ent_data)) fuel (lines : list string) :
  let entities := rstrip_newlines <$> lines in
  let cs := chunks MAX_ENTITIES entities in
  let run := retrieve_pages_log wikidata wikipedia fuel lines in
  (run.1.1, run.1.2) = retrieve_pages wikidata wikipedia fuel lines
  /\ (exists j,
        wikidata_requests run.2 = String.concat "|" <$> take j cs
        /\ j <= length cs
        /\ (lines <> [] -> 0 < j)
        /\ (run.1.1 = Done -> j = length cs))
  /\ (forall c, c ∈ cs -> 0 < length c <= 50)
  /\ concat cs = entities
  /\ length cs = (length lines + 49) / 50
  /\ ((forall c, c ∈ cs ->
         wikidata (String.concat "|" c) = wikidata' (String.concat "|" c)) ->
      retrieve_pages wikidata wikipedia fuel lines
      = retrieve_pages wikidata' wikipedia fuel lines).
Proof.
  intros entities cs run.
  destruct (chunk_loop_log_run fuel cs (MkFiles [] [] 0 0) [])
    as (Hrun & j & Hj & Hle & Hpos & Hdone).
  split; [exact Hrun|]. split; [|split; [|split; [|split]]].
  - exists j. split; [exact Hj|]. split; [exact Hle|]. split; [|exact Hdone].
    intros Hl. apply Hpos. intros Hcs. apply chunks_nil_inv in Hcs.
    by apply fmap_nil_inv in Hcs.
  - intros c Hc. apply chunks_length in Hc. unfold MAX_ENTITIES in Hc. lia.
  - apply chunks_concat.
  - unfold cs. rewrite chunks_count. unfold entities. rewrite length_fmap.
    by replace (length lines + Pos.to_nat MAX_ENTITIES - 1)
      with (length lines + 49) by (unfold MAX_ENTITIES; lia).
  - intros Hext. by apply chunk_loop_wikidata_ext.
Qed.

Lemma chunk_loop_wikipedia_ext (wikipedia' : string -> option Cont -> wp_reply Cont)
    fuel cs st :
  (forall t, wikipedia t None = wikipedia' t None) ->
  (forall t c,
     continue (wikipedia t (Some c)) = continue (wikipedia' t (Some c))
     /\ pages <$> query (wikipedia t (Some c))
        = pages <$> query (wikipedia' t (Some c))) ->
  chunk_loop wikidata wikipedia fuel cs st = chunk_loop wikidata wikipedia' fuel cs st.
Proof.
  intros Hfirst Hnext. revert st. induction cs as [|c cs IH]; intros st; [done|].
  cbn [chunk_loop].
  assert (fetch_chunk wikidata wikipedia fuel c st
          = fetch_chunk wikidata wikipedia' fuel c st) as ->.
  { unfold fetch_chunk.
    destruct (wikidata (String.concat "|" c)) as [link_data|]; [|done].
    destruct (link_loop c link_data [] st) as [[[] ent_pages] st1]; [|done..].
    rewrite <- Hfirst.
    destruct (query (wikipedia (String.concat "|" ent_pages.*2) None)) as [q|];
      [|done].
    by rewrite (continue_loop_ext wikipedia wikipedia' fuel _ _
                  (wikipedia (String.concat "|" ent_pages.*2) None) _ Hnext eq_refl). }
  destruct (fetch_chunk wikidata wikipedia' fuel c st) as [[] st1]; [|done..].
  apply IH.
Qed.

(** Lines 99-109.  The redirects are read from the first reply of a
    chunk only: two Wikipedias whose first replies are the same and whose
    continuation replies have the same pages and the same ['continue']
    give the same run, whatever redirects the continuation replies
    announce. *)
Theorem continuation_redirects_are_not_read
    (wikipedia' : string -> option Cont -> wp_reply Cont) fuel (lines : list string) :
  (forall t, wikipedia t None = wikipedia' t None) ->
  (forall t c,
     continue (wikipedia t (Some c)) = continue (wikipedia' t (Some c))
     /\ pages <$> query (wikipedia t (Some c))
        = pages <$> query (wikipedia' t (Some c))) ->
  retrieve_pages wikidata wikipedia fuel lines
  = retrieve_pages wikidata wikipedia' fuel lines.
Proof.
  intros Hfirst Hnext. by apply chunk_loop_wikipedia_ext.
Qed.

Lemma record_of_Some link_data redir_titles extracts e r :
  record_of link_data redir_titles extracts e = Some r
  <-> exists t text,
        enwiki_title link_data e = Some t
        /\ extracts !! redirected redir_titles t = Some text
        /\ r = (e, redirected redir_titles t, text).
Proof.
  unfold record_of. destruct (enwiki_title link_data e) as [t|]; cbn.
  - destruct (extracts !! redirected redir_titles t) as [text|] eqn:E; cbn.
    + split.
      * intros [= <-]. by exists t, text.
      * intros (t' & text' & [= <-] & Hx & ->). rewrite E in Hx. by injection Hx as ->.
    + split; [done|]. intros (t' & text' & [= <-] & Hx & _). by rewrite E in Hx.
  - split; [done|]. by intros (t' & text' & ? & _).
Qed.

Lemma record_of_None link_data redir_titles extracts e :
  record_of link_data redir_titles extracts e = None
  <-> enwiki_title link_data e = None
      \/ exists t, enwiki_title link_data e = Some t
                   /\ extracts !! redirected redir_titles t = None.
Proof.
  unfold record_of. destruct (enwiki_title link_data e) as [t|]; cbn.
  - destruct (extracts !! redirected redir_titles t) as [text|] eqn:E; cbn.
    + split; [done|]. intros [?|(t' & [= <-] & Hx)]; [done|]. by rewrite E in Hx.
    + split; [|done]. intros _. right. by exists t.
  - split; [|done]. intros _. by left.
Qed.

Lemma chunk_records_elem link_data redir_titles extracts to_fetch e :
  e ∈ record_ids (omap (record_of link_data redir_titles extracts) to_fetch)
  <-> e ∈ to_fetch /\ is_Some (record_of link_data redir_titles extracts e).
Proof.
  unfold record_ids. rewrite list_elem_of_fmap. split.
  - intros (r & -> & Hr). apply list_elem_of_omap in Hr as (e' & He' & Hr).
    pose proof Hr as Hr'. apply record_of_Some in Hr' as (t & text & _ & _ & ->).
    cbn. split; [done|]. by eexists.
  - intros [He [r Hr]]. exists r. split.
    + apply record_of_Some in Hr as (t & text & _ & _ & ->). done.
    + apply list_elem_of_omap. by exists e.
Qed.

Lemma chunk_absent_elem link_data redir_titles extracts to_fetch e :
  e ∈ chunk_absent link_data redir_titles extracts to_fetch
  <-> e ∈ to_fetch /\ record_of link_data redir_titles extracts e = None.
Proof.
  unfold chunk_absent. rewrite elem_of_app, !list_elem_of_filter. split.
  - intros [[Hn He]|[[_ Hn] He]]; (split; [done|]); [|done].
    apply record_of_None. by left.
  - intros [He Hn]. destruct (enwiki_title link_data e) as [t|] eqn:Ht.
    + right. split; [|done]. split; [by eexists|done].
    + by left.
Qed.

Lemma fetch_chunk_done_data fuel to_fetch st :
  (fetch_chunk wikidata wikipedia fuel to_fetch st).1 = Done ->
  is_Some (chunk_data wikidata wikipedia fuel to_fetch)
  /\ (fetch_chunk wikidata wikipedia fuel to_fetch st).2
     = write_all_no_wiki (chunk_no_wiki wikidata wikipedia fuel to_fetch)
         (write_all_descriptions (chunk_records wikidata wikipedia fuel to_fetch)
            st).
Proof.
  intros HD.
  destruct (fetch_chunk_run wikidata wikipedia fuel to_fetch st HD)
    as (link_data & q & Hwd & Hq & ->).
  unfold chunk_records, chunk_no_wiki, chunk_data. rewrite Hwd. cbn.
  rewrite Hq. cbn. split; [by eexists|done].
Qed.

Lemma chunk_loop_done_data fuel cs st :
  (chunk_loop wikidata wikipedia fuel cs st).1 = Done ->
  (forall c, c ∈ cs -> is_Some (chunk_data wikidata wikipedia fuel c))
  /\ (chunk_loop wikidata wikipedia fuel cs st).2
     = write_all_no_wiki (concat (chunk_no_wiki wikidata wikipedia fuel <$> cs))
         (write_all_descriptions
            (concat (chunk_records wikidata wikipedia fuel <$> cs)) st).
Proof.
  revert st. induction cs as [|c cs IH]; intros st.
  - intros _. split; [by intros c Hc; apply elem_of_nil in Hc|].
    cbn. by rewrite write_all_no_wiki_nil, write_all_descriptions_nil.
  - cbn [chunk_loop fmap list_fmap concat].
    pose proof (fetch_chunk_done_data fuel c st) as Hc.
    destruct (fetch_chunk wikidata wikipedia fuel c st) as [[] st1]; [|done..].
    destruct (Hc eq_refl) as [Hd Hst]. cbn [snd] in Hst. subst st1.
    intros HD. destruct (IH _ HD) as [Hall ->].
    split; [|apply write_all_app].
    intros c' Hc'. apply elem_of_cons in Hc' as [->|Hc']; [done|by apply Hall].
Qed.

Lemma chunks_account fuel cs :
  (forall c, c ∈ cs -> is_Some (chunk_data wikidata wikipedia fuel c)) ->
  record_ids (concat (chunk_records wikidata wikipedia fuel <$> cs))
    ++ concat (chunk_no_wiki wikidata wikipedia fuel <$> cs)
  ≡ₚ concat cs.
Proof.
  induction cs as [|c cs IH]; intros Hall; [done|].
  cbn [fmap list_fmap concat]. unfold record_ids in *. rewrite fmap_app.
  rewrite <- IH by (intros c' Hc'; apply Hall; by right).
  destruct (Hall c) as [[[link_data redir_titles] extracts] Hd]; [by left|].
  rewrite <- (chunk_accounts link_data redir_titles extracts c) at 3.
  unfold chunk_records at 1, chunk_no_wiki at 1. rewrite Hd.
  unfold record_ids. rewrite <- !app_assoc. apply Permutation_app_head.
  rewrite !app_assoc. apply Permutation_app_tail, Permutation_app_comm.
Qed.


End RunFacts.

(** The chunk of the example: Q1 is written under the title its own
    title redirects to, with the extract the continuation brought. *)
Lemma chunk_writes_redirected_records_witness :
  (fetch_chunk ex_redirect_wikidata ex_redirect_wikipedia 1 ["Q1"; "Q2"]
     (MkFiles [] [] 0 0)).1 = Done
  /\ out_file (fetch_chunk ex_redirect_wikidata ex_redirect_wikipedia 1
                 ["Q1"; "Q2"] (MkFiles [] [] 0 0)).2
     = ["Q1 One: first second" +:+ nl; "Q2 Dos: dos" +:+ nl]
  /\ exists link_data q,
       ex_redirect_wikidata "Q1|Q2" = Some link_data
       /\ query (ex_redirect_wikipedia
                   (String.concat "|" (chunk_titles link_data ["Q1"; "Q2"])) None)
          = Some q
       /\ out_file (fetch_chunk ex_redirect_wikidata ex_redirect_wikipedia 1
                      ["Q1"; "Q2"] (MkFiles [] [] 0 0)).2
          = description_line
              <$> omap (record_of link_data (redirect_titles (redirects q))
                          (chunk_extracts ex_redirect_wikipedia 1
                             (String.concat "|" (chunk_titles link_data ["Q1"; "Q2"]))
                             q))
                    ["Q1"; "Q2"].
Proof.
  split; [reflexivity|]. split; [reflexivity|].
  destruct (chunk_writes_redirected_records ex_redirect_wikidata
              ex_redirect_wikipedia 1 ["Q1"; "Q2"] (MkFiles [] [] 0 0) eq_refl)
    as (link_data & q & Hwd & Hq & Ho & _).
  exists link_data, q. split; [exact Hwd|]. split; [exact Hq|]. exact Ho.
Defined.

(** Fifty-one lines, the last of which Wikidata has no answer for: the
    run ends with a KeyError after one whole chunk. *)
Lemma failed_run_keeps_whole_chunks_witness :
  (retrieve_pages ex_long_wikidata ex_long_wikipedia 0 ex_long_lines).1 = KeyError
  /\ exists k absent,
       k * Pos.to_nat MAX_ENTITIES < length ex_long_lines
       /\ (retrieve_pages ex_long_wikidata ex_long_wikipedia 0
             (take (k * Pos.to_nat MAX_ENTITIES) ex_long_lines)).1 = Done
       /\ no_wifi_file
            (retrieve_pages ex_long_wikidata ex_long_wikipedia 0 ex_long_lines).2
          = no_wifi_file
              (retrieve_pages ex_long_wikidata ex_long_wikipedia 0
                 (take (k * Pos.to_nat MAX_ENTITIES) ex_long_lines)).2
            ++ (no_wiki_line <$> absent).
Proof.
  split; [by vm_compute|].
  destruct (failed_run_keeps_whole_chunks ex_long_wikidata ex_long_wikipedia 0
              ex_long_lines) as (k & absent & Hk & HD & _ & _ & Hn & _).
  { by vm_compute. }
  exists k, absent. split; [exact Hk|]. split; [exact HD|]. exact Hn.
Defined.

(** Two entities without an English page and a Wikipedia that answers
    the request without titles with a reply without a query. *)
Lemma chunk_without_titles_still_asks_wikipedia_witness :
  fetch_chunk ex_no_pages_wikidata ex_no_pages_wikipedia 0 ["Q7"; "Q8"]
    (MkFiles [] [] 0 0)
  = (KeyError, MkFiles [] ["Q7" +:+ nl; "Q8" +:+ nl] 0 2).
Proof.
  apply (chunk_without_titles_still_asks_wikipedia ex_no_pages_wikidata
           ex_no_pages_wikipedia 0 ["Q7"; "Q8"] (MkFiles [] [] 0 0)
           (<["Q7" := MkEntData true None]>
              (<["Q8" := MkEntData false (Some ∅)]> ∅))).
  - reflexivity.
  - intros e He. apply elem_of_cons in He as [->|He].
    { eexists. split; [reflexivity|]. by left. }
    apply elem_of_cons in He as [->|He].
    { eexists. split; [reflexivity|]. right. eexists. split; reflexivity. }
    by apply elem_of_nil in He.
  - reflexivity.
Defined.

(** Three entities are one request; fifty-one entities, the last of
    which Wikidata has no answer for, are two.  A Wikidata that answers
    the one request of a run and no other gives the run a Wikidata that
    answers every request gives. *)
Lemma wikidata_asked_for_at_most_50_ids_witness :
  wikidata_requests (retrieve_pages_log ex_wikidata ex_wikipedia 1 ex_lines).2
  = ["Q1|Q2|Q3"]
  /\ length (wikidata_requests
               (retrieve_pages_log ex_long_wikidata ex_long_wikipedia 0
                  ex_long_lines).2) = 2
  /\ (exists j,
        wikidata_requests (retrieve_pages_log ex_wikidata ex_wikipedia 1 ex_lines).2
        = String.concat "|"
            <$> take j (chunks MAX_ENTITIES (rstrip_newlines <$> ex_lines))
        /\ j = 1)
  /\ retrieve_pages ex_no_pages_wikidata ex_long_wikipedia 0 ["Q7" +:+ nl; "Q8"]
     = retrieve_pages ex_strict_wikidata ex_long_wikipedia 0 ["Q7" +:+ nl; "Q8"].
Proof.
  split; [reflexivity|]. split; [reflexivity|]. split.
  - destruct (wikidata_asked_for_at_most_50_ids ex_wikidata ex_wikipedia ex_wikidata
                1 ex_lines) as (_ & (j & Hj & _ & _ & Hdone) & _).
    exists j. split; [exact Hj|]. exact (Hdone eq_refl).
  - destruct (wikidata_asked_for_at_most_50_ids ex_no_pages_wikidata
                ex_long_wikipedia ex_strict_wikidata 0 ["Q7" +:+ nl; "Q8"])
      as (_ & _ & _ & _ & _ & Hsame).
    apply Hsame. intros c Hc.
    change (chunks MAX_ENTITIES (rstrip_newlines <$> ["Q7" +:+ nl; "Q8"]))
      with [["Q7"; "Q8"]] in Hc.
    apply list_elem_of_singleton in Hc as ->. reflexivity.
Defined.

(** The redirect from Uno to One that only the continuation announces
    changes nothing: Q1, known to Wikidata as Uno, goes to the file of
    entities without a page although the extract of One was received. *)
Lemma continuation_redirects_are_not_read_witness :
  retrieve_pages ex_redirect_wikidata ex_late_redirect_wikipedia 1
    ["Q1" +:+ nl; "Q2" +:+ nl]
  = retrieve_pages ex_redirect_wikidata ex_no_redirect_wikipedia 1
      ["Q1" +:+ nl; "Q2" +:+ nl]
  /\ retrieve_pages ex_redirect_wikidata ex_late_redirect_wikipedia 1
       ["Q1" +:+ nl; "Q2" +:+ nl]
     = (Done, MkFiles ["Q2 Dos: dos" +:+ nl] ["Q1" +:+ nl] 1 1).
Proof.
  split; [|reflexivity].
  apply (continuation_redirects_are_not_read ex_redirect_wikidata
           ex_late_redirect_wikipedia ex_no_redirect_wikipedia 1
           ["Q1" +:+ nl; "Q2" +:+ nl]).
  - intros t. reflexivity.
  - intros t []. split; reflexivity.
Defined.



End FetchExtraFacts.

(* ===================================================================== *)
(** * The requests for the extracts of a chunk *)
(* ===================================================================== *)

Module FetchNetFacts.
Import Fetch FetchNet FetchFacts FetchExtraFacts.

Lemma continuation_body_round (attempt : nat -> outcome Response) titles_param
    text_data extracts c (s : net) :
  continue text_data = Some c ->
  interp_state (handle_net attempt)
    (continuation_body titles_param (text_data, extracts)) s
  ≈ Ret (MkNet (S (requests_made s)) (slept s),
         match attempt (requests_made s) with
         | Returned text_data' =>
             match query text_data' with
             | Some q =>
                 inl (text_data', get_extracts_from_pages (pages q) ∪ extracts)
             | None => inr (Raised (OtherException "KeyError"))
             end
         | Raised e => inr (Raised e)
         end).
Proof.
  intros Hc. unfold continuation_body. cbn [fst snd]. rewrite Hc.
  rewrite interp_state_bind, interp_state_trigger. cbn. rewrite bind_ret_l. cbn.
  destruct (attempt (requests_made s)) as [text_data'|e].
  - destruct (query text_data'); by rewrite interp_state_ret.
  - by rewrite interp_state_ret.
Qed.

(** Lines 95-109.  Connection errors are slept over only before the
    first reply.  When the first [n] requests fail with a connection
    error, the next is answered with a reply that asks for a
    continuation, and the continuation request fails with a connection
    error, the function makes these [n + 2] requests, sleeps [n] times
    five seconds, and ends with the connection error of the
    continuation request: that request is not made again. *)
Theorem continuation_request_is_not_retried (attempt : nat -> outcome Response)
    (titles_param : string) (n : nat) (text_data : Response) (q : wp_query)
    (c : Cont) :
  (forall j, j < n -> attempt j = Raised ConnectionError) ->
  attempt n = Returned text_data ->
  query text_data = Some q ->
  continue text_data = Some c ->
  attempt (S n) = Raised ConnectionError ->
  interp_state (handle_net attempt) (fetch_extracts titles_param) (MkNet 0 0)
  ≈ Ret (MkNet (S (S n)) (n * 5), Raised ConnectionError).
Proof.
  intros Hfail Hn Hq Hc Hnext. unfold fetch_extracts.
  rewrite interp_state_bind.
  rewrite (get_retry_run WIKIPEDIA_BASE_URL [("titles", titles_param)] 5
             attempt n 0 0).
  2:{ intros j Hj. by apply Hfail. }
  2:{ cbn [Nat.add]. by rewrite Hn. }
  rewrite bind_ret_l. cbn [Nat.add fst snd]. rewrite Hn, Hq. cbn zeta.
  rewrite interp_state_bind, unfold_iter, interp_state_bind.
  rewrite (continuation_body_round attempt titles_param text_data _ c _ Hc).
  cbn [requests_made slept]. rewrite Hnext.
  rewrite !bind_ret_l. cbn. rewrite interp_state_ret, bind_ret_l. cbn.
  by rewrite interp_state_ret.
Qed.

(** One failure, a first reply with a continuation, then a failure:
    three requests, five seconds asleep, and the run ends. *)
Lemma continuation_request_is_not_retried_witness :
  interp_state (handle_net ex_attempts) (fetch_extracts "One") (MkNet 0 0)
  ≈ Ret (MkNet 3 5, Raised ConnectionError).
Proof.
  apply (continuation_request_is_not_retried ex_attempts "One" 1 ex_first_reply
           (MkQuery [("1", MkPage "One" (Some "one"))] None)
           [("excontinue", "1")]).
  - intros j Hj. by destruct j as [|j]; [|lia].
  - reflexivity.
  - reflexivity.
  - reflexivity.
  - reflexivity.
Defined.

Lemma continuation_answered (attempt : nat -> outcome Response) titles_param
    (rs : list Response) text_data ps k t :
  answered attempt k text_data rs ->
  interp_state (handle_net attempt)
    (ITree.iter (continuation_body titles_param)
       (text_data, get_extracts_from_pages ps)) (MkNet k t)
  ≈ Ret (MkNet (k + length rs) t,
         Returned (get_extracts_from_pages (ps ++ concat (pages_of <$> rs)))).
Proof.
  revert text_data ps k. induction rs as [|r rs IH]; intros text_data ps k Hans.
  - cbn in Hans. rewrite unfold_iter. unfold continuation_body at 1.
    cbn [fst snd]. rewrite Hans, bind_ret_l, interp_state_ret.
    cbn. by rewrite Nat.add_0_r, app_nil_r.
  - destruct Hans as ([c Hc] & Hk & [q Hq] & Hrest).
    rewrite unfold_iter, interp_state_bind.
    rewrite (continuation_body_round attempt titles_param text_data _ c _ Hc).
    cbn [requests_made slept]. rewrite Hk, Hq, bind_ret_l.
    cbn [fst snd]. rewrite interp_state_tau, tau_eutt, <- get_extracts_app.
    rewrite (IH r (ps ++ pages q) (S k) Hrest).
    cbn [fmap list_fmap concat length]. unfold pages_of at 2. rewrite Hq.
    rewrite <- app_assoc. by replace (S k + length rs) with (k + S (length rs)) by lia.
Qed.

(** Lines 95-109.  When, after [n] connection errors, the first request
    and the continuation requests are all answered with replies that
    have a ['query'], the last one asking for no continuation, the
    function ends: it has made one request for each reply, slept [n]
    times five seconds, and returns the extracts of the pages of all the
    replies in the order they came, with the redirects of the first
    reply. *)
Theorem fetch_extracts_collects_all_replies (attempt : nat -> outcome Response)
    (titles_param : string) (n : nat) (text_data : Response) (q : wp_query)
    (rs : list Response) :
  (forall j, j < n -> attempt j = Raised ConnectionError) ->
  attempt n = Returned text_data ->
  query text_data = Some q ->
  answered attempt (S n) text_data rs ->
  interp_state (handle_net attempt) (fetch_extracts titles_param) (MkNet 0 0)
  ≈ Ret (MkNet (S n + length rs) (n * 5),
         Returned (get_extracts_from_pages (pages q ++ concat (pages_of <$> rs)),
                   redirect_titles (redirects q))).
Proof.
  intros Hfail Hn Hq Hans. unfold fetch_extracts.
  rewrite interp_state_bind.
  rewrite (get_retry_run WIKIPEDIA_BASE_URL [("titles", titles_param)] 5
             attempt n 0 0).
  2:{ intros j Hj. by apply Hfail. }
  2:{ cbn [Nat.add]. by rewrite Hn. }
  rewrite bind_ret_l. cbn [Nat.add fst snd]. rewrite Hn, Hq. cbn zeta.
  rewrite interp_state_bind.
  rewrite (continuation_answered attempt titles_param rs text_data (pages q)
             (S n) (n * 5) Hans).
  rewrite bind_ret_l. cbn. by rewrite interp_state_ret.
Qed.

(** One failure, then two replies: three requests, five seconds asleep,
    and the extracts of both replies, each on one line. *)
Lemma fetch_extracts_collects_all_replies_witness :
  interp_state (handle_net ex_attempts_answered) (fetch_extracts "One|Two")
    (MkNet 0 0)
  ≈ Ret (MkNet 3 5,
         Returned (<["Two" := "two lines"]> (<["One" := "one"]> ∅), ∅)).
Proof.
  apply (fetch_extracts_collects_all_replies ex_attempts_answered "One|Two" 1
           ex_first_reply (MkQuery [("1", MkPage "One" (Some "one"))] None)
           [ex_last_reply]).
  - intros j Hj. by destruct j as [|j]; [|lia].
  - reflexivity.
  - reflexivity.
  - split; [by eexists|]. split; [reflexivity|]. split; [by eexists|]. reflexivity.
Defined.

End FetchNetFacts.

(* ===================================================================== *)
(** * The evaluator's sums in floating point *)
(* ===================================================================== *)

Module TrainRoundingFacts.
Import Train TrainExamples TrainFacts TrainRounding.

(** ** Rounding to a binary float *)

Lemma nearest_even_spec (y : Q) :
  (y - (1 # 2) <= inject_Z (nearest_even y))%Q
  /\ (inject_Z (nearest_even y) <= y + (1 # 2))%Q.
Proof.
  unfold nearest_even.
  pose proof (Qfloor_le y) as Hlo. pose proof (Qlt_floor y) as Hhi.
  rewrite inject_Z_plus in Hhi.
  destruct (Qcompare_spec (y - inject_Z (Qfloor y)) (1 # 2)) as [He|Hl|Hg];
    [destruct (Z.even (Qfloor y))| |];
    rewrite ?inject_Z_plus; change (inject_Z 1) with 1%Q in *; split; lra.
Qed.

Lemma two_nonzero : ~ (2 == 0)%Q.
Proof. discriminate. Qed.

Lemma Qpower2_pos (z : Z) : (0 < 2 ^ z)%Q.
Proof. by apply Qpower_0_lt. Qed.

Lemma Qpower2_pred (z : Z) : (2 ^ (z - 1) == 2 ^ z * (1 # 2))%Q.
Proof. rewrite Qpower_minus by exact two_nonzero. reflexivity. Qed.

Lemma inject_Z_pow2 (z : Z) : (0 <= z)%Z -> (inject_Z (2 ^ z) == 2 ^ z)%Q.
Proof. intros Hz. by rewrite Zpower_Qpower. Qed.

(** The first guess of the exponent is not too large. *)
Lemma ulp_exponent_first (p : Z) (x : Q) :
  (0 < x)%Q ->
  (2 ^ (p - 1)
   <= x * 2 ^ (- (Z.log2 (Qnum x) - Z.log2 (Zpos (Qden x)) - p)))%Q.
Proof.
  intros Hx.
  set (a := Z.log2 (Qnum x)). set (b := Z.log2 (Z.pos (Qden x))).
  assert (Hn : (0 < Qnum x)%Z)
    by (destruct x as [n d]; unfold Qlt in Hx; simpl in *; lia).
  destruct (Z.log2_spec _ Hn) as [Ha _]. fold a in Ha.
  destruct (Z.log2_spec (Z.pos (Qden x)) eq_refl) as [_ Hb]. fold b in Hb.
  assert (Ha0 : (0 <= a)%Z) by apply Z.log2_nonneg.
  assert (Hb0 : (0 <= b)%Z) by apply Z.log2_nonneg.
  assert (HA : (2 ^ a <= inject_Z (Qnum x))%Q).
  { rewrite <- inject_Z_pow2 by done. by rewrite <- Zle_Qle. }
  assert (HB : (inject_Z (Z.pos (Qden x)) <= 2 ^ (b + 1))%Q).
  { rewrite <- inject_Z_pow2 by lia. rewrite <- Zle_Qle.
    replace (b + 1)%Z with (Z.succ b) by lia. lia. }
  assert (HD : (0 < inject_Z (Z.pos (Qden x)))%Q) by done.
  assert (Hpow : (2 ^ (- (a - b - p)) == 2 ^ (p - 1) * 2 ^ (b + 1) / 2 ^ a)%Q).
  { replace (- (a - b - p))%Z with ((p - 1) + (b + 1) - a)%Z by lia.
    rewrite (Qpower_minus 2 _ a two_nonzero).
    by rewrite (Qpower_plus 2 (p - 1) (b + 1) two_nonzero). }
  rewrite Hpow. clear Hpow.
  pose proof (Qpower2_pos a) as Pa. pose proof (Qpower2_pos (b + 1)) as Pb.
  pose proof (Qpower2_pos (p - 1)) as Pp.
  set (A := (2 ^ a)%Q) in *. set (B := (2 ^ (b + 1))%Q) in *.
  set (P1 := (2 ^ (p - 1))%Q) in *.
  set (N := inject_Z (Qnum x)) in *. set (D := inject_Z (Z.pos (Qden x))) in *.
  assert (Ht1 : (1 <= N / A)%Q) by (apply Qle_shift_div_l; [done|lra]).
  assert (Ht2 : (1 <= B / D)%Q) by (apply Qle_shift_div_l; [done|lra]).
  assert (Hx' : (x * (P1 * B / A) == P1 * (N / A) * (B / D))%Q).
  { assert (Hxq : (x == N / D)%Q).
    { unfold N, D. rewrite <- Qmake_Qdiv. by destruct x. }
    rewrite Hxq. field. split; lra. }
  rewrite Hx'.
  assert (0 <= P1 * (N / A - 1))%Q by (apply Qmult_le_0_compat; lra).
  assert (0 <= P1 * (N / A) * (B / D - 1))%Q.
  { apply Qmult_le_0_compat; [apply Qmult_le_0_compat|]; lra. }
  lra.
Qed.

(** The scaled value has at least [p] bits before the point. *)
Lemma ulp_exponent_scaled (p : Z) (x : Q) :
  (0 < x)%Q -> (2 ^ (p - 1) <= x * 2 ^ (- ulp_exponent p x))%Q.
Proof.
  intros Hx. unfold ulp_exponent.
  pose proof (ulp_exponent_first p x Hx) as H0.
  set (e0 := (Z.log2 (Qnum x) - Z.log2 (Zpos (Qden x)) - p)%Z) in *.
  destruct (Qle_bool (2 ^ p) (x * 2 ^ (- e0))) eqn:E; [|done].
  apply Qle_bool_iff in E.
  replace (- (e0 + 1))%Z with (- e0 - 1)%Z by lia.
  rewrite !Qpower2_pred.
  clear H0. set (t := (2 ^ (- e0))%Q) in *. set (s := (2 ^ p)%Q) in *.
  clearbody t s. lra.
Qed.

Lemma round_pos_within (p : Z) (x : Q) :
  (0 < x)%Q ->
  ((1 - 2 ^ (- p)) * x <= round_pos p x)%Q
  /\ (round_pos p x <= (1 + 2 ^ (- p)) * x)%Q.
Proof.
  intros Hx. unfold round_pos.
  pose proof (ulp_exponent_scaled p x Hx) as Hs.
  set (e := ulp_exponent p x) in *.
  destruct (nearest_even_spec (x * 2 ^ (- e))) as [Hlo Hhi].
  set (m := inject_Z (nearest_even (x * 2 ^ (- e)))) in *.
  assert (He : (2 ^ (- e) == / 2 ^ e)%Q) by apply Qpower_opp.
  assert (Hp : (2 ^ (- p) == / 2 ^ p)%Q) by apply Qpower_opp.
  rewrite Qpower2_pred in Hs. rewrite He in *. rewrite Hp.
  pose proof (Qpower2_pos e) as Pe. pose proof (Qpower2_pos p) as Pp.
  set (E := (2 ^ e)%Q) in *. set (P := (2 ^ p)%Q) in *. clearbody m E P.
  clear He Hp.
  assert (Hx' : (x == x * / E * E)%Q) by (field; lra).
  assert (HPi : (0 < / P)%Q) by (by apply Qinv_lt_0_compat).
  assert (HPP : (P * / P == 1)%Q) by (field; lra).
  set (y := (x * / E)%Q) in *. set (Pi := (/ P)%Q) in *. clearbody y Pi.
  assert (Hy : (0 <= Pi * (y - P * (1 # 2)))%Q) by (apply Qmult_le_0_compat; lra).
  assert (H1 : (0 <= E * (m - y + Pi * y))%Q) by (apply Qmult_le_0_compat; lra).
  assert (H2 : (0 <= E * (y + Pi * y - m))%Q) by (apply Qmult_le_0_compat; lra).
  rewrite Hx'. split; lra.
Qed.

(** Rounding to [p] bits has relative error at most [2^-p]. *)
Lemma round_float_within (p : Z) : rounds_within (2 ^ (- p)) (round_float p).
Proof.
  intros x Hx. unfold round_float.
  destruct x as [[|n|n] d].
  - split; unfold Qle; simpl; lia.
  - by apply round_pos_within.
  - by destruct Hx.
Qed.

(** ** Sums of values that are not negative *)

Lemma Qpower_succ (x : Q) (k : nat) :
  (x ^ Z.of_nat (S k) == x * x ^ Z.of_nat k)%Q.
Proof.
  rewrite Nat2Z.inj_succ. unfold Z.succ.
  rewrite Qpower_plus' by lia. rewrite Qpower_1_r. ring.
Qed.

Lemma Qnat_nonneg (n : nat) : (0 <= Qnat n)%Q.
Proof. unfold Qnat, Qle. simpl. lia. Qed.

Lemma Qdiv_nonneg (a b : Q) : (0 <= a)%Q -> (0 <= b)%Q -> (0 <= a / b)%Q.
Proof.
  intros Ha Hb. unfold Qdiv. apply Qmult_le_0_compat; [done|].
  by apply Qinv_le_0_compat.
Qed.

Lemma qsum_nonneg (l : list Q) : Forall (fun x => (0 <= x)%Q) l -> (0 <= qsum l)%Q.
Proof.
  induction 1 as [|x l Hx _ IH]; [done|]. rewrite qsum_cons. lra.
Qed.

Lemma hit_at_k_nonneg p t k : (0 <= Utils.hit_at_k p t k)%Q.
Proof.
  unfold Utils.hit_at_k. apply Qdiv_nonneg; [|apply Qnat_nonneg].
  apply qsum_nonneg, Forall_fmap, Forall_forall. intros r _.
  unfold compose, Utils.hit. by destruct (_ <=? _).
Qed.

Lemma mrr_nonneg p t : (0 <= Utils.mrr p t)%Q.
Proof.
  unfold Utils.mrr. apply Qdiv_nonneg; [|apply Qnat_nonneg].
  apply qsum_nonneg, Forall_fmap, Forall_forall. intros r _.
  unfold compose, Utils.reciprocal_rank. apply Qdiv_nonneg; [done|apply Qnat_nonneg].
Qed.

(** Each addition loses or gains at most a factor. *)
Lemma foldl_rounded_within (rnd : Q -> Q) (u : Q) (xs : list Q) (a : Q) :
  rounds_within u rnd -> (0 <= u)%Q -> (u <= 1)%Q ->
  (0 <= a)%Q -> Forall (fun x => (0 <= x)%Q) xs ->
  ((1 - u) ^ Z.of_nat (length xs) * (a + qsum xs)
   <= foldl (fun acc x => rnd (acc + x)%Q) a xs)%Q
  /\ (foldl (fun acc x => rnd (acc + x)%Q) a xs
      <= (1 + u) ^ Z.of_nat (length xs) * (a + qsum xs))%Q.
Proof.
  intros rnd_within u_nonneg u_le_1 Ha Hxs. revert a Ha.
  induction Hxs as [|x xs Hx Hxs IH]; intros a Ha.
  - cbn [foldl length]. change (Z.of_nat 0) with 0%Z.
    rewrite !Qpower_0_r, qsum_nil. split; lra.
  - cbn [foldl]. rewrite qsum_cons.
    destruct (rnd_within (a + x)%Q) as [Hlo Hhi]; [lra|].
    assert (Hr : (0 <= rnd (a + x))%Q).
    { assert (0 <= (1 - u) * (a + x))%Q by (apply Qmult_le_0_compat; lra). lra. }
    destruct (IH _ Hr) as [IHlo IHhi].
    pose proof (qsum_nonneg xs Hxs) as Hs.
    change (length (x :: xs)) with (S (length xs)). rewrite !Qpower_succ.
    assert (HP : (0 <= (1 - u) ^ Z.of_nat (length xs))%Q) by (apply Qpower_0_le; lra).
    assert (HQ : (0 <= (1 + u) ^ Z.of_nat (length xs))%Q) by (apply Qpower_0_le; lra).
    set (Pn := ((1 - u) ^ Z.of_nat (length xs))%Q) in *.
    set (Qn := ((1 + u) ^ Z.of_nat (length xs))%Q) in *.
    set (h := rnd (a + x)%Q) in *.
    set (r := foldl (fun acc x => rnd (acc + x)%Q) h xs) in *.
    set (T := qsum xs) in *. clearbody Pn Qn h r T.
    assert (0 <= Pn * (h - (1 - u) * (a + x)))%Q by (apply Qmult_le_0_compat; lra).
    assert (0 <= Pn * (T * u))%Q
      by (apply Qmult_le_0_compat; [lra|apply Qmult_le_0_compat; lra]).
    assert (0 <= Qn * ((1 + u) * (a + x) - h))%Q by (apply Qmult_le_0_compat; lra).
    assert (0 <= Qn * (T * u))%Q
      by (apply Qmult_le_0_compat; [lra|apply Qmult_le_0_compat; lra]).
    split; lra.
Qed.

Lemma qsum_within (e : Q) (xs ss : list Q) :
  (e <= 1)%Q ->
  Forall2 (fun x s => (0 <= s)%Q /\ ((1 - e) * s <= x)%Q /\ (x <= (1 + e) * s)%Q)
    xs ss ->
  Forall (fun x => (0 <= x)%Q) xs
  /\ (0 <= qsum ss)%Q
  /\ ((1 - e) * qsum ss <= qsum xs)%Q /\ (qsum xs <= (1 + e) * qsum ss)%Q.
Proof.
  intros e_le_1.
  induction 1 as [|x s xs ss (Hs & Hlo & Hhi) _ (IH0 & IH1 & IH2 & IH3)].
  - rewrite !qsum_nil. repeat split; [constructor|lra..].
  - rewrite !qsum_cons.
    assert (0 <= (1 - e) * s)%Q by (apply Qmult_le_0_compat; lra).
    repeat split; [constructor; [lra|done]|lra..].
Qed.

(** The rounded mean of values that are within [e] of [ss], against the
    exact mean of [ss]: one factor for the helper and one for each of
    the additions and the division. *)
Lemma rounded_mean_within (rnd : Q -> Q) (e u : Q) (xs ss : list Q) :
  rounds_within u rnd ->
  (0 <= e)%Q -> (e <= 1)%Q -> (0 <= u)%Q -> (u <= 1)%Q ->
  Forall2 (fun x s => (0 <= s)%Q /\ ((1 - e) * s <= x)%Q /\ (x <= (1 + e) * s)%Q)
    xs ss ->
  within e u (S (length xs)) (qsum ss / Qnat (length xs))
    (rnd (rounded_sum rnd xs / Qnat (length xs))%Q).
Proof.
  intros rnd_within e_nonneg e_le_1 u_nonneg u_le_1 H.
  destruct (qsum_within e _ _ e_le_1 H) as (Hxs & Hss & Hlo & Hhi).
  destruct (foldl_rounded_within rnd u xs 0%Q rnd_within u_nonneg u_le_1
              ltac:(done) Hxs) as [Slo Shi].
  fold (rounded_sum rnd xs) in Slo, Shi.
  assert (HP : (0 <= (1 - u) ^ Z.of_nat (length xs))%Q) by (apply Qpower_0_le; lra).
  assert (HQ : (0 <= (1 + u) ^ Z.of_nat (length xs))%Q) by (apply Qpower_0_le; lra).
  assert (Hn : (0 <= / Qnat (length xs))%Q) by apply Qinv_le_0_compat, Qnat_nonneg.
  pose proof (qsum_nonneg xs Hxs) as HX.
  unfold within. rewrite !Qpower_succ. unfold Qdiv in *.
  set (Pn := ((1 - u) ^ Z.of_nat (length xs))%Q) in *.
  set (Qn := ((1 + u) ^ Z.of_nat (length xs))%Q) in *.
  set (ninv := (/ Qnat (length xs))%Q) in *.
  set (S := rounded_sum rnd xs) in *. set (X := qsum xs) in *.
  set (T := qsum ss) in *.
  assert (HS : (0 <= S)%Q).
  { assert (0 <= Pn * (0 + X))%Q by (apply Qmult_le_0_compat; [done|lra]).
    lra. }
  destruct (rnd_within (S * ninv)%Q) as [Rlo Rhi];
    [by apply Qmult_le_0_compat|].
  set (h := rnd (S * ninv)%Q) in *. clearbody Pn Qn ninv S X T h.
  assert (0 <= Pn * (X - (1 - e) * T))%Q by (apply Qmult_le_0_compat; lra).
  assert (0 <= Qn * ((1 + e) * T - X))%Q by (apply Qmult_le_0_compat; lra).
  assert (0 <= (1 - u) * ninv * (S - Pn * (1 - e) * T))%Q.
  { apply Qmult_le_0_compat; [apply Qmult_le_0_compat; lra|lra]. }
  assert (0 <= (1 + u) * ninv * (Qn * (1 + e) * T - S))%Q.
  { apply Qmult_le_0_compat; [apply Qmult_le_0_compat; lra|lra]. }
  split; lra.
Qed.

Lemma chunks_single {A} (n : positive) (l : list A) :
  l <> [] -> length l <= Pos.to_nat n -> chunks n l = [l].
Proof.
  intros Hne Hle. rewrite (chunks_step n l Hne).
  rewrite take_ge, drop_ge by done. by simp chunks.
Qed.

Section Facts.

Context {Θ Tok : Type}.
Variable ent_emb_fwd : Θ -> Tok -> nat -> Vec.
Variable energy_eval : Θ -> option (list Vec) -> nat -> nat -> nat -> Q.
Variable utils_hit_at_k : list (list Q) -> list nat -> nat -> Q.
Variable utils_mrr : list (list Q) -> list nat -> Q.
Variable rnd : Q -> Q.

(** The loop without a cap: the two rounded sums over all batches. *)
Lemma eval_loop_rnd_all tbl all i bs h0 r0 c0 (w : world Θ) :
  eval_loop_rnd energy_eval utils_hit_at_k utils_mrr rnd tbl all None i bs
    (h0, r0, c0) w =
    (foldl (fun acc x => rnd (acc + x)%Q) h0
       (batch_hits energy_eval utils_hit_at_k (params w) tbl all <$> bs),
     foldl (fun acc x => rnd (acc + x)%Q) r0
       (batch_mrr energy_eval utils_mrr (params w) tbl all <$> bs),
     c0 + length bs,
     track_all (concat (batch_calls all <$> bs)) w).
Proof.
  revert i h0 r0 c0 w. induction bs as [|b bs IH]; intros i h0 r0 c0 w.
  - cbn. by rewrite Nat.add_0_r.
  - cbn [eval_loop_rnd stop_at]. rewrite IH.
    rewrite !fmap_cons. cbn [foldl concat length params track].
    rewrite track_all_app. do 2 f_equal. lia.
Qed.

(** A full evaluation of a set that is not empty reports the rounded
    means of the two rounded sums. *)
Lemma eval_rnd_reported m (loader : DataLoader Tok) epoch prefix (w : world Θ) :
  triples (dataset loader) <> [] ->
  let tbl := ent_emb_table ent_emb_fwd (params w) m loader in
  let all := all_entities m in
  reported prefix epoch w
    (eval_link_prediction_rnd ent_emb_fwd energy_eval utils_hit_at_k utils_mrr rnd
       m loader epoch prefix None w)
    (rnd (rounded_sum rnd
            (batch_hits energy_eval utils_hit_at_k (params w) tbl all
               <$> batches loader)
          / Qnat (length (batches loader))))
    (rnd (rounded_sum rnd
            (batch_mrr energy_eval utils_mrr (params w) tbl all
               <$> batches loader)
          / Qnat (length (batches loader)))).
Proof.
  intros Hne tbl all.
  pose proof (batches_nonempty loader Hne) as Hb.
  unfold eval_link_prediction_rnd, no_grad.
  destruct (build_ent_emb_run ent_emb_fwd m loader (set_grad false w))
    as (ws & -> & _).
  rewrite eval_loop_rnd_all. rewrite !track_all_fields.
  cbn [params set_grad Nat.add].
  assert (Hlen : (length (batches loader) =? 0) = false)
    by (by destruct (batches loader)).
  rewrite Hlen. split; [done|].
  unfold log_scalar, set_grad, rounded_sum. cbn. by rewrite <- app_assoc.
Qed.

Lemma one_batch_size_equal (loader : DataLoader Tok) :
  triples (dataset loader) <> [] -> one_batch_size loader ->
  exists s, s <> 0 /\ Forall (fun b => length b = s) (batches loader).
Proof.
  intros Hne [[k Hk]|Hle].
  - exists (Pos.to_nat (batch_size loader)). split; [lia|].
    by destruct (chunks_full (batch_size loader) (triples (dataset loader)) k Hk).
  - exists (length (triples (dataset loader))).
    split; [by destruct (triples (dataset loader))|].
    unfold batches. rewrite chunks_single by done. by constructor.
Qed.

(** With batches of one size, the mean of the design document's batch
    values is its value for the whole set. *)
Lemma equal_batches_mean θ tbl all (loader : DataLoader Tok) :
  triples (dataset loader) <> [] -> one_batch_size loader ->
  (qsum (batch_hits energy_eval Utils.hit_at_k θ tbl all <$> batches loader)
     / Qnat (length (batches loader))
   == hits_at_10_spec energy_eval θ tbl all (triples (dataset loader)))%Q
  /\ (qsum (batch_mrr energy_eval Utils.mrr θ tbl all <$> batches loader)
        / Qnat (length (batches loader))
      == mrr_spec energy_eval θ tbl all (triples (dataset loader)))%Q.
Proof.
  intros Hne Hone.
  destruct (one_batch_size_equal loader Hne Hone) as (s & Hs & Hfull).
  pose proof (batches_nonempty loader Hne) as Hb.
  split.
  - rewrite (qsum_fmap_ext _
               (fun b => qsum (per_triple energy_eval (Utils.hit 10) θ tbl all <$> b)
                         / Qnat (2 * length b))%Q).
    2:{ intros b _. apply batch_hits_per_triple. }
    rewrite (mean_of_equal_batches _ _ _ Hs Hb Hfull).
    unfold batches. rewrite chunks_concat. by rewrite hits_spec_per_triple.
  - rewrite (qsum_fmap_ext _
               (fun b => qsum (per_triple energy_eval Utils.reciprocal_rank θ tbl all <$> b)
                         / Qnat (2 * length b))%Q).
    2:{ intros b _. apply batch_mrr_per_triple. }
    rewrite (mean_of_equal_batches _ _ _ Hs Hb Hfull).
    unfold batches. rewrite chunks_concat. by rewrite mrr_spec_per_triple.
Qed.

(** One run: what is reported, against the metrics of the whole set. *)
Lemma eval_rnd_within (e u : Q) m (loader : DataLoader Tok) epoch prefix
    (w : world Θ) :
  helpers_within e utils_hit_at_k utils_mrr ->
  rounds_within u rnd ->
  (0 <= e)%Q -> (e <= 1)%Q -> (0 <= u)%Q -> (u <= 1)%Q ->
  triples (dataset loader) <> [] ->
  one_batch_size loader ->
  let tbl := ent_emb_table ent_emb_fwd (params w) m loader in
  exists hits mrr,
    reported prefix epoch w
      (eval_link_prediction_rnd ent_emb_fwd energy_eval utils_hit_at_k utils_mrr
         rnd m loader epoch prefix None w) hits mrr
    /\ within e u (S (length (batches loader)))
         (hits_at_10_spec energy_eval (params w) tbl (all_entities m)
            (triples (dataset loader))) hits
    /\ within e u (S (length (batches loader)))
         (mrr_spec energy_eval (params w) tbl (all_entities m)
            (triples (dataset loader))) mrr.
Proof.
  intros [Hhk Hmr] Hrnd He0 He1 Hu0 Hu1 Hne Hone tbl.
  eexists _, _. split; [by apply eval_rnd_reported|].
  destruct (equal_batches_mean (params w) tbl (all_entities m) loader Hne Hone)
    as [Eh Em].
  fold tbl.
  split.
  - pose proof (rounded_mean_within rnd e u
                  (batch_hits energy_eval utils_hit_at_k (params w) tbl
                     (all_entities m) <$> batches loader)
                  (batch_hits energy_eval Utils.hit_at_k (params w) tbl
                     (all_entities m) <$> batches loader)
                  Hrnd He0 He1 Hu0 Hu1) as H.
    rewrite !length_fmap in H. unfold within in *. rewrite <- Eh. apply H.
    apply Forall2_fmap, Forall_Forall2_diag, Forall_forall. intros b _.
    split; [apply hit_at_k_nonneg|apply Hhk].
  - pose proof (rounded_mean_within rnd e u
                  (batch_mrr energy_eval utils_mrr (params w) tbl
                     (all_entities m) <$> batches loader)
                  (batch_mrr energy_eval Utils.mrr (params w) tbl
                     (all_entities m) <$> batches loader)
                  Hrnd He0 He1 Hu0 Hu1) as H.
    rewrite !length_fmap in H. unfold within in *. rewrite <- Em. apply H.
    apply Forall2_fmap, Forall_Forall2_diag, Forall_forall. intros b _.
    split; [apply mrr_nonneg|apply Hmr].
Qed.

(** Without error nothing is lost. *)
Lemma within_exact (e u : Q) (k : nat) (v x : Q) :
  (e == 0)%Q -> (u == 0)%Q -> within e u k v x -> (x == v)%Q.
Proof.
  intros He Hu [Hlo Hhi]. rewrite He, Hu in Hlo, Hhi.
  assert (H1 : (1 - 0 == 1)%Q) by ring. assert (H2 : (1 + 0 == 1)%Q) by ring.
  rewrite H1 in Hlo. rewrite H2 in Hhi. rewrite Qpower_1 in Hlo, Hhi. lra.
Qed.

Lemma within_agree (e u : Q) (k : nat) (v x y : Q) :
  (0 <= e)%Q -> (e <= 1)%Q -> (0 <= u)%Q -> (u <= 1)%Q ->
  within e u k v x -> within e u k v y -> agree_within e u k x y.
Proof.
  intros He0 He1 Hu0 Hu1 [Xlo Xhi] [Ylo Yhi]. unfold agree_within.
  assert (HP : (0 <= (1 - u) ^ Z.of_nat k)%Q) by (apply Qpower_0_le; lra).
  assert (HQ : (0 <= (1 + u) ^ Z.of_nat k)%Q) by (apply Qpower_0_le; lra).
  assert (Ha : (0 <= (1 - e) * (1 - u) ^ Z.of_nat k)%Q)
    by (apply Qmult_le_0_compat; lra).
  assert (Hb : (0 <= (1 + e) * (1 + u) ^ Z.of_nat k)%Q)
    by (apply Qmult_le_0_compat; lra).
  set (a := ((1 - e) * (1 - u) ^ Z.of_nat k)%Q) in *.
  set (b := ((1 + e) * (1 + u) ^ Z.of_nat k)%Q) in *. clearbody a b.
  assert (0 <= a * (b * v - x))%Q by (apply Qmult_le_0_compat; lra).
  assert (0 <= a * (b * v - y))%Q by (apply Qmult_le_0_compat; lra).
  assert (0 <= b * (x - a * v))%Q by (apply Qmult_le_0_compat; lra).
  assert (0 <= b * (y - a * v))%Q by (apply Qmult_le_0_compat; lra).
  split; lra.
Qed.

(** With the identity for [rnd] the definitions are those of [Train]. *)
Lemma eval_loop_rnd_exact tbl all max i bs acc (w : world Θ) :
  eval_loop_rnd energy_eval utils_hit_at_k utils_mrr (fun x => x) tbl all max i bs acc w
  = eval_loop energy_eval utils_hit_at_k utils_mrr tbl all max i bs acc w.
Proof.
  revert i acc w. induction bs as [|b bs IH]; intros i acc w; [done|].
  cbn [eval_loop_rnd eval_loop]. destruct (stop_at max i); [done|].
  destruct acc as [[h r] c]. apply IH.
Qed.

Lemma eval_link_prediction_rnd_exact m (loader : DataLoader Tok) epoch prefix max
    (w : world Θ) :
  eval_link_prediction_rnd ent_emb_fwd energy_eval utils_hit_at_k utils_mrr
    (fun x => x) m loader epoch prefix max w
  = eval_link_prediction ent_emb_fwd energy_eval utils_hit_at_k utils_mrr
      m loader epoch prefix max w.
Proof.
  unfold eval_link_prediction_rnd, eval_link_prediction, no_grad.
  destruct (build_ent_emb ent_emb_fwd m loader (set_grad false w)) as [[tbl ws] w1].
  by rewrite eval_loop_rnd_exact.
Qed.

(** What equal reports of the exact evaluator say about the helper's
    values. *)
Lemma same_report_forces_equal_means m (loader loader' : DataLoader Tok) epoch prefix
    (w : world Θ) :
  same_report prefix epoch w
    (eval_link_prediction ent_emb_fwd energy_eval utils_hit_at_k utils_mrr
       m loader epoch prefix None w)
    (eval_link_prediction ent_emb_fwd energy_eval utils_hit_at_k utils_mrr
       m loader' epoch prefix None w) ->
  (qsum (batch_hits energy_eval utils_hit_at_k (params w)
           (ent_emb_table ent_emb_fwd (params w) m loader) (all_entities m)
           <$> batches loader) / Qnat (length (batches loader))
   == qsum (batch_hits energy_eval utils_hit_at_k (params w)
              (ent_emb_table ent_emb_fwd (params w) m loader') (all_entities m)
              <$> batches loader') / Qnat (length (batches loader')))%Q.
Proof.
  intros (h & r & h' & r' & [Hok Hs] & [Hok' Hs'] & Hh & _).
  destruct (eval_link_prediction_run ent_emb_fwd energy_eval utils_hit_at_k
              utils_mrr m loader epoch prefix None w)
    as [[_ Hrun]|(_ & hits & mrr & Hrun & Hhits & _)].
  { rewrite Hrun in Hok. discriminate. }
  destruct (eval_link_prediction_run ent_emb_fwd energy_eval utils_hit_at_k
              utils_mrr m loader' epoch prefix None w)
    as [[_ Hrun']|(_ & hits' & mrr' & Hrun' & Hhits' & _)].
  { rewrite Hrun' in Hok'. discriminate. }
  rewrite Hrun in Hs. cbn in Hs. rewrite <- app_assoc in Hs.
  apply app_inv_head in Hs. injection Hs as _ <-.
  rewrite Hrun' in Hs'. cbn in Hs'. rewrite <- app_assoc in Hs'.
  apply app_inv_head in Hs'. injection Hs' as _ <-.
  cbn [consumed] in Hhits, Hhits'. by rewrite <- Hhits, <- Hhits'.
Qed.

(** C5 (amended).  When the batches have one size (the batch size
    divides the number of triples, or all triples fit one batch) and
    the set is evaluated in full, feeding the triples in another order
    reports the same Hits@10 and MRR up to rounding.  With helpers
    within relative error [e] of the design document's metrics of a
    batch, and float operations of relative error [u], each reported
    value is within the factors [(1 - e) (1 - u)^k] and
    [(1 + e) (1 + u)^k] of the metric of the whole set, [k] being the
    number of batches plus one, and so the two reports are within
    these factors of each other; without error they are equal. *)
Theorem metrics_order_invariant_up_to_rounding (e u : Q) m (loader : DataLoader Tok)
    (l' : list triple) epoch prefix (w : world Θ) :
  helpers_within e utils_hit_at_k utils_mrr ->
  rounds_within u rnd ->
  (0 <= e)%Q -> (e <= 1)%Q -> (0 <= u)%Q -> (u <= 1)%Q ->
  triples (dataset loader) ≡ₚ l' ->
  triples (dataset loader) <> [] ->
  one_batch_size loader ->
  let loader' := MkLoader (MkDataset l' (text_data (dataset loader)))
                   (batch_size loader) in
  let k := S (length (batches loader)) in
  let tbl := ent_emb_table ent_emb_fwd (params w) m loader in
  let Hits10 := hits_at_10_spec energy_eval (params w) tbl (all_entities m)
                  (triples (dataset loader)) in
  let MRR := mrr_spec energy_eval (params w) tbl (all_entities m)
               (triples (dataset loader)) in
  exists hits mrr hits' mrr',
    reported prefix epoch w
      (eval_link_prediction_rnd ent_emb_fwd energy_eval utils_hit_at_k utils_mrr
         rnd m loader epoch prefix None w) hits mrr
    /\ reported prefix epoch w
         (eval_link_prediction_rnd ent_emb_fwd energy_eval utils_hit_at_k utils_mrr
            rnd m loader' epoch prefix None w) hits' mrr'
    /\ within e u k Hits10 hits /\ within e u k Hits10 hits'
    /\ within e u k MRR mrr /\ within e u k MRR mrr'
    /\ agree_within e u k hits hits' /\ agree_within e u k mrr mrr'
    /\ ((e == 0)%Q -> (u == 0)%Q -> (hits == hits')%Q /\ (mrr == mrr')%Q).
Proof.
  intros Hhelp Hrnd He0 He1 Hu0 Hu1 Hperm Hne Hone loader' k tbl Hits10 MRR.
  destruct (eval_rnd_within e u m loader epoch prefix w Hhelp Hrnd He0 He1 Hu0 Hu1
              Hne Hone) as (h & r & Hrep & Hh & Hr).
  destruct (eval_rnd_within e u m loader' epoch prefix w Hhelp Hrnd He0 He1 Hu0 Hu1)
    as (h' & r' & Hrep' & Hh' & Hr').
  { cbn. intros ->. apply Permutation_nil_r in Hperm. done. }
  { unfold one_batch_size in *. cbn. by rewrite <- (Permutation_length Hperm). }
  assert (Hlen : length (batches loader') = length (batches loader)).
  { unfold batches. cbn. symmetry.
    apply chunks_same_length, (Permutation_length Hperm). }
  destruct (spec_metrics_perm energy_eval (params w) tbl (all_entities m)
              _ _ Hperm) as [Hhp Hrp].
  rewrite Hlen in Hh', Hr'.
  change (ent_emb_table ent_emb_fwd (params w) m loader') with tbl in Hh', Hr'.
  change (triples (dataset loader')) with l' in Hh', Hr'.
  fold tbl k in Hh, Hr. fold k in Hh', Hr'. fold Hits10 in Hh. fold MRR in Hr.
  assert (Hh2 : within e u k Hits10 h').
  { unfold within in *. unfold Hits10. by rewrite Hhp. }
  assert (Hr2 : within e u k MRR r').
  { unfold within in *. unfold MRR. by rewrite Hrp. }
  exists h, r, h', r'. repeat (split; [done|]).
  split; [by apply (within_agree e u k Hits10)|].
  split; [by apply (within_agree e u k MRR)|].
  intros He Hu.
  rewrite (within_exact e u k _ _ He Hu Hh), (within_exact e u k _ _ He Hu Hh2).
  rewrite (within_exact e u k _ _ He Hu Hr), (within_exact e u k _ _ He Hu Hr2).
  done.
Qed.

End Facts.

(** ** The claim at concrete inputs *)

Lemma float_helpers_within : helpers_within (2 ^ (-53)) float_hit_at_k float_mrr.
Proof.
  split; intros; apply (round_float_within 53);
    [apply hit_at_k_nonneg|apply mrr_nonneg].
Qed.

Lemma metrics_order_invariant_up_to_rounding_witness :
  (helpers_within (2 ^ (-53)) float_hit_at_k float_mrr
   /\ rounds_within (2 ^ (-53)) float64
   /\ triples (dataset ex_loader_tenths) ≡ₚ triples (dataset ex_loader_tenths_perm)
   /\ triples (dataset ex_loader_tenths) <> []
   /\ one_batch_size ex_loader_tenths)
  /\ exists hits mrr hits' mrr',
       reported "valid" 1 ex_world
         (eval_link_prediction_rnd ex_fwd ex_energy float_hit_at_k float_mrr float64
            ex_model ex_loader_tenths 1 "valid" None ex_world) hits mrr
       /\ reported "valid" 1 ex_world
            (eval_link_prediction_rnd ex_fwd ex_energy float_hit_at_k float_mrr float64
               ex_model ex_loader_tenths_perm 1 "valid" None ex_world) hits' mrr'
       /\ agree_within (2 ^ (-53)) (2 ^ (-53)) 4 hits hits'
       /\ agree_within (2 ^ (-53)) (2 ^ (-53)) 4 mrr mrr'.
Proof.
  assert (Hp : triples (dataset ex_loader_tenths)
               ≡ₚ triples (dataset ex_loader_tenths_perm)).
  { apply (Permutation_rev [Triple 9 9 0; Triple 4 4 0; Triple 9 1 0]). }
  assert (Hone : one_batch_size ex_loader_tenths).
  { left. exists 3. reflexivity. }
  split.
  - split; [exact float_helpers_within|]. split; [exact (round_float_within 53)|].
    split; [exact Hp|]. split; [discriminate|exact Hone].
  - destruct (metrics_order_invariant_up_to_rounding ex_fwd ex_energy
                float_hit_at_k float_mrr float64 (2 ^ (-53)) (2 ^ (-53))
                ex_model ex_loader_tenths (triples (dataset ex_loader_tenths_perm))
                1 "valid" ex_world float_helpers_within (round_float_within 53))
      as (h & r & h' & r' & H1 & H2 & _ & _ & _ & _ & Ah & Ar & _);
      [discriminate..|exact Hp|discriminate|exact Hone|].
    exists h, r, h', r'. repeat split; first [apply H1|apply H2|apply Ah|apply Ar].
Defined.

(** C5, as stated, fails in two ways.  With three triples in batches
    of two, whatever the two helpers compute: if each of the four
    batches, evaluated as a set of its own, is reported as the design
    document defines Hits@10 (which fixes the helper's values on them:
    1 and 0 in the one order, 1/2 and 1 in the other), the reports on
    the three triples are 1/2 and 3/4.  With batches of one size and
    Python floats: the batch values 0.1, 0.2 and 0.3 add up to
    0.6000000000000001 in this order and to 0.6 in the reverse order,
    and the reported MRR is 0.20000000000000004 or
    0.19999999999999998. *)
Lemma reports_depend_on_order_of_triples :
  (~ exists hk mr,
       reports_exact_metrics ex_fwd ex_energy hk mr ex_model ex_loader_first
         1 "valid" None ex_world
       /\ reports_exact_metrics ex_fwd ex_energy hk mr ex_model ex_loader_second
            1 "valid" None ex_world
       /\ reports_exact_metrics ex_fwd ex_energy hk mr ex_model ex_loader_perm_first
            1 "valid" None ex_world
       /\ reports_exact_metrics ex_fwd ex_energy hk mr ex_model ex_loader_perm_second
            1 "valid" None ex_world
       /\ same_report "valid" 1 ex_world
            (eval_link_prediction ex_fwd ex_energy hk mr ex_model ex_loader
               1 "valid" None ex_world)
            (eval_link_prediction ex_fwd ex_energy hk mr ex_model ex_loader_perm
               1 "valid" None ex_world))
  /\ ~ same_report "valid" 1 ex_world
         (eval_link_prediction_rnd ex_fwd ex_energy float_hit_at_k float_mrr float64
            ex_model ex_loader_tenths 1 "valid" None ex_world)
         (eval_link_prediction_rnd ex_fwd ex_energy float_hit_at_k float_mrr float64
            ex_model ex_loader_tenths_perm 1 "valid" None ex_world).
Proof.
  split.
  - intros (hk & mr & H1 & H2 & H3 & H4 & H5).
    apply exact_forces_batch_mean in H1, H2, H3, H4.
    apply same_report_forces_equal_means in H5.
    change (batches ex_loader_first) with [[Triple 0 0 0; Triple 0 0 1]] in H1.
    change (batches ex_loader_second) with [[Triple 11 11 0]] in H2.
    change (batches ex_loader_perm_first) with [[Triple 11 11 0; Triple 0 0 0]] in H3.
    change (batches ex_loader_perm_second) with [[Triple 0 0 1]] in H4.
    change (batches ex_loader)
      with [[Triple 0 0 0; Triple 0 0 1]; [Triple 11 11 0]] in H5.
    change (batches ex_loader_perm)
      with [[Triple 11 11 0; Triple 0 0 0]; [Triple 0 0 1]] in H5.
    cbn [fmap list_fmap length params ex_world] in H1, H2, H3, H4, H5.
    change (ent_emb_table ex_fwd () ex_model ex_loader_first) with (@None (list Vec)) in *.
    change (ent_emb_table ex_fwd () ex_model ex_loader_second) with (@None (list Vec)) in *.
    change (ent_emb_table ex_fwd () ex_model ex_loader_perm_first)
      with (@None (list Vec)) in *.
    change (ent_emb_table ex_fwd () ex_model ex_loader_perm_second)
      with (@None (list Vec)) in *.
    change (ent_emb_table ex_fwd () ex_model ex_loader) with (@None (list Vec)) in *.
    change (ent_emb_table ex_fwd () ex_model ex_loader_perm) with (@None (list Vec)) in *.
    set (x1 := batch_hits ex_energy hk () None (all_entities ex_model)
                 [Triple 0 0 0; Triple 0 0 1]) in *.
    set (x2 := batch_hits ex_energy hk () None (all_entities ex_model)
                 [Triple 11 11 0]) in *.
    set (y1 := batch_hits ex_energy hk () None (all_entities ex_model)
                 [Triple 11 11 0; Triple 0 0 0]) in *.
    set (y2 := batch_hits ex_energy hk () None (all_entities ex_model)
                 [Triple 0 0 1]) in *.
    assert (E1 : (hits_at_10_spec ex_energy () None (all_entities ex_model)
                    (triples (dataset ex_loader_first)) == 1)%Q)
      by (vm_compute; reflexivity).
    assert (E2 : (hits_at_10_spec ex_energy () None (all_entities ex_model)
                    (triples (dataset ex_loader_second)) == 0)%Q)
      by (vm_compute; reflexivity).
    assert (E3 : (hits_at_10_spec ex_energy () None (all_entities ex_model)
                    (triples (dataset ex_loader_perm_first)) == 1 # 2)%Q)
      by (vm_compute; reflexivity).
    assert (E4 : (hits_at_10_spec ex_energy () None (all_entities ex_model)
                    (triples (dataset ex_loader_perm_second)) == 1)%Q)
      by (vm_compute; reflexivity).
    rewrite E1 in H1. rewrite E2 in H2. rewrite E3 in H3. rewrite E4 in H4.
    clear E1 E2 E3 E4.
    unfold qsum, Qdiv in H1, H2, H3, H4, H5. cbn [foldr] in H1, H2, H3, H4, H5.
    change (/ Qnat 1)%Q with 1%Q in *. change (/ Qnat 2)%Q with (1 # 2)%Q in *.
    clearbody x1 x2 y1 y2. lra.
  - intros (h & r & h' & r' & [_ Hs] & [_ Hs'] & _ & Hr).
    vm_compute in Hs, Hs'.
    injection Hs as <- _. injection Hs' as <- _.
    vm_compute in Hr. discriminate.
Qed.

(** The reports of the three runs above, and a single batch in two
    orders. *)
Example ex_tenths_reports :
  exists hits mrr hits' mrr',
    reported "valid" 1 ex_world
      (eval_link_prediction_rnd ex_fwd ex_energy float_hit_at_k float_mrr float64
         ex_model ex_loader_tenths 1 "valid" None ex_world) hits mrr
    /\ reported "valid" 1 ex_world
         (eval_link_prediction_rnd ex_fwd ex_energy float_hit_at_k float_mrr float64
            ex_model ex_loader_tenths_perm 1 "valid" None ex_world) hits' mrr'
    /\ (hits == 1)%Q /\ (hits' == 1)%Q
    /\ (mrr == 7205759403792795 # 36028797018963968)%Q
    /\ (mrr' == 7205759403792793 # 36028797018963968)%Q
    /\ (mrr_spec ex_energy () None (all_entities ex_model)
          (triples (dataset ex_loader_tenths)) == 1 # 5)%Q.
Proof.
  eexists _, _, _, _.
  split; [apply eval_rnd_reported; discriminate|].
  split; [apply eval_rnd_reported; discriminate|].
  repeat split; vm_compute; reflexivity.
Qed.

Example ex_unequal_batches_reports :
  exists hits mrr hits' mrr',
    reported "valid" 1 ex_world
      (eval_link_prediction_rnd ex_fwd ex_energy float_hit_at_k float_mrr float64
         ex_model ex_loader 1 "valid" None ex_world) hits mrr
    /\ reported "valid" 1 ex_world
         (eval_link_prediction_rnd ex_fwd ex_energy float_hit_at_k float_mrr float64
            ex_model ex_loader_perm 1 "valid" None ex_world) hits' mrr'
    /\ (hits == 1 # 2)%Q /\ (hits' == 3 # 4)%Q.
Proof.
  eexists _, _, _, _.
  split; [apply eval_rnd_reported; discriminate|].
  split; [apply eval_rnd_reported; discriminate|].
  repeat split; vm_compute; reflexivity.
Qed.

Example ex_single_batch_reports :
  ~ (Pos.to_nat (batch_size ex_loader_single)
     | length (triples (dataset ex_loader_single)))
  /\ one_batch_size ex_loader_single
  /\ scalars (eval_link_prediction_rnd ex_fwd ex_energy float_hit_at_k float_mrr
                float64 ex_model ex_loader_single 1 "valid" None ex_world).2
     = scalars (eval_link_prediction_rnd ex_fwd ex_energy float_hit_at_k float_mrr
                  float64 ex_model ex_loader_single_perm 1 "valid" None ex_world).2.
Proof.
  split; [|split].
  - intros [k Hk]. cbn in Hk. lia.
  - right. cbn. lia.
  - vm_compute. reflexivity.
Qed.

End TrainRoundingFacts.

(* ===================================================================== *)
(** * The ranking evaluator: further properties *)
(* ===================================================================== *)

Module TrainExtraFacts.
Import Train TrainFacts.

Section Facts.

Context {Θ Tok : Type}.
Variable ent_emb_fwd : Θ -> Tok -> nat -> Vec.
Variable energy_eval : Θ -> option (list Vec) -> nat -> nat -> nat -> Q.
Variable utils_hit_at_k : list (list Q) -> list nat -> nat -> Q.
Variable utils_mrr : list (list Q) -> list nat -> Q.

Lemma eval_loop_cap tbl all k i bs acc (w : world Θ) :
  i <= k ->
  eval_loop energy_eval utils_hit_at_k utils_mrr tbl all (Some k) i bs acc w
  = eval_loop energy_eval utils_hit_at_k utils_mrr tbl all None i
      (take (k - i) bs) acc w.
Proof.
  revert i acc w. induction bs as [|b bs IH]; intros i acc w Hi.
  - by rewrite take_nil.
  - cbn [eval_loop stop_at].
    destruct (Nat.eqb_spec i k) as [->|Hne].
    + by rewrite Nat.sub_diag.
    + replace (k - i) with (S (k - S i)) by lia.
      cbn [take eval_loop stop_at]. destruct acc as [[hits mrr] batch_count].
      apply IH. lia.
Qed.

(** Lines 58-60, and 140-141 of [link_prediction].  An evaluation capped
    at [k] batches is the full evaluation of the first [k] times
    [batch_size] triples of the dataset, in the order of the dataset:
    same result, same final state.  The sample of the training set that
    [link_prediction] evaluates is therefore always the beginning of the
    training file. *)
Theorem capped_evaluation_reads_a_prefix m (loader : DataLoader Tok) epoch prefix
    (k : nat) (w : world Θ) :
  eval_link_prediction ent_emb_fwd energy_eval utils_hit_at_k utils_mrr
    m loader epoch prefix (Some k) w
  = eval_link_prediction ent_emb_fwd energy_eval utils_hit_at_k utils_mrr m
      (MkLoader
         (MkDataset (take (k * Pos.to_nat (batch_size loader))
                       (triples (dataset loader)))
            (text_data (dataset loader)))
         (batch_size loader))
      epoch prefix None w.
Proof.
  unfold eval_link_prediction, no_grad.
  unfold build_ent_emb, batches. cbn [dataset text_data batch_size triples].
  rewrite <- chunks_take.
  destruct (text_data (dataset loader)) as [descr|].
  - destruct (cache_loop _ _ _ _ _ _ _ _ _) as [[tbl ws] w1].
    by rewrite eval_loop_cap, Nat.sub_0_r by lia.
  - by rewrite eval_loop_cap, Nat.sub_0_r by lia.
Qed.

(** What a call leaves of the state, and its two ends. *)
Lemma eval_frame m (loader : DataLoader Tok) epoch prefix max (w : world Θ) :
  let run := eval_link_prediction ent_emb_fwd energy_eval utils_hit_at_k utils_mrr
               m loader epoch prefix max w in
  let cons := consumed max (batches loader) in
  let tbl := ent_emb_table ent_emb_fwd (params w) m loader in
  params run.2 = params w
  /\ grad_enabled run.2 = grad_enabled w
  /\ graph run.2 = graph w
  /\ ((cons = [] /\ run.1 = Raise ZeroDivisionError /\ scalars run.2 = scalars w)
      \/ (cons <> [] /\ run.1 = Ok tt
          /\ exists hits mrr,
               scalars run.2
               = scalars w ++ [(prefix +:+ "_valid_mrr", mrr, epoch);
                               (prefix +:+ "_valid_hits@10", hits, epoch)]
               /\ (hits == qsum (batch_hits energy_eval utils_hit_at_k (params w)
                                   tbl (all_entities m) <$> cons)
                             / Qnat (length cons))%Q
               /\ (mrr == qsum (batch_mrr energy_eval utils_mrr (params w)
                                  tbl (all_entities m) <$> cons)
                            / Qnat (length cons))%Q)).
Proof.
  intros run cons tbl.
  destruct (eval_link_prediction_run ent_emb_fwd energy_eval utils_hit_at_k
              utils_mrr m loader epoch prefix max w)
    as [[Hnil Hrun]|(Hne & hits & mrr & Hrun & Hh & Hm)]; unfold run; rewrite Hrun.
  - split; [done|]. split; [done|]. split; [done|]. left. by repeat split.
  - split; [done|]. split; [done|]. split; [done|]. right.
    split; [done|]. split; [done|]. exists hits, mrr.
    split; [|split; [exact Hh|exact Hm]]. cbn. by rewrite <- app_assoc.
Qed.

End Facts.

End TrainExtraFacts.

(* ===================================================================== *)
(** * link_prediction *)
(* ===================================================================== *)

Module LinkPredictionFacts.
Import Train TrainFacts TrainExtraFacts LinkPrediction.

Section Facts.

Context {Θ Tok Data Opt G : Type}.
Variable ent_emb_fwd : Θ -> Tok -> nat -> Vec.
Variable energy_eval : Θ -> option (list Vec) -> nat -> nat -> nat -> Q.
Variable utils_hit_at_k : list (list Q) -> list nat -> nat -> Q.
Variable utils_mrr : list (list Q) -> list nat -> Q.
Variable forward_loss : Θ -> Data -> Q.
Variable loss_grad : Θ -> Data -> G.
Variable optimizer_step : nat -> nat -> Opt -> Θ -> G -> Opt * Θ.
Variable shuffle : nat -> list triple -> list triple.
Variable negative_sampling : nat -> nat -> list triple -> Data.

Local Abbreviation train_step' := (train_step forward_loss loss_grad optimizer_step).
Local Abbreviation train_loop' := (train_loop forward_loss loss_grad optimizer_step).
Local Abbreviation train_batches' := (train_batches shuffle negative_sampling).
Local Abbreviation train_epochs' :=
  (train_epochs forward_loss loss_grad optimizer_step shuffle negative_sampling).
Local Abbreviation eval' :=
  (eval_link_prediction ent_emb_fwd energy_eval utils_hit_at_k utils_mrr).
Local Abbreviation run_epoch' :=
  (run_epoch ent_emb_fwd energy_eval utils_hit_at_k utils_mrr forward_loss
     loss_grad optimizer_step shuffle negative_sampling).
Local Abbreviation epoch_loop' :=
  (epoch_loop ent_emb_fwd energy_eval utils_hit_at_k utils_mrr forward_loss
     loss_grad optimizer_step shuffle negative_sampling).
Local Abbreviation link_prediction' :=
  (link_prediction ent_emb_fwd energy_eval utils_hit_at_k utils_mrr forward_loss
     loss_grad optimizer_step shuffle negative_sampling).

Lemma chunks_nil_iff {A} (n : positive) (l : list A) : chunks n l = [] <-> l = [].
Proof. split; [apply chunks_nil_inv|]. intros ->. by simp chunks. Qed.

Lemma with_world_id (s : run_state Θ Opt) : with_world (rs_world s) s = s.
Proof. by destruct s. Qed.

Lemma same_training_refl (s : run_state Θ Opt) : same_training s s.
Proof. done. Qed.

Lemma same_training_with_world (w : world Θ) (s : run_state Θ Opt) :
  params w = params (rs_world s) -> same_training (with_world w s) s.
Proof. intros Hp. by repeat split. Qed.

Lemma same_training_trans (s1 s2 s3 : run_state Θ Opt) :
  same_training s1 s2 -> same_training s2 s3 -> same_training s1 s3.
Proof.
  intros (? & ? & ? & ?) (? & ? & ? & ?). repeat split; congruence.
Qed.

Lemma train_step_fields total_steps step data (s : run_state Θ Opt) x :
  let r := (train_step' total_steps step data (s, x)).1 in
  grad_enabled (rs_world r) = grad_enabled (rs_world s)
  /\ graph (rs_world r) = graph (rs_world s)
  /\ scalars (rs_world r) = scalars (rs_world s)
  /\ trace (rs_world r) = trace (rs_world s)
  /\ rs_scheduler r = S (rs_scheduler s).
Proof. unfold train_step. by destruct (optimizer_step _ _ _ _ _). Qed.

Lemma train_loop_fields total_steps step batches (s : run_state Θ Opt) x :
  let r := (train_loop' total_steps step batches (s, x)).1 in
  grad_enabled (rs_world r) = grad_enabled (rs_world s)
  /\ graph (rs_world r) = graph (rs_world s)
  /\ scalars (rs_world r) = scalars (rs_world s)
  /\ trace (rs_world r) = trace (rs_world s)
  /\ rs_scheduler r = rs_scheduler s + length batches.
Proof.
  revert step s x. induction batches as [|data rest IH]; intros step s x.
  - cbn. by rewrite Nat.add_0_r.
  - cbn [train_loop length].
    pose proof (train_step_fields total_steps step data s x) as (H1 & H2 & H3 & H4 & H5).
    destruct (train_step' total_steps step data (s, x)) as [s1 x1].
    destruct (IH (S step) s1 x1) as (I1 & I2 & I3 & I4 & I5). cbn [fst] in *.
    rewrite I1, I2, I3, I4, I5, H1, H2, H3, H4, H5. repeat split; try done. lia.
Qed.

Lemma train_step_same total_steps step data (s s' : run_state Θ Opt) x :
  same_training s s' ->
  same_training (train_step' total_steps step data (s, x)).1
    (train_step' total_steps step data (s', x)).1
  /\ (train_step' total_steps step data (s, x)).2
     = (train_step' total_steps step data (s', x)).2.
Proof.
  intros (Hp & Ho & Hs & Hb). unfold train_step.
  rewrite Hp, Ho, Hs, Hb.
  by destruct (optimizer_step _ _ _ _ _).
Qed.

Lemma train_loop_same total_steps step batches (s s' : run_state Θ Opt) x :
  same_training s s' ->
  same_training (train_loop' total_steps step batches (s, x)).1
    (train_loop' total_steps step batches (s', x)).1
  /\ (train_loop' total_steps step batches (s, x)).2
     = (train_loop' total_steps step batches (s', x)).2.
Proof.
  revert step s s' x. induction batches as [|data rest IH]; intros step s s' x Hs.
  - done.
  - cbn [train_loop].
    destruct (train_step_same total_steps step data s s' x Hs) as [H1 H2].
    destruct (train_step' total_steps step data (s, x)) as [s1 x1].
    destruct (train_step' total_steps step data (s', x)) as [s1' x1'].
    cbn [fst snd] in *. subst x1'. by apply IH.
Qed.

Lemma train_epochs_same (sp : splits Tok) total_steps epochs
    (s s' : run_state Θ Opt) :
  same_training s s' ->
  same_training (train_epochs' sp total_steps epochs s)
    (train_epochs' sp total_steps epochs s').
Proof.
  revert s s'. induction epochs as [|e rest IH]; intros s s' Hs; [done|].
  cbn [train_epochs foldl]. apply IH. by apply train_loop_same.
Qed.

(** One epoch: its three ends. *)
Lemma run_epoch_run (sp : splits Tok) m total_steps epoch (s : run_state Θ Opt) :
  let s1 := (train_loop' total_steps 0 (train_batches' sp epoch) (s, 0%Q)).1 in
  let run := run_epoch' sp m total_steps epoch s in
  same_training run.2 s1
  /\ grad_enabled (rs_world run.2) = grad_enabled (rs_world s)
  /\ graph (rs_world run.2) = graph (rs_world s)
  /\ ((train_triples sp <> [] /\ valid_triples sp <> [] /\ run.1 = Ok tt
       /\ scalar_names (rs_world run.2)
          = scalar_names (rs_world s) ++ epoch_scalars epoch)
      \/ (train_triples sp = [] /\ run.1 = Raise ZeroDivisionError
          /\ scalar_names (rs_world run.2) = scalar_names (rs_world s))
      \/ (train_triples sp <> [] /\ valid_triples sp = []
          /\ run.1 = Raise ZeroDivisionError
          /\ scalar_names (rs_world run.2)
             = scalar_names (rs_world s) ++ [("train_loss", epoch)])).
Proof.
  intros s1 run. unfold run, run_epoch.
  pose proof (train_loop_fields total_steps 0 (train_batches' sp epoch) s 0%Q)
    as (Hg & Hgr & Hsc & _ & _).
  fold s1 in Hg, Hgr, Hsc.
  destruct (train_loop' total_steps 0 (train_batches' sp epoch) (s, 0%Q))
    as [s1' train_loss] eqn:E.
  cbn [fst] in s1. subst s1.
  destruct (Nat.eqb_spec (len_train_loader sp) 0) as [Hlen|Hlen].
  { apply nil_length_inv, chunks_nil_iff in Hlen.
    cbn [fst snd]. split; [done|]. split; [done|]. split; [done|].
    right. left. unfold scalar_names. by rewrite Hsc. }
  assert (Htrain : train_triples sp <> []).
  { intros Hnil. apply Hlen. unfold len_train_loader. rewrite Hnil. by simp chunks. }
  set (w1 := log_scalar "train_loss"
               (train_loss / Qnat (len_train_loader sp)) epoch (rs_world s1')).
  destruct (eval_frame ent_emb_fwd energy_eval utils_hit_at_k utils_mrr m
              (train_eval_loader sp) epoch "train"
              (Some (length (batches (valid_loader sp)))) w1)
    as (Hp2 & Hg2 & Hgr2 & Hend2).
  destruct (eval' m (train_eval_loader sp) epoch "train"
              (Some (length (batches (valid_loader sp)))) w1) as [r2 w2].
  cbn [fst snd] in *.
  destruct Hend2 as [(Hnil & -> & Hs2)|(Hne & -> & hits & mrr & Hs2 & _)].
  - assert (Hvalid : valid_triples sp = []).
    { unfold batches in Hnil. cbn in Hnil.
      destruct (chunks 128 (valid_triples sp)) as [|b bs] eqn:Ev.
      - by apply chunks_nil_iff in Ev.
      - destruct (chunks 128 (train_triples sp)) as [|b' bs'] eqn:Et.
        + by apply chunks_nil_iff in Et.
        + done. }
    cbn [fst snd]. split; [by apply same_training_with_world|].
    unfold with_world. cbn [rs_world].
    split; [by rewrite Hg2|]. split; [by rewrite Hgr2|].
    right. right. split; [done|]. split; [done|]. split; [done|].
    unfold scalar_names. cbn. rewrite Hs2. cbn.
    by rewrite fmap_app, Hsc.
  - assert (Hvalid : valid_triples sp <> []).
    { intros Hnil. apply Hne. unfold batches. cbn. rewrite Hnil.
      by simp chunks. }
    destruct (eval_frame ent_emb_fwd energy_eval utils_hit_at_k utils_mrr m
                (valid_loader sp) epoch "valid" None w2)
      as (Hp3 & Hg3 & Hgr3 & Hend3).
    destruct (eval' m (valid_loader sp) epoch "valid" None w2) as [r3 w3].
    cbn [fst snd] in *.
    destruct Hend3 as [(Hnil & _)|(_ & -> & hits' & mrr' & Hs3 & _)].
    { unfold batches in Hnil. cbn in Hnil. by apply chunks_nil_iff in Hnil. }
    split; [apply same_training_with_world; by rewrite Hp3, Hp2|].
    unfold with_world. cbn [rs_world].
    split; [by rewrite Hg3, Hg2|]. split; [by rewrite Hgr3, Hgr2|].
    left. split; [done|]. split; [done|]. split; [done|].
    unfold scalar_names. cbn. rewrite Hs3, Hs2. cbn.
    rewrite !fmap_app, Hsc. cbn. by rewrite <- !app_assoc.
Qed.

Lemma epoch_loop_status (sp : splits Tok) m total_steps epochs
    (s : run_state Θ Opt) :
  let run := epoch_loop' sp m total_steps epochs s in
  (run.1 = Ok tt
   <-> epochs = [] \/ (train_triples sp <> [] /\ valid_triples sp <> []))
  /\ (run.1 = Ok tt \/ run.1 = Raise ZeroDivisionError).
Proof.
  revert s. induction epochs as [|e rest IH]; intros s.
  - cbn. split; [|by left]. split; [by left|done].
  - cbn [epoch_loop].
    pose proof (run_epoch_run sp m total_steps e s) as (_ & _ & _ & Hend).
    cbn zeta in Hend.
    destruct (run_epoch' sp m total_steps e s) as [r s1]. cbn [fst snd] in Hend.
    destruct Hend as [(Ht & Hv & -> & _)|[(Ht & -> & _)|(Ht & Hv & -> & _)]].
    + destruct (IH s1) as [Hiff Hor]. cbn zeta in *. split; [|exact Hor].
      rewrite Hiff. split; [intros _; by right|intros _; by right].
    + cbn. split; [|by right]. split; [done|]. intros [?|[? _]]; done.
    + cbn. split; [|by right]. split; [done|]. intros [?|[_ ?]]; done.
Qed.

Lemma epoch_loop_ok (sp : splits Tok) m total_steps epochs (s : run_state Θ Opt) :
  let run := epoch_loop' sp m total_steps epochs s in
  run.1 = Ok tt ->
  same_training run.2 (train_epochs' sp total_steps epochs s)
  /\ grad_enabled (rs_world run.2) = grad_enabled (rs_world s)
  /\ graph (rs_world run.2) = graph (rs_world s)
  /\ scalar_names (rs_world run.2)
     = scalar_names (rs_world s) ++ concat (epoch_scalars <$> epochs).
Proof.
  revert s. induction epochs as [|e rest IH]; intros s.
  - cbn. intros _. by rewrite app_nil_r.
  - cbn [epoch_loop train_epochs foldl fmap list_fmap concat].
    pose proof (run_epoch_run sp m total_steps e s) as (Hsame & Hg & Hgr & Hend).
    cbn zeta in *.
    destruct (run_epoch' sp m total_steps e s) as [r s1]. cbn [fst snd] in *.
    destruct Hend as [(Ht & Hv & -> & Hs)|[(Ht & -> & _)|(Ht & Hv & -> & _)]];
      [|done..].
    intros HD. destruct (IH s1 HD) as (Hsame' & Hg' & Hgr' & Hs').
    split.
    { eapply same_training_trans; [exact Hsame'|].
      by apply train_epochs_same. }
    split; [by rewrite Hg'|]. split; [by rewrite Hgr'|].
    by rewrite Hs', Hs, <- app_assoc.
Qed.

Lemma train_epochs_scheduler (sp : splits Tok) total_steps epochs
    (s : run_state Θ Opt) :
  (forall e l, length (shuffle e l) = length l) ->
  rs_scheduler (train_epochs' sp total_steps epochs s)
  = rs_scheduler s + length epochs * len_train_loader sp.
Proof.
  intros Hsh. revert s. induction epochs as [|e rest IH]; intros s.
  - cbn. lia.
  - cbn [train_epochs foldl length]. unfold train_epochs in IH. rewrite IH.
    pose proof (train_loop_fields total_steps 0 (train_batches' sp e) s 0%Q)
      as (_ & _ & _ & _ & ->).
    unfold train_batches, len_train_loader. rewrite length_imap.
    rewrite (chunks_same_length 32 (shuffle e (train_triples sp)) (train_triples sp))
      by apply Hsh.
    lia.
Qed.

(** What a run that did not fail before the test evaluation ends with. *)
Lemma link_prediction_run (sp : splits Tok) m max_epochs θ0 opt0 :
  let total_steps := len_train_loader sp * max_epochs in
  let trained := epoch_loop' sp m total_steps (seq 1 max_epochs) (initial θ0 opt0) in
  let test := eval' m (test_loader sp) max_epochs "test" None (rs_world trained.2) in
  (trained.1 = Ok tt
   /\ link_prediction' sp m max_epochs θ0 opt0 = (test.1, with_world test.2 trained.2))
  \/ (trained.1 = Raise ZeroDivisionError
      /\ link_prediction' sp m max_epochs θ0 opt0 = trained).
Proof.
  intros total_steps trained test. unfold link_prediction.
  fold total_steps. fold trained.
  destruct (epoch_loop_status sp m total_steps (seq 1 max_epochs) (initial θ0 opt0))
    as [_ Hor].
  fold trained in Hor. unfold test. destruct trained as [r s]. cbn [fst snd] in *.
  destruct Hor as [->| ->].
  - left. split; [done|]. by destruct (eval' _ _ _ _ _ _).
  - by right.
Qed.

(** Lines 120-147.  With a training file that is not empty, the run
    ends normally exactly when the test file has a triple and, unless
    [max_epochs] is 0, the validation file has one too; in every other
    case it ends with the ZeroDivisionError of an average over no
    batch. *)
Theorem link_prediction_completes_iff_splits_nonempty (sp : splits Tok) (m : model)
    (max_epochs : nat) (θ0 : Θ) (opt0 : Opt) :
  train_triples sp <> [] ->
  let run := link_prediction' sp m max_epochs θ0 opt0 in
  (run.1 = Ok tt
   <-> (max_epochs = 0 \/ valid_triples sp <> []) /\ test_triples sp <> [])
  /\ (run.1 = Ok tt \/ run.1 = Raise ZeroDivisionError).
Proof.
  intros Htrain run. unfold run.
  destruct (epoch_loop_status sp m (len_train_loader sp * max_epochs)
              (seq 1 max_epochs) (initial θ0 opt0)) as [Hiff _].
  cbn zeta in Hiff.
  assert (Hseq : seq 1 max_epochs = [] <-> max_epochs = 0).
  { destruct max_epochs; [done|]. split; [done|lia]. }
  rewrite Hseq in Hiff.
  assert (Hiff' : (epoch_loop' sp m (len_train_loader sp * max_epochs)
                     (seq 1 max_epochs) (initial θ0 opt0)).1 = Ok tt
                  <-> max_epochs = 0 \/ valid_triples sp <> []).
  { rewrite Hiff. split.
    - intros [?|[_ ?]]; [by left|by right].
    - intros [?|?]; [by left|by right]. }
  clear Hiff.
  destruct (link_prediction_run sp m max_epochs θ0 opt0) as [[Hok ->]|[Hfail ->]];
    cbn zeta in *.
  - pose proof (eval_frame ent_emb_fwd energy_eval utils_hit_at_k utils_mrr m
                  (test_loader sp) max_epochs "test" None
                  (rs_world (epoch_loop' sp m (len_train_loader sp * max_epochs)
                               (seq 1 max_epochs) (initial θ0 opt0)).2))
      as (_ & _ & _ & Hend).
    cbn zeta in Hend. cbn [fst]. unfold consumed, batches in Hend. cbn in Hend.
    rewrite chunks_nil_iff in Hend.
    destruct Hend as [(Hnil & -> & _)|(Hne & -> & _)].
    + split; [|by right]. split; [done|]. by intros [_ ?].
    + split; [|by left]. split; [|done]. intros _. split; [|done]. by apply Hiff'.
  - rewrite Hfail. split; [|by right]. split; [done|].
    intros [Hsp _]. apply Hiff' in Hsp. by rewrite Hfail in Hsp.
Qed.

(** Lines 137-147 and 80-81.  A run that ends normally has logged,
    besides the batch losses (which carry no step), for each epoch from
    1 to [max_epochs] in turn [train_loss] and then the two metrics of
    the training sample and the two of the validation set, all at the
    step of the epoch, and at the end the two metrics of the test set at
    step [max_epochs].  The metrics carry the evaluator's suffix: the
    test MRR is logged as [test_valid_mrr]. *)
Theorem link_prediction_logs_five_scalars_per_epoch (sp : splits Tok) (m : model)
    (max_epochs : nat) (θ0 : Θ) (opt0 : Opt) :
  let run := link_prediction' sp m max_epochs θ0 opt0 in
  run.1 = Ok tt ->
  scalar_names (rs_world run.2)
  = concat (epoch_scalars <$> seq 1 max_epochs) ++ test_scalars max_epochs.
Proof.
  intros run. unfold run.
  destruct (link_prediction_run sp m max_epochs θ0 opt0) as [[Hok ->]|[Hfail ->]];
    cbn zeta in *; [|by rewrite Hfail].
  destruct (epoch_loop_ok sp m _ _ _ Hok) as (_ & _ & _ & Hs).
  pose proof (eval_frame ent_emb_fwd energy_eval utils_hit_at_k utils_mrr m
                (test_loader sp) max_epochs "test" None
                (rs_world (epoch_loop' sp m (len_train_loader sp * max_epochs)
                             (seq 1 max_epochs) (initial θ0 opt0)).2))
    as (_ & _ & _ & Hend).
  cbn zeta in Hend. cbn [fst snd]. unfold with_world. cbn [rs_world].
  destruct Hend as [(_ & -> & _)|(_ & _ & hits & mrr & Hsc & _)]; [done|].
  intros _. unfold scalar_names in *. rewrite Hsc, fmap_app, Hs. done.
Qed.

(** Lines 120-147.  Evaluation leaves training alone, and the test set
    is scored with the parameters of the last epoch.  In a run that ends
    normally the parameters, the optimizer, the scheduler and the batch
    losses are those of the training steps of all epochs run one after
    the other without any evaluation; grad mode is on and nothing is left
    on the autograd graph; and the two test metrics, the last scalars
    logged, are the means over the batches of the test set of the
    helpers' values, computed with these final parameters and the
    embedding table built from them.  No validation result enters. *)
Theorem test_metrics_use_last_epoch_parameters (sp : splits Tok) (m : model)
    (max_epochs : nat) (θ0 : Θ) (opt0 : Opt) :
  let run := link_prediction' sp m max_epochs θ0 opt0 in
  let trained :=
    train_epochs' sp (len_train_loader sp * max_epochs) (seq 1 max_epochs)
      (initial θ0 opt0) in
  let θ := params (rs_world trained) in
  let tbl := ent_emb_table ent_emb_fwd θ m (test_loader sp) in
  let test_batches := batches (test_loader sp) in
  run.1 = Ok tt ->
  same_training run.2 trained
  /\ grad_enabled (rs_world run.2) = true
  /\ graph (rs_world run.2) = []
  /\ exists earlier hits mrr,
       scalars (rs_world run.2)
       = earlier ++ [("test_valid_mrr", mrr, max_epochs);
                     ("test_valid_hits@10", hits, max_epochs)]
       /\ (hits == qsum (batch_hits energy_eval utils_hit_at_k θ tbl
                           (all_entities m) <$> test_batches)
                     / Qnat (length test_batches))%Q
       /\ (mrr == qsum (batch_mrr energy_eval utils_mrr θ tbl
                          (all_entities m) <$> test_batches)
                    / Qnat (length test_batches))%Q.
Proof.
  intros run trained θ tbl test_batches. unfold run.
  destruct (link_prediction_run sp m max_epochs θ0 opt0) as [[Hok ->]|[Hfail ->]];
    cbn zeta in *; [|by rewrite Hfail].
  destruct (epoch_loop_ok sp m _ _ _ Hok) as (Hsame & Hg & Hgr & _).
  fold trained in Hsame.
  pose proof (eval_frame ent_emb_fwd energy_eval utils_hit_at_k utils_mrr m
                (test_loader sp) max_epochs "test" None
                (rs_world (epoch_loop' sp m (len_train_loader sp * max_epochs)
                             (seq 1 max_epochs) (initial θ0 opt0)).2))
    as (Hp & Hg2 & Hgr2 & Hend).
  cbn zeta in Hend. cbn [fst snd]. unfold with_world. cbn [rs_world].
  destruct Hend as [(_ & -> & _)|(_ & _ & hits & mrr & Hsc & Hh & Hm)]; [done|].
  intros _.
  assert (Hθ : params (rs_world (epoch_loop' sp m (len_train_loader sp * max_epochs)
                                   (seq 1 max_epochs) (initial θ0 opt0)).2) = θ).
  { by destruct Hsame as (-> & _). }
  rewrite Hθ in Hh, Hm.
  split.
  { destruct Hsame as (H1 & H2 & H3 & H4). repeat split; try done.
    cbn. by rewrite Hp. }
  split; [by rewrite Hg2, Hg|]. split; [by rewrite Hgr2, Hgr|].
  eexists _, hits, mrr. split; [exact Hsc|]. split; [exact Hh|exact Hm].
Qed.

(** Lines 114-128.  When every pass over the shuffling loader yields as
    many triples as the training file has, a run that ends normally has
    stepped the scheduler [total_steps] = [len(train_loader) * max_epochs]
    times, once with each optimizer step: the learning-rate schedule
    ends with the last training step. *)
Theorem scheduler_steps_are_total_steps (sp : splits Tok) (m : model)
    (max_epochs : nat) (θ0 : Θ) (opt0 : Opt) :
  (forall e l, length (shuffle e l) = length l) ->
  let run := link_prediction' sp m max_epochs θ0 opt0 in
  run.1 = Ok tt ->
  rs_scheduler run.2 = len_train_loader sp * max_epochs.
Proof.
  intros Hsh run. unfold run.
  destruct (link_prediction_run sp m max_epochs θ0 opt0) as [[Hok ->]|[Hfail ->]];
    cbn zeta in *; [|by rewrite Hfail].
  destruct (epoch_loop_ok sp m _ _ _ Hok) as ((_ & _ & Hs & _) & _).
  intros _. cbn [fst snd]. unfold with_world. cbn [rs_scheduler].
  rewrite Hs, train_epochs_scheduler by done.
  rewrite length_seq. cbn. lia.
Qed.

Lemma train_loop_batch_loss_grows total_steps step batches
    (s : run_state Θ Opt) x :
  exists more,
    rs_batch_loss (train_loop' total_steps step batches (s, x)).1
    = rs_batch_loss s ++ more.
Proof.
  revert step s x. induction batches as [|data rest IH]; intros step s x.
  - exists []. cbn. by rewrite app_nil_r.
  - cbn [train_loop]. unfold train_step at 1.
    destruct (optimizer_step _ _ _ _ _) as [opt θ].
    destruct (IH (S step)
                (RunState (World θ (grad_enabled (rs_world s)) (graph (rs_world s))
                             (scalars (rs_world s)) (trace (rs_world s)))
                   opt (S (rs_scheduler s))
                   (if step mod 200 =? 0
                    then rs_batch_loss s ++ [forward_loss (params (rs_world s)) data]
                    else rs_batch_loss s))
                (x + forward_loss (params (rs_world s)) data)%Q) as [more ->].
    cbn [rs_batch_loss]. destruct (step mod 200 =? 0).
    + eexists. by rewrite <- app_assoc.
    + by eexists.
Qed.

Lemma train_loop_first_batch_loss total_steps data rest (s : run_state Θ Opt) x :
  exists more,
    rs_batch_loss (train_loop' total_steps 0 (data :: rest) (s, x)).1
    = rs_batch_loss s ++ forward_loss (params (rs_world s)) data :: more.
Proof.
  cbn [train_loop]. unfold train_step at 1.
  destruct (optimizer_step _ _ _ _ _) as [opt θ].
  destruct (train_loop_batch_loss_grows total_steps 1 rest
              (RunState (World θ (grad_enabled (rs_world s)) (graph (rs_world s))
                           (scalars (rs_world s)) (trace (rs_world s)))
                 opt (S (rs_scheduler s))
                 (rs_batch_loss s ++ [forward_loss (params (rs_world s)) data]))
              (x + forward_loss (params (rs_world s)) data)%Q) as [more Hm].
  exists more. cbn [Nat.modulo Nat.eqb] in *. cbn in Hm |- *.
  rewrite Hm. cbn. by rewrite <- app_assoc.
Qed.

(** Lines 130-141.  With an empty validation file the cap on the
    training sample, [len(valid_loader)], is 0: the run trains for the
    whole first epoch, logs the loss of its first step as [batch_loss]
    (and those of later steps as training alone does), logs its
    [train_loss], and then fails in the evaluation of the training
    sample with a ZeroDivisionError, before the validation set is looked
    at.  No metric of any evaluation is logged, and the state is that of
    one epoch of training. *)
Theorem empty_validation_fails_after_first_epoch (sp : splits Tok) (m : model)
    (max_epochs : nat) (θ0 : Θ) (opt0 : Opt) :
  0 < max_epochs ->
  train_triples sp <> [] ->
  valid_triples sp = [] ->
  let run := link_prediction' sp m max_epochs θ0 opt0 in
  run.1 = Raise ZeroDivisionError
  /\ scalar_names (rs_world run.2) = [("train_loss", 1)]
  /\ match train_batches' sp 1 with
     | data :: _ => exists more, rs_batch_loss run.2 = forward_loss θ0 data :: more
     | [] => rs_batch_loss run.2 = []
     end
  /\ same_training run.2
       (train_epochs' sp (len_train_loader sp * max_epochs) [1] (initial θ0 opt0))
  /\ rs_scheduler run.2 = length (train_batches' sp 1).
Proof.
  intros Hmax Ht Hv run. unfold run, link_prediction.
  destruct max_epochs as [|n]; [lia|]. cbn [seq epoch_loop].
  pose proof (run_epoch_run sp m (len_train_loader sp * S n) 1 (initial θ0 opt0))
    as (Hsame & _ & _ & Hend).
  pose proof (train_loop_fields (len_train_loader sp * S n) 0 (train_batches' sp 1)
                (initial θ0 opt0) 0%Q) as (_ & _ & _ & _ & Hsched).
  cbn zeta in *.
  destruct (run_epoch' sp m (len_train_loader sp * S n) 1 (initial θ0 opt0))
    as [r s1].
  cbn [fst snd] in *.
  destruct Hend as [(_ & Hv' & _)|[(Ht' & _)|(_ & _ & -> & Hs)]]; [done..|].
  cbn [fst snd]. split; [done|]. split; [exact Hs|].
  split; [|split; [exact Hsame|]].
  - destruct Hsame as (_ & _ & _ & ->).
    destruct (train_batches' sp 1) as [|data rest]; [done|].
    destruct (train_loop_first_batch_loss (len_train_loader sp * S n) data rest
                (initial θ0 opt0) 0%Q) as [more ->].
    by exists more.
  - destruct Hsame as (_ & _ & -> & _). by rewrite Hsched.
Qed.

End Facts.

Section EncoderCalls.

Context {Θ Tok Data Opt G : Type}.
Variable ent_emb_fwd : Θ -> Tok -> nat -> Vec.
Variable energy_eval : Θ -> option (list Vec) -> nat -> nat -> nat -> Q.
Variable utils_hit_at_k : list (list Q) -> list nat -> nat -> Q.
Variable utils_mrr : list (list Q) -> list nat -> Q.
Variable forward_loss : Θ -> Data -> Q.
Variable loss_grad : Θ -> Data -> G.
Variable optimizer_step : nat -> nat -> Opt -> Θ -> G -> Opt * Θ.
Variable shuffle : nat -> list triple -> list triple.
Variable negative_sampling : nat -> nat -> list triple -> Data.

Lemma batch_calls_no_encoder all (bs : list (list triple)) :
  List.filter is_encoder_call (concat (batch_calls all <$> bs)) = [].
Proof. induction bs as [|b bs IH]; [done|]. cbn. exact IH. Qed.

Lemma eval_encoder_calls m (loader : DataLoader Tok) descr epoch prefix max
    (w : world Θ) :
  text_data (dataset loader) = Some descr ->
  encoder_calls
    (eval_link_prediction ent_emb_fwd energy_eval utils_hit_at_k utils_mrr
       m loader epoch prefix max w).2
  = encoder_calls w + length (chunks (batch_size loader) (all_entities m)).
Proof.
  intros Ht.
  assert (Hcalls : forall tr : list fwd,
            length (List.filter is_encoder_call
                      (tr ++ cache_calls m loader
                          ++ concat (batch_calls (all_entities m)
                                       <$> consumed max (batches loader))))
            = length (List.filter is_encoder_call tr)
              + length (chunks (batch_size loader) (all_entities m))).
  { intros tr. rewrite !List.filter_app, batch_calls_no_encoder, app_nil_r.
    rewrite length_app. f_equal. unfold cache_calls. rewrite Ht.
    induction (chunks (batch_size loader) (all_entities m)) as [|c cs IH]; [done|].
    cbn. by rewrite IH. }
  unfold encoder_calls.
  destruct (eval_link_prediction_run ent_emb_fwd energy_eval utils_hit_at_k
              utils_mrr m loader epoch prefix max w)
    as [[_ ->]|(_ & hits & mrr & -> & _)]; cbn [snd trace log_scalar];
    apply Hcalls.
Qed.

Lemma run_epoch_encoder_calls (sp : splits Tok) m total_steps epoch
    (s : run_state Θ Opt) :
  let run := run_epoch ent_emb_fwd energy_eval utils_hit_at_k utils_mrr
               forward_loss loss_grad optimizer_step shuffle negative_sampling
               sp m total_steps epoch s in
  run.1 = Ok tt ->
  encoder_calls (rs_world run.2)
  = encoder_calls (rs_world s) + 2 * length (chunks 128 (all_entities m)).
Proof.
  intros run. unfold run, run_epoch.
  pose proof (train_loop_fields forward_loss loss_grad optimizer_step total_steps 0
                (train_batches shuffle negative_sampling sp epoch) s 0%Q)
    as (_ & _ & _ & Htr & _).
  destruct (train_loop forward_loss loss_grad optimizer_step total_steps 0
              (train_batches shuffle negative_sampling sp epoch) (s, 0%Q))
    as [s1 train_loss].
  cbn [fst] in Htr.
  destruct (len_train_loader sp =? 0); [done|].
  set (w1 := log_scalar "train_loss"
               (train_loss / Qnat (len_train_loader sp)) epoch (rs_world s1)).
  pose proof (eval_encoder_calls m (train_eval_loader sp) (descriptions sp) epoch
                "train" (Some (length (batches (valid_loader sp)))) w1 eq_refl)
    as H1.
  destruct (eval_link_prediction ent_emb_fwd energy_eval utils_hit_at_k utils_mrr
              m (train_eval_loader sp) epoch "train"
              (Some (length (batches (valid_loader sp)))) w1) as [[[]|e] w2];
    [|done].
  pose proof (eval_encoder_calls m (valid_loader sp) (descriptions sp) epoch
                "valid" None w2 eq_refl) as H2.
  destruct (eval_link_prediction ent_emb_fwd energy_eval utils_hit_at_k utils_mrr
              m (valid_loader sp) epoch "valid" None w2) as [r3 w3].
  cbn [fst snd] in *. intros _. unfold with_world. cbn [rs_world].
  rewrite H2, H1. unfold encoder_calls, w1. cbn [trace log_scalar].
  rewrite Htr. cbn. lia.
Qed.

Lemma epoch_loop_encoder_calls (sp : splits Tok) m total_steps epochs
    (s : run_state Θ Opt) :
  let run := epoch_loop ent_emb_fwd energy_eval utils_hit_at_k utils_mrr
               forward_loss loss_grad optimizer_step shuffle negative_sampling
               sp m total_steps epochs s in
  run.1 = Ok tt ->
  encoder_calls (rs_world run.2)
  = encoder_calls (rs_world s)
    + 2 * length epochs * length (chunks 128 (all_entities m)).
Proof.
  revert s. induction epochs as [|e rest IH]; intros s.
  - cbn. lia.
  - cbn [epoch_loop length].
    pose proof (run_epoch_encoder_calls sp m total_steps e s) as He.
    cbn zeta in *.
    destruct (run_epoch ent_emb_fwd energy_eval utils_hit_at_k utils_mrr
                forward_loss loss_grad optimizer_step shuffle negative_sampling
                sp m total_steps e s) as [[[]|x] s1]; [|done].
    cbn [fst snd] in He. intros HD. rewrite (IH s1 HD), (He eq_refl). lia.
Qed.

(** Lines 38-51 and 140-147.  Nothing of the embedding table is kept
    between evaluations: a run that ends normally has encoded the
    descriptions of all entities, in chunks of 128, twice in every epoch
    and once more for the test set. *)
Theorem every_evaluation_encodes_all_entities (sp : splits Tok) (m : model)
    (max_epochs : nat) (θ0 : Θ) (opt0 : Opt) :
  let run := link_prediction ent_emb_fwd energy_eval utils_hit_at_k utils_mrr
               forward_loss loss_grad optimizer_step shuffle negative_sampling
               sp m max_epochs θ0 opt0 in
  run.1 = Ok tt ->
  encoder_calls (rs_world run.2)
  = (2 * max_epochs + 1) * length (chunks 128 (all_entities m))
  /\ concat (chunks 128 (all_entities m)) = seq 0 (num_entities m).
Proof.
  intros run. unfold run.
  destruct (link_prediction_run ent_emb_fwd energy_eval utils_hit_at_k utils_mrr
              forward_loss loss_grad optimizer_step shuffle negative_sampling
              sp m max_epochs θ0 opt0) as [[Hok ->]|[Hfail ->]];
    cbn zeta in *; [|by rewrite Hfail].
  intros _. split; [|apply chunks_concat].
  cbn [fst snd]. unfold with_world. cbn [rs_world].
  rewrite (eval_encoder_calls m (test_loader sp) (descriptions sp) max_epochs
             "test" None _ eq_refl).
  rewrite (epoch_loop_encoder_calls sp m _ _ _ Hok), length_seq.
  cbn [batch_size test_loader]. unfold encoder_calls. cbn. lia.
Qed.

End EncoderCalls.

(** Two epochs over forty training triples, one validation triple and
    one test triple. *)
Lemma link_prediction_logs_five_scalars_per_epoch_witness :
  scalar_names (rs_world (ex_link_prediction ex_splits 2).2)
  = [("train_loss", 1); ("train_valid_mrr", 1); ("train_valid_hits@10", 1);
     ("valid_valid_mrr", 1); ("valid_valid_hits@10", 1);
     ("train_loss", 2); ("train_valid_mrr", 2); ("train_valid_hits@10", 2);
     ("valid_valid_mrr", 2); ("valid_valid_hits@10", 2);
     ("test_valid_mrr", 2); ("test_valid_hits@10", 2)].
Proof.
  apply (link_prediction_logs_five_scalars_per_epoch ex_run_ent_emb ex_run_energy
           Utils.hit_at_k Utils.mrr ex_forward_loss ex_loss_grad ex_optimizer_step
           ex_shuffle ex_negative_sampling ex_splits TrainExamples.ex_model 2 0 0).
  by vm_compute.
Defined.

(** After the two epochs the parameter has counted the eighty triples
    trained on, as in training alone. *)
Lemma test_metrics_use_last_epoch_parameters_witness :
  same_training (ex_link_prediction ex_splits 2).2
    (train_epochs ex_forward_loss ex_loss_grad ex_optimizer_step ex_shuffle
       ex_negative_sampling ex_splits (len_train_loader ex_splits * 2) [1; 2]
       (initial 0 0))
  /\ params (rs_world (ex_link_prediction ex_splits 2).2) = 80
  /\ grad_enabled (rs_world (ex_link_prediction ex_splits 2).2) = true.
Proof.
  destruct (test_metrics_use_last_epoch_parameters ex_run_ent_emb ex_run_energy
              Utils.hit_at_k Utils.mrr ex_forward_loss ex_loss_grad
              ex_optimizer_step ex_shuffle ex_negative_sampling ex_splits
              TrainExamples.ex_model 2 0 0) as (Hsame & Hg & _).
  { by vm_compute. }
  split; [exact Hsame|]. split; [reflexivity|exact Hg].
Defined.

(** Two batches of training triples in each of two epochs: four steps. *)
Lemma scheduler_steps_are_total_steps_witness :
  rs_scheduler (ex_link_prediction ex_splits 2).2 = 4.
Proof.
  apply (scheduler_steps_are_total_steps ex_run_ent_emb ex_run_energy
           Utils.hit_at_k Utils.mrr ex_forward_loss ex_loss_grad ex_optimizer_step
           ex_shuffle ex_negative_sampling ex_splits TrainExamples.ex_model 2 0 0).
  - intros e l. apply length_rev.
  - by vm_compute.
Defined.

(** The same run without a validation triple: one epoch of training,
    two steps, the batch loss of the first, the training loss, and the
    failure. *)
Lemma empty_validation_fails_after_first_epoch_witness :
  (ex_link_prediction ex_empty_valid 2).1 = Raise ZeroDivisionError
  /\ scalar_names (rs_world (ex_link_prediction ex_empty_valid 2).2)
     = [("train_loss", 1)]
  /\ rs_batch_loss (ex_link_prediction ex_empty_valid 2).2 = [Qnat 32]
  /\ rs_scheduler (ex_link_prediction ex_empty_valid 2).2 = 2.
Proof.
  destruct (empty_validation_fails_after_first_epoch ex_run_ent_emb ex_run_energy
              Utils.hit_at_k Utils.mrr ex_forward_loss ex_loss_grad
              ex_optimizer_step ex_shuffle ex_negative_sampling ex_empty_valid
              TrainExamples.ex_model 2 0 0) as (Hr & Hs & _ & _ & Hsched).
  - lia.
  - by vm_compute.
  - reflexivity.
  - split; [exact Hr|]. split; [exact Hs|]. split; [reflexivity|exact Hsched].
Defined.

(** Without a validation triple the run ends normally when there is no
    epoch to run, and fails when there are two. *)
Lemma link_prediction_completes_iff_splits_nonempty_witness :
  (ex_link_prediction ex_empty_valid 0).1 = Ok tt
  /\ (ex_link_prediction ex_empty_valid 2).1 = Raise ZeroDivisionError.
Proof.
  split.
  - apply (proj1 (link_prediction_completes_iff_splits_nonempty ex_run_ent_emb
                    ex_run_energy Utils.hit_at_k Utils.mrr ex_forward_loss ex_loss_grad
                    ex_optimizer_step ex_shuffle ex_negative_sampling
                    ex_empty_valid TrainExamples.ex_model 0 0 0
                    ltac:(by vm_compute))).
    split; [by left|by vm_compute].
  - destruct (link_prediction_completes_iff_splits_nonempty ex_run_ent_emb
                ex_run_energy Utils.hit_at_k Utils.mrr ex_forward_loss ex_loss_grad
                ex_optimizer_step ex_shuffle ex_negative_sampling
                ex_empty_valid TrainExamples.ex_model 2 0 0) as [Hiff [Hok|Hfail]].
    + by vm_compute.
    + apply Hiff in Hok as [[?|Hv] _]; [done|]. by destruct Hv.
    + exact Hfail.
Defined.

(** Twelve entities fit one chunk of 128: five evaluations, five calls
    of the encoder. *)
Lemma every_evaluation_encodes_all_entities_witness :
  encoder_calls (rs_world (ex_link_prediction ex_splits 2).2) = 5.
Proof.
  apply (proj1 (every_evaluation_encodes_all_entities ex_run_ent_emb ex_run_energy
                  Utils.hit_at_k Utils.mrr ex_forward_loss ex_loss_grad
                  ex_optimizer_step ex_shuffle ex_negative_sampling ex_splits
                  TrainExamples.ex_model 2 0 0 ltac:(by vm_compute))).
Defined.

End LinkPredictionFacts.
